(** * awsbackend: idempotent request pipeline, spend ledger and PHI encryption

    A shallow embedding of the Go packages [internal/llm] (cost control),
    [internal/idempotency], [internal/encryption] and of the journal-entry
    lambda, followed by the properties of the request pipeline.

    Conventions of the embedding:
    - a Go [string] and a Go [[]byte] are both byte sequences: [string];
    - a Go [float64] is an IEEE-754 binary64 value: [spec_float] at
      precision 53 and maximal exponent 1024;
    - a Go [int] / [int64] is a [Z] (wrap-around written where the code
      does arithmetic on it);
    - a [time.Time] is a [Z], nanoseconds since the Unix epoch;
    - a Go [(T, error)] result is a [result T]; an error is its message;
    - the DynamoDB tables are finite maps of records (marshalling a record
      to its item and back is the identity and cannot fail); the remote
      calls of the SDK may fail: an oracle decides for the n-th remote
      call whether it fails;
    - [time.Now()] reads a clock oracle: the n-th reading is [clock n];
    - floating-point operations are rounded one by one. *)

From Stdlib Require Import ZArith String Ascii List Bool Lia DecimalString.
From Stdlib Require Import Floats.SpecFloat.
From stdpp Require Import gmap strings.

Local Open Scope string_scope.
Local Open Scope Z_scope.

(** ** Results and the state-and-error monad *)

Inductive result (A : Type) : Type :=
| Ok (a : A)
| Err (msg : string).
Arguments Ok {A} a.
Arguments Err {A} msg.

Definition is_Ok {A} (r : result A) : bool :=
  match r with Ok _ => true | Err _ => false end.

Definition is_Err {A} (r : result A) : bool := negb (is_Ok r).

(** A computation over a state [S] that returns a value or an error. *)
Definition St (S A : Type) : Type := S -> result A * S.

Definition ret {S A} (a : A) : St S A := fun s => (Ok a, s).

Definition fail {S A} (msg : string) : St S A := fun s => (Err msg, s).

Definition bind {S A B} (m : St S A) (k : A -> St S B) : St S B :=
  fun s => match m s with
           | (Ok a, s') => k a s'
           | (Err e, s') => (Err e, s')
           end.

Notation "x <- m ;; k" := (bind m (fun x => k))
  (at level 100, m at level 99, k at level 200, right associativity).
Notation "m ;;; k" := (bind m (fun _ => k))
  (at level 100, k at level 200, right associativity).

(** [fmt.Errorf(prefix + "%v", err)] around a failing call. *)
Definition wrap {S A} (prefix : string) (m : St S A) : St S A :=
  fun s => match m s with
           | (Ok a, s') => (Ok a, s')
           | (Err e, s') => (Err (prefix ++ e), s')
           end.

(** A call whose error result is dropped by the caller. *)
Definition discard {S A} (m : St S A) : St S unit :=
  fun s => (Ok tt, snd (m s)).

(** ** binary64 arithmetic *)

Module Float64.
Definition prec : Z := 53.
Definition emax : Z := 1024.

Definition float64 : Type := spec_float.

Definition add : float64 -> float64 -> float64 := SFadd prec emax.
Definition sub : float64 -> float64 -> float64 := SFsub prec emax.
Definition mul : float64 -> float64 -> float64 := SFmul prec emax.
Definition div : float64 -> float64 -> float64 := SFdiv prec emax.

(** Go's [x < y], [x <= y], [x > y] on float64. *)
Definition ltb (x y : float64) : bool := SFltb x y.
Definition leb (x y : float64) : bool := SFleb x y.
Definition gtb (x y : float64) : bool := SFltb y x.

(** [float64(n)] for an integer [n]. *)
Definition of_int (n : Z) : float64 := binary_normalize prec emax n 0 false.

Definition valid (x : float64) : bool := valid_binary prec emax x.

Definition zero : float64 := S754_zero false.

(** The literals of the source, each the binary64 value nearest to the
    decimal literal. *)
Definition lit_5_0 : float64 := S754_finite false 5629499534213120 (-50).
Definition lit_1000_0 : float64 := S754_finite false 8796093022208000 (-43).
Definition lit_0_003 : float64 := S754_finite false 6917529027641082 (-61).
Definition lit_0_015 : float64 := S754_finite false 8646911284551352 (-59).
Definition lit_0_00025 : float64 := S754_finite false 4611686018427388 (-64).
Definition lit_0_00125 : float64 := S754_finite false 5764607523034235 (-62).
Definition lit_0_075 : float64 := S754_finite false 5404319552844595 (-56).
Definition lit_50_0 : float64 := S754_finite false 7036874417766400 (-47).

(** [x] is a number (not NaN) and its sign bit is [s]. *)
Definition sign_is (s : bool) (x : float64) : bool :=
  match x with
  | S754_nan => false
  | S754_zero s' | S754_infinity s' | S754_finite s' _ _ => Bool.eqb s' s
  end.

Definition is_nan (x : float64) : bool :=
  match x with S754_nan => true | _ => false end.
End Float64.

Arguments Float64.add : simpl never.
Arguments Float64.sub : simpl never.
Arguments Float64.mul : simpl never.
Arguments Float64.div : simpl never.
Arguments Float64.ltb : simpl never.
Arguments Float64.leb : simpl never.
Arguments Float64.gtb : simpl never.
Arguments Float64.of_int : simpl never.

Abbreviation float64 := Float64.float64.

(** ** The outside world: libraries, clock and faults *)

(** Library functions the code calls and whose bodies are not part of the
    repository. *)
Class Externals := {
  (** what a work closure returns: Go's [interface{}] *)
  Value : Type;
  (** [hex.EncodeToString(sha256.Sum256(b))] *)
  sha256_hex : string -> string;
  json_Marshal : Value -> result string;
  json_Unmarshal : string -> result Value;
  base64_EncodeToString : string -> string;
  base64_DecodeString : string -> result string;
  (** [t.Format("2006-01-02")] and [t.Format(time.RFC3339)] *)
  format_date : Z -> string;
  format_RFC3339 : Z -> string;
  (** the verb [%.4f] of [fmt.Sprintf] *)
  sprintf_4f : float64 -> string;
  (** the KMS service: key id, payload, encryption context *)
  kms_Encrypt : string -> string -> gmap string string -> result string;
  kms_Decrypt : string -> gmap string string -> result string;
}.

(** The n-th reading of [time.Now()], the fate of the n-th remote
    DynamoDB call ([Some e]: the call does not get through and the SDK
    returns an error of text [e]), and the text of the error the SDK
    returns when the n-th call gets through and the service refuses its
    condition (it names the operation, the request id and the service's
    [ConditionalCheckFailedException]). *)
Class Oracle := {
  clock : nat -> Z;
  fault : nat -> option string;
  condition_failure : nat -> string;
}.

(** [%d] of [fmt.Sprintf]. *)
Definition sprintf_d (n : Z) : string := NilZero.string_of_int (Z.to_int n).

Module time.
Definition Nanosecond : Z := 1.
Definition Second : Z := 1000000000.
Definition Hour : Z := 3600 * Second.
Definition Add (t d : Z) : Z := t + d.
Definition After (t u : Z) : bool := (u <? t)%Z.
Definition Unix (t : Z) : Z := t / Second.
Definition UnixNano (t : Z) : Z := t.
(** the zero [time.Time]: January 1, year 1, 00:00:00 UTC *)
Definition zero : Z := (-62135596800) * Second.
End time.

(** Go's [int] on the 64-bit targets of the lambdas. *)
Definition wrap_int64 (n : Z) : Z := (n + 2 ^ 63) mod 2 ^ 64 - 2 ^ 63.

(** ** Package llm: the spend ledger *)

Record UserSpendRecord := {
  sr_UserID : string;
  sr_Date : string;
  sr_LLMRequests : Z;
  sr_LLMCost : float64;
  sr_DailyLimit : float64;
  sr_CreatedAt : string;
  sr_UpdatedAt : string;
  sr_TTL : Z;
}.

Record CostControlResult := {
  Allowed : bool;
  Remaining : float64;
  CurrentCost : float64;
  DailyLimit : float64;
  Reason : string;
}.

(** A request sent to the encryption service. *)
Inductive KmsCall :=
| KmsEncryptCall (keyID plaintext : string) (context : gmap string string)
| KmsDecryptCall (blob : string) (context : gmap string string).

(** Everything a work closure can reach: the spend table, the encryption
    service (its request log), the clock and the network. *)
Record World := {
  spend_table : gmap (string * string) UserSpendRecord;
  kms_log : list KmsCall;
  ticks : nat;
  calls : nat;
}.

Definition set_spend_table (t : gmap (string * string) UserSpendRecord) (w : World) : World :=
  {| spend_table := t; kms_log := kms_log w; ticks := ticks w; calls := calls w |}.

Definition set_kms_log (l : list KmsCall) (w : World) : World :=
  {| spend_table := spend_table w; kms_log := l; ticks := ticks w; calls := calls w |}.

Definition set_ticks (n : nat) (w : World) : World :=
  {| spend_table := spend_table w; kms_log := kms_log w; ticks := n; calls := calls w |}.

Definition set_calls (n : nat) (w : World) : World :=
  {| spend_table := spend_table w; kms_log := kms_log w; ticks := ticks w; calls := n |}.

(** What DynamoDB and Go guarantee of a spend table: an item is found
    under its own key attributes, and a [float64] is a binary64 value. *)
Definition well_kept (t : gmap (string * string) UserSpendRecord) : Prop :=
  forall k r, t !! k = Some r ->
    k = (sr_UserID r, sr_Date r) /\ Float64.valid (sr_LLMCost r) = true.

Section Llm.
Context `{Externals} `{Oracle}.

(** [time.Now()] *)
Definition time_Now : St World Z :=
  fun w => (Ok (clock (ticks w)), set_ticks (S (ticks w)) w).

(** One remote call of the DynamoDB client: it fails when the oracle
    says so, before the table is touched. *)
Definition remote_call : St World unit :=
  fun w => match fault (calls w) with
           | Some e => (Err e, set_calls (S (calls w)) w)
           | None => (Ok tt, set_calls (S (calls w)) w)
           end.

Definition getDefaultDailyLimit (userID : string) : float64 := Float64.lit_5_0.

Definition getUserSpendRecord (userID date : string) : St World (option UserSpendRecord) :=
  wrap "failed to get item: " remote_call ;;;
  fun w => (Ok (spend_table w !! (userID, date)), w).

Definition saveUserSpendRecord (record : UserSpendRecord) : St World unit :=
  wrap "failed to put item: " remote_call ;;;
  fun w => (Ok tt, set_spend_table
                     (<[(sr_UserID record, sr_Date record) := record]> (spend_table w)) w).

(** The record both operations start from when the table has none. *)
Definition fresh_spend_record (userID today : string) : St World UserSpendRecord :=
  created <- time_Now ;;
  updated <- time_Now ;;
  ret {| sr_UserID := userID; sr_Date := today;
         sr_LLMRequests := 0; sr_LLMCost := Float64.zero;
         sr_DailyLimit := getDefaultDailyLimit userID;
         sr_CreatedAt := format_RFC3339 created;
         sr_UpdatedAt := format_RFC3339 updated;
         sr_TTL := 0 |}.

Definition CheckUserSpendLimit (userID : string) (estimatedCost : float64)
  : St World CostControlResult :=
  now <- time_Now ;;
  let today := format_date now in
  found <- wrap "failed to get user spend record: " (getUserSpendRecord userID today) ;;
  record <- match found with
            | Some r => ret r
            | None => fresh_spend_record userID today
            end ;;
  let newTotalCost := Float64.add (sr_LLMCost record) estimatedCost in
  if Float64.gtb newTotalCost (sr_DailyLimit record) then
    ret {| Allowed := false;
           Remaining := Float64.sub (sr_DailyLimit record) (sr_LLMCost record);
           CurrentCost := sr_LLMCost record;
           DailyLimit := sr_DailyLimit record;
           Reason := "Daily limit exceeded. Current: $" ++ sprintf_4f (sr_LLMCost record)
                     ++ ", Request: $" ++ sprintf_4f estimatedCost
                     ++ ", Limit: $" ++ sprintf_4f (sr_DailyLimit record) |}
  else
    ret {| Allowed := true;
           Remaining := Float64.sub (sr_DailyLimit record) (sr_LLMCost record);
           CurrentCost := sr_LLMCost record;
           DailyLimit := sr_DailyLimit record;
           Reason := "" |}.

Definition RecordLLMRequest (userID : string) (cost : float64) : St World unit :=
  now <- time_Now ;;
  let today := format_date now in
  found <- wrap "failed to get user spend record: " (getUserSpendRecord userID today) ;;
  record <- match found with
            | Some r => ret r
            | None => fresh_spend_record userID today
            end ;;
  updated <- time_Now ;;
  expiry <- time_Now ;;
  wrap "failed to save user spend record: "
    (saveUserSpendRecord
       {| sr_UserID := sr_UserID record; sr_Date := sr_Date record;
          sr_LLMRequests := wrap_int64 (sr_LLMRequests record + 1);
          sr_LLMCost := Float64.add (sr_LLMCost record) cost;
          sr_DailyLimit := sr_DailyLimit record;
          sr_CreatedAt := sr_CreatedAt record;
          sr_UpdatedAt := format_RFC3339 updated;
          sr_TTL := time.Unix (time.Add expiry (7 * 24 * time.Hour)) |}).

(** [RecordLLMRequest] cut between its two remote calls, for invocations
    that interleave: the part up to the record it will update, and the
    part from the update on. *)
Definition RecordLLMRequest_read (userID : string) : St World UserSpendRecord :=
  now <- time_Now ;;
  let today := format_date now in
  found <- wrap "failed to get user spend record: " (getUserSpendRecord userID today) ;;
  match found with
  | Some r => ret r
  | None => fresh_spend_record userID today
  end.

Definition RecordLLMRequest_write (record : UserSpendRecord) (cost : float64) : St World unit :=
  updated <- time_Now ;;
  expiry <- time_Now ;;
  wrap "failed to save user spend record: "
    (saveUserSpendRecord
       {| sr_UserID := sr_UserID record; sr_Date := sr_Date record;
          sr_LLMRequests := wrap_int64 (sr_LLMRequests record + 1);
          sr_LLMCost := Float64.add (sr_LLMCost record) cost;
          sr_DailyLimit := sr_DailyLimit record;
          sr_CreatedAt := sr_CreatedAt record;
          sr_UpdatedAt := format_RFC3339 updated;
          sr_TTL := time.Unix (time.Add expiry (7 * 24 * time.Hour)) |}).

Definition GetUserSpendSummary (userID : string) : St World (option UserSpendRecord) :=
  now <- time_Now ;;
  getUserSpendRecord userID (format_date now).

(** Price per thousand tokens of a Bedrock model: input, output. *)
Definition model_costs (model : string) : option (float64 * float64) :=
  if String.eqb model "anthropic.claude-3-sonnet-20240229-v1:0"
  then Some (Float64.lit_0_003, Float64.lit_0_015)
  else if String.eqb model "anthropic.claude-3-haiku-20240307-v1:0"
  then Some (Float64.lit_0_00025, Float64.lit_0_00125)
  else if String.eqb model "anthropic.claude-3-opus-20240229-v1:0"
  then Some (Float64.lit_0_015, Float64.lit_0_075)
  else None.

Definition EstimateLLMCost (inputTokens outputTokens : Z) (model : string) : float64 :=
  let modelCosts := match model_costs model with
                    | Some c => c
                    | None => (Float64.lit_0_003, Float64.lit_0_015)
                    end in
  let inputCost := Float64.mul (Float64.div (Float64.of_int inputTokens) Float64.lit_1000_0)
                               (fst modelCosts) in
  let outputCost := Float64.mul (Float64.div (Float64.of_int outputTokens) Float64.lit_1000_0)
                                (snd modelCosts) in
  Float64.add inputCost outputCost.
End Llm.

(** ** Package encryption: the boundary around the KMS service *)

Record KMSClient := { keyID : string }.

Section Encryption.
Context `{Externals} `{Oracle}.

(** The encryption context bound to every call. *)
Definition phi_context : gmap string string :=
  <["Purpose" := "PHI-Encryption"]> (<["Service" := "Therma-Backend"]> ∅).

(** [k.client.Encrypt] and [k.client.Decrypt]: the request reaches the
    service (it is logged) and the service answers. *)
Definition client_Encrypt (keyId plaintext : string) (context : gmap string string)
  : St World string :=
  fun w => (kms_Encrypt keyId plaintext context,
            set_kms_log (KmsEncryptCall keyId plaintext context :: kms_log w) w).

Definition client_Decrypt (blob : string) (context : gmap string string)
  : St World string :=
  fun w => (kms_Decrypt blob context,
            set_kms_log (KmsDecryptCall blob context :: kms_log w) w).

Definition EncryptPHI (k : KMSClient) (plaintext : string) : St World string :=
  if String.eqb plaintext "" then ret ""
  else
    blob <- wrap "failed to encrypt PHI: " (client_Encrypt (keyID k) plaintext phi_context) ;;
    ret (base64_EncodeToString blob).

Definition DecryptPHI (k : KMSClient) (ciphertext : string) : St World string :=
  if String.eqb ciphertext "" then ret ""
  else
    ciphertextBlob <- wrap "failed to decode ciphertext: "
                        (fun w => (base64_DecodeString ciphertext, w)) ;;
    plaintext <- wrap "failed to decrypt PHI: " (client_Decrypt ciphertextBlob phi_context) ;;
    ret plaintext.

(** The loop of [EncryptPHIArray] from index [i] on. *)
Fixpoint encrypt_elements (k : KMSClient) (i : Z) (plaintexts : list string)
  : St World (list string) :=
  match plaintexts with
  | [] => ret []
  | plaintext :: rest =>
      enc <- wrap ("failed to encrypt array element " ++ sprintf_d i ++ ": ")
               (EncryptPHI k plaintext) ;;
      encs <- encrypt_elements k (i + 1) rest ;;
      ret (enc :: encs)
  end.

Definition EncryptPHIArray (k : KMSClient) (plaintexts : list string)
  : St World (list string) :=
  match plaintexts with
  | [] => ret []
  | _ => encrypt_elements k 0 plaintexts
  end.

Fixpoint decrypt_elements (k : KMSClient) (i : Z) (ciphertexts : list string)
  : St World (list string) :=
  match ciphertexts with
  | [] => ret []
  | ciphertext :: rest =>
      dec <- wrap ("failed to decrypt array element " ++ sprintf_d i ++ ": ")
               (DecryptPHI k ciphertext) ;;
      decs <- decrypt_elements k (i + 1) rest ;;
      ret (dec :: decs)
  end.

Definition DecryptPHIArray (k : KMSClient) (ciphertexts : list string)
  : St World (list string) :=
  match ciphertexts with
  | [] => ret []
  | _ => decrypt_elements k 0 ciphertexts
  end.
End Encryption.

(** ** The journal-entry lambda: the work closure of the orchestrator *)

Record JournalEntryRequest := {
  req_Content : string;
  req_Mood : string;
  req_Tags : list string;
  req_IdempotencyKey : string;
}.

Record JournalEntryResponse := {
  je_ID : string;
  je_UserID : string;
  je_Content : string;
  je_Mood : string;
  je_Tags : list string;
  je_CreatedAt : Z;
  je_UpdatedAt : Z;
  je_Encrypted : bool;
}.

Section Journal.
Context `{Externals} `{Oracle}.

Definition generateID : St World string :=
  now <- time_Now ;;
  ret ("entry_" ++ sprintf_d (time.UnixNano now)).

Definition handleCostLimitExceeded (req : JournalEntryRequest) (costCheck : CostControlResult)
  : St World JournalEntryResponse :=
  id <- generateID ;;
  created <- time_Now ;;
  updated <- time_Now ;;
  ret {| je_ID := id;
         je_UserID := "user_id";
         je_Content := req_Content req;
         je_Mood := req_Mood req;
         je_Tags := req_Tags req;
         je_CreatedAt := created;
         je_UpdatedAt := updated;
         je_Encrypted := false |}.

Definition processJournalEntry (userID : string) (req : JournalEntryRequest)
    (kmsService : KMSClient) : St World JournalEntryResponse :=
  let estimatedCost :=
    EstimateLLMCost (Z.of_nat (String.length (req_Content req))) 100
                    "anthropic.claude-3-sonnet-20240229-v1:0" in
  costCheck <- wrap "failed to check cost limits: "
                 (CheckUserSpendLimit userID estimatedCost) ;;
  if negb (Allowed costCheck) then handleCostLimitExceeded req costCheck
  else
    encryptedContent <- wrap "failed to encrypt content: "
                          (EncryptPHI kmsService (req_Content req)) ;;
    encryptedMood <- wrap "failed to encrypt mood: "
                       (EncryptPHI kmsService (req_Mood req)) ;;
    encryptedTags <- wrap "failed to encrypt tags: "
                       (EncryptPHIArray kmsService (req_Tags req)) ;;
    id <- generateID ;;
    created <- time_Now ;;
    updated <- time_Now ;;
    discard (RecordLLMRequest userID estimatedCost) ;;;
    ret {| je_ID := id;
           je_UserID := userID;
           je_Content := encryptedContent;
           je_Mood := encryptedMood;
           je_Tags := encryptedTags;
           je_CreatedAt := created;
           je_UpdatedAt := updated;
           je_Encrypted := true |}.
End Journal.

(** The closure the handler of the lambda hands to the coordinator:
    [func() (interface{}, error) { return processJournalEntry(...) }].
    The entry it returns travels as a value of [interface{}]. *)
Class EntryValues `{Externals} := {
  entry_Value : JournalEntryResponse -> Value;
}.

Definition handler_closure `{EntryValues} `{Oracle} (userID : string)
    (req : JournalEntryRequest) (kmsService : KMSClient) : St World Value :=
  entry <- processJournalEntry userID req kmsService ;;
  ret (entry_Value entry).

(** ** The match-user lambda: the score of two profiles *)

(** The inner loop: the counter grows by one for every element of [ys]
    equal to [x]. *)
Fixpoint count_equal (x : string) (ys : list string) (n : Z) : Z :=
  match ys with
  | [] => n
  | y :: ys' => count_equal x ys' (if String.eqb x y then wrap_int64 (n + 1) else n)
  end.

(** The two nested loops. *)
Fixpoint count_common (xs ys : list string) (n : Z) : Z :=
  match xs with
  | [] => n
  | x :: xs' => count_common xs' ys (count_equal x ys n)
  end.

(** [len(a) + len(b)] *)
Definition total_len (a b : list string) : Z :=
  wrap_int64 (Z.of_nat (length a) + Z.of_nat (length b)).

Definition calculateMatchScore
    (user1Interests user1Preferences user2Interests user2Preferences : list string)
  : float64 :=
  let commonInterests := count_common user1Interests user2Interests 0 in
  let commonPreferences := count_common user1Preferences user2Preferences 0 in
  let totalInterests := total_len user1Interests user2Interests in
  let totalPreferences := total_len user1Preferences user2Preferences in
  if (totalInterests =? 0) && (totalPreferences =? 0) then Float64.zero
  else
    let interestScore :=
      Float64.mul (Float64.div (Float64.of_int (wrap_int64 (commonInterests * 2)))
                               (Float64.of_int totalInterests))
                  Float64.lit_50_0 in
    let preferenceScore :=
      Float64.mul (Float64.div (Float64.of_int (wrap_int64 (commonPreferences * 2)))
                               (Float64.of_int totalPreferences))
                  Float64.lit_50_0 in
    Float64.add interestScore preferenceScore.

(** [score >= 50], the threshold of the handler. *)
Definition above_threshold (score : float64) : bool := Float64.leb Float64.lit_50_0 score.

(** ** Package idempotency *)

Record IdempotencyRecord := {
  ir_Key : string;
  ir_UserID : string;
  ir_RequestHash : string;
  ir_Response : string;
  ir_Status : string;
  ir_CreatedAt : Z;
  ir_ExpiresAt : Z;
  ir_TTL : Z;
}.

(** The idempotency table, the world of the closures, and a ghost
    counter of the work closures entered so far. *)
Record State := {
  idempotency_table : gmap string IdempotencyRecord;
  world : World;
  handler_runs : nat;
}.

Definition set_table (t : gmap string IdempotencyRecord) (s : State) : State :=
  {| idempotency_table := t; world := world s; handler_runs := handler_runs s |}.

(** A computation on the world, run inside the service. *)
Definition lift {A} (m : St World A) : St State A :=
  fun s => let (r, w) := m (world s) in
           (r, {| idempotency_table := idempotency_table s; world := w;
                  handler_runs := handler_runs s |}).

(** The state after [dticks] clock readings and [dcalls] remote calls
    that changed nothing else. *)
Definition advance (dticks dcalls : nat) (s : State) : State :=
  {| idempotency_table := idempotency_table s;
     world := set_ticks (dticks + ticks (world s))
                (set_calls (dcalls + calls (world s)) (world s));
     handler_runs := handler_runs s |}.

(** [handler()]: the closure runs on the world; the ghost counter ticks. *)
Definition run_handler {A} (handler : St World A) : St State A :=
  fun s => let (r, w) := handler (world s) in
           (r, {| idempotency_table := idempotency_table s; world := w;
                  handler_runs := S (handler_runs s) |}).

(** Handling both outcomes of a call. *)
Definition try {S A B} (m : St S A) (on_ok : A -> St S B) (on_err : string -> St S B)
  : St S B :=
  fun s => match m s with
           | (Ok a, s') => on_ok a s'
           | (Err e, s') => on_err e s'
           end.

(** Go error values, by dynamic type.  The service's exception
    [*types.ConditionalCheckFailedException] never reaches the caller
    bare: the client of aws-sdk-go-v2 returns every failure of an
    operation as a [*smithy.OperationError] that wraps its cause. *)
Inductive SdkError :=
| ConditionalCheckFailedException (message : string)
| OperationError (text : string) (condition_failed : bool).

(** The type assertion of [err] to [*types.ConditionalCheckFailedException]
    in [StoreIdempotencyRecord]: a type assertion asks for the dynamic
    type of [err] itself; what the error wraps is not looked at (that
    would be [errors.As]). *)
Definition asserts_ConditionalCheckFailedException (err : SdkError) : bool :=
  match err with
  | ConditionalCheckFailedException _ => true
  | OperationError _ _ => false
  end.

(** [err.Error()], the text [%v] prints. *)
Definition err_Error (err : SdkError) : string :=
  match err with
  | ConditionalCheckFailedException message => "ConditionalCheckFailedException: " ++ message
  | OperationError text _ => text
  end.

(** The item an [UpdateItem] creates when the key is absent: only the key
    and the attributes of the update expression are set, every other field
    unmarshals to its zero value. *)
Definition upserted_item (key response status : string) : IdempotencyRecord :=
  {| ir_Key := key; ir_UserID := ""; ir_RequestHash := "";
     ir_Response := response; ir_Status := status;
     ir_CreatedAt := time.zero; ir_ExpiresAt := time.zero; ir_TTL := 0 |}.

Definition updated_item (response status : string) (r : IdempotencyRecord) : IdempotencyRecord :=
  {| ir_Key := ir_Key r; ir_UserID := ir_UserID r; ir_RequestHash := ir_RequestHash r;
     ir_Response := response; ir_Status := status;
     ir_CreatedAt := ir_CreatedAt r; ir_ExpiresAt := ir_ExpiresAt r; ir_TTL := ir_TTL r |}.

Definition with_TTL (ttl : Z) (r : IdempotencyRecord) : IdempotencyRecord :=
  {| ir_Key := ir_Key r; ir_UserID := ir_UserID r; ir_RequestHash := ir_RequestHash r;
     ir_Response := ir_Response r; ir_Status := ir_Status r;
     ir_CreatedAt := ir_CreatedAt r; ir_ExpiresAt := ir_ExpiresAt r; ir_TTL := ttl |}.

Section Idempotency.
Context `{Externals} `{Oracle}.

(** *** The DynamoDB client on the idempotency table *)

Definition client_GetItem (key : string) : St State (option IdempotencyRecord) :=
  lift remote_call ;;;
  fun s => (Ok (idempotency_table s !! key), s).

(** [PutItem] under the condition [attribute_not_exists(#key)].  Both
    kinds of failure come back as an operation error. *)
Definition client_PutItem_if_absent (item : IdempotencyRecord)
  : State -> option SdkError * State :=
  fun s => match lift remote_call s with
           | (Err e, s') => (Some (OperationError e false), s')
           | (Ok _, s') =>
               match idempotency_table s' !! ir_Key item with
               | Some _ =>
                   (Some (OperationError (condition_failure (calls (world s))) true), s')
               | None => (None, set_table (<[ir_Key item := item]> (idempotency_table s')) s')
               end
           end.

Definition client_UpdateItem (key response status : string) : St State unit :=
  lift remote_call ;;;
  fun s => (Ok tt,
            set_table
              (<[key := match idempotency_table s !! key with
                         | Some r => updated_item response status r
                         | None => upserted_item key response status
                         end]> (idempotency_table s)) s).

Definition client_DeleteItem (key : string) : St State unit :=
  lift remote_call ;;;
  fun s => (Ok tt, set_table (delete key (idempotency_table s)) s).

(** *** The service *)

Definition GenerateIdempotencyKey (userID endpoint requestBody : string) : string :=
  sha256_hex (userID ++ ":" ++ endpoint ++ ":" ++ requestBody).

Definition GenerateRequestHash (requestBody : string) : string :=
  sha256_hex requestBody.

Definition DeleteIdempotencyRecord (key : string) : St State unit :=
  wrap "failed to delete idempotency record: " (client_DeleteItem key).

Definition CheckIdempotency (key : string) : St State (option IdempotencyRecord) :=
  item <- wrap "failed to check idempotency: " (client_GetItem key) ;;
  match item with
  | None => ret None
  | Some record =>
      now <- lift time_Now ;;
      if time.After now (ir_ExpiresAt record) then
        discard (DeleteIdempotencyRecord key) ;;;
        ret None
      else ret (Some record)
  end.

Definition StoreIdempotencyRecord (record : IdempotencyRecord) : St State unit :=
  now <- lift time_Now ;;
  let record := with_TTL (time.Unix (time.Add now (24 * time.Hour))) record in
  fun s => match client_PutItem_if_absent record s with
           | (None, s') => (Ok tt, s')
           | (Some err, s') =>
               if asserts_ConditionalCheckFailedException err
               then (Err "idempotency key already exists", s')
               else (Err ("failed to store idempotency record: " ++ err_Error err), s')
           end.

Definition UpdateIdempotencyRecord (key response status : string) : St State unit :=
  lift time_Now ;;;
  wrap "failed to update idempotency record: " (client_UpdateItem key response status).

(** The tail of [ProcessIdempotentRequest] once the pending record is
    stored: run the closure and write its outcome back. *)
Definition execute_handler (key : string) (handler : St World Value) : St State Value :=
  try (run_handler handler)
    (fun response =>
       match json_Marshal response with
       | Err e =>
           discard (UpdateIdempotencyRecord key "error: failed to marshal response" "failed") ;;;
           fail ("failed to marshal response: " ++ e)
       | Ok responseJSON =>
           discard (UpdateIdempotencyRecord key responseJSON "completed") ;;;
           ret response
       end)
    (fun e =>
       discard (UpdateIdempotencyRecord key ("error: " ++ e) "failed") ;;;
       fail e).

(** The part of [ProcessIdempotentRequest] from "Create new idempotency
    record" on. *)
Definition first_attempt (key userID requestHash : string) (handler : St World Value)
  : St State Value :=
  created <- lift time_Now ;;
  expires <- lift time_Now ;;
  let record := {| ir_Key := key; ir_UserID := userID; ir_RequestHash := requestHash;
                   ir_Response := ""; ir_Status := "pending";
                   ir_CreatedAt := created;
                   ir_ExpiresAt := time.Add expires (24 * time.Hour);
                   ir_TTL := 0 |} in
  wrap "failed to store idempotency record: " (StoreIdempotencyRecord record) ;;;
  execute_handler key handler.

Definition ProcessIdempotentRequest (userID endpoint requestBody : string)
    (handler : St World Value) : St State Value :=
  let key := GenerateIdempotencyKey userID endpoint requestBody in
  let requestHash := GenerateRequestHash requestBody in
  existingRecord <- wrap "failed to check idempotency: " (CheckIdempotency key) ;;
  match existingRecord with
  | Some record =>
      if String.eqb (ir_RequestHash record) requestHash then
        if String.eqb (ir_Status record) "completed" then
          wrap "failed to unmarshal cached response: "
            (fun s => (json_Unmarshal (ir_Response record), s))
        else if String.eqb (ir_Status record) "pending" then
          fail "request is already being processed"
        else first_attempt key userID requestHash handler
      else fail "idempotency key conflict: same key used for different request"
  | None => first_attempt key userID requestHash handler
  end.
End Idempotency.

(** ** Concurrent invocations

    Lambda invocations share nothing but the tables.  One invocation of
    [ProcessIdempotentRequest] is cut at its remote calls: each step below
    performs one remote call (or the work closure) atomically, together
    with the local computation around it, and invocations interleave
    between steps.  A read sees the latest write. *)

Inductive pc `{Externals} :=
| AtCheck
| AtDelete
| AtStore
| AtWork
| AtUpdate (response status : string) (outcome : result Value)
| Finished (outcome : result Value).

(** The name of a program point, without its payload. *)
Definition pc_name `{Externals} (p : pc) : string :=
  match p with
  | AtCheck => "check"
  | AtDelete => "delete"
  | AtStore => "store"
  | AtWork => "work"
  | AtUpdate _ _ _ => "update"
  | Finished _ => "finished"
  end.

(** The error an invocation has finished with, if any. *)
Definition pc_error `{Externals} (p : pc) : option string :=
  match p with
  | Finished (Err e) => Some e
  | _ => None
  end.

Section Interleaving.
Context `{Externals} `{Oracle}.
Variables (userID endpoint requestBody : string) (handler : St World Value).

Let key := GenerateIdempotencyKey userID endpoint requestBody.
Let requestHash := GenerateRequestHash requestBody.

Definition thread_step (p : pc) (s : State) : pc * State :=
  match p with
  | AtCheck =>
      match wrap "failed to check idempotency: "
              (wrap "failed to check idempotency: " (client_GetItem key)) s with
      | (Err e, s1) => (Finished (Err e), s1)
      | (Ok None, s1) => (AtStore, s1)
      | (Ok (Some record), s1) =>
          match lift time_Now s1 with
          | (Err e, s2) => (Finished (Err e), s2)
          | (Ok now, s2) =>
              if time.After now (ir_ExpiresAt record) then (AtDelete, s2)
              else if String.eqb (ir_RequestHash record) requestHash then
                if String.eqb (ir_Status record) "completed" then
                  match json_Unmarshal (ir_Response record) with
                  | Ok v => (Finished (Ok v), s2)
                  | Err e => (Finished (Err ("failed to unmarshal cached response: " ++ e)), s2)
                  end
                else if String.eqb (ir_Status record) "pending" then
                  (Finished (Err "request is already being processed"), s2)
                else (AtStore, s2)
              else (Finished (Err "idempotency key conflict: same key used for different request"), s2)
          end
      end
  | AtDelete => (AtStore, snd (DeleteIdempotencyRecord key s))
  | AtStore =>
      match (created <- lift time_Now ;;
             expires <- lift time_Now ;;
             wrap "failed to store idempotency record: "
               (StoreIdempotencyRecord
                  {| ir_Key := key; ir_UserID := userID; ir_RequestHash := requestHash;
                     ir_Response := ""; ir_Status := "pending";
                     ir_CreatedAt := created;
                     ir_ExpiresAt := time.Add expires (24 * time.Hour);
                     ir_TTL := 0 |})) s with
      | (Err e, s1) => (Finished (Err e), s1)
      | (Ok _, s1) => (AtWork, s1)
      end
  | AtWork =>
      match run_handler handler s with
      | (Err e, s1) => (AtUpdate ("error: " ++ e) "failed" (Err e), s1)
      | (Ok response, s1) =>
          match json_Marshal response with
          | Err e => (AtUpdate "error: failed to marshal response" "failed"
                        (Err ("failed to marshal response: " ++ e)), s1)
          | Ok responseJSON => (AtUpdate responseJSON "completed" (Ok response), s1)
          end
      end
  | AtUpdate response status outcome =>
      (Finished outcome, snd (UpdateIdempotencyRecord key response status s))
  | Finished outcome => (Finished outcome, s)
  end.

(** One invocation run alone for [n] steps. *)
Fixpoint run_thread (n : nat) (p : pc) (s : State) : pc * State :=
  match n with
  | O => (p, s)
  | S n' => let (p', s') := thread_step p s in run_thread n' p' s'
  end.

(** The invocations in flight and the state they share. *)
Record System := {
  shared : State;
  threads : list pc;
}.

(** Invocation [i] takes its next step. *)
Definition system_step (sys : System) (i : nat) : System :=
  match threads sys !! i with
  | None => sys
  | Some p =>
      let (p', s') := thread_step p (shared sys) in
      {| shared := s'; threads := <[i := p']> (threads sys) |}
  end.

(** A schedule names, step after step, the invocation that moves. *)
Definition run_schedule (schedule : list nat) (sys : System) : System :=
  fold_left system_step schedule sys.

(** [n] invocations of the same request, none started yet. *)
Definition start (n : nat) (s : State) : System :=
  {| shared := s; threads := replicate n AtCheck |}.

(** The invariant of a run in which no lookup meets an expired record:
    every record under the key outlives every clock reading, nobody is
    about to delete, whoever is past the conditional insert finds the key
    in the table, at most one invocation is about to run the closure, and
    the closure has run at most once since the count [runs0]. *)
Definition safe (runs0 : nat) (sys : System) : Prop :=
  let table := idempotency_table (shared sys) in
  (forall r, table !! key = Some r -> forall j, clock j <= ir_ExpiresAt r) /\
  (forall i, threads sys !! i <> Some AtDelete) /\
  (forall i r st o, threads sys !! i = Some (AtUpdate r st o) -> is_Some (table !! key)) /\
  (forall i, threads sys !! i = Some AtWork ->
     is_Some (table !! key) /\ handler_runs (shared sys) = runs0 /\
     forall j, threads sys !! j = Some AtWork -> j = i) /\
  (table !! key = None -> handler_runs (shared sys) = runs0) /\
  (handler_runs (shared sys) <= runs0 + 1)%nat.
End Interleaving.

(** ** The journal-entry lambda: the handler *)

Record APIGatewayProxyRequest := {
  Headers : gmap string string;
  Body : string;
}.

Record APIGatewayProxyResponse := {
  StatusCode : Z;
  resp_Headers : gmap string string;
  resp_Body : string;
}.

Record ErrorResponse := {
  er_Error : string;
  er_Code : string;
  er_Details : string;
}.

(** What the handler takes from outside the repository's sources: the
    token validation of package auth (it yields the user id of the
    claims), the JSON codec at the request and the error body, the AWS
    configuration and the process environment. *)
Class Gateway `{EntryValues} := {
  auth_ValidateToken : string -> result string;
  json_Unmarshal_request : string -> result JournalEntryRequest;
  json_Marshal_error : ErrorResponse -> string;
  config_LoadDefaultConfig : result unit;
  os_Getenv : string -> string;
}.

Section Handler.
Context `{Gateway} `{Oracle}.

(** The constructors of the three services; the table names they read
    from the environment select among tables, of which the embedding has
    one each. *)
Definition NewIdempotencyService : result unit :=
  match config_LoadDefaultConfig with
  | Err e => Err ("failed to load AWS config: " ++ e)
  | Ok _ => Ok tt
  end.

Definition NewCostControlService : result unit :=
  match config_LoadDefaultConfig with
  | Err e => Err ("failed to load AWS config: " ++ e)
  | Ok _ => Ok tt
  end.

Definition NewKMSClient : result KMSClient :=
  match config_LoadDefaultConfig with
  | Err e => Err ("failed to load AWS config: " ++ e)
  | Ok _ =>
      let keyID := os_Getenv "KMS_KEY_ID" in
      if String.eqb keyID "" then Err "KMS_KEY_ID environment variable is required"
      else Ok {| keyID := keyID |}
  end.

Definition extractUserIDFromRequest (request : APIGatewayProxyRequest) : result string :=
  let authHeader := default "" (Headers request !! "Authorization") in
  if String.eqb authHeader "" then Err "missing authorization header"
  else
    let authHeader :=
      if (7 <? String.length authHeader)%nat && String.eqb (substring 0 7 authHeader) "Bearer "
      then substring 7 (String.length authHeader - 7) authHeader
      else authHeader in
    match auth_ValidateToken authHeader with
    | Err e => Err ("invalid token: " ++ e)
    | Ok userID => Ok userID
    end.

Definition createErrorResponse (statusCode : Z) (code message details : string)
  : APIGatewayProxyResponse :=
  {| StatusCode := statusCode;
     resp_Headers := <["Content-Type" := "application/json"]> ∅;
     resp_Body := json_Marshal_error
                    {| er_Error := message; er_Code := code; er_Details := details |} |}.

(** The handler always answers (its Go error is always nil). *)
Definition handler (request : APIGatewayProxyRequest)
  : State -> APIGatewayProxyResponse * State :=
  fun s =>
    match extractUserIDFromRequest request with
    | Err e =>
        (createErrorResponse 401 "UNAUTHORIZED" "Invalid or missing authentication token" e, s)
    | Ok userID =>
    match json_Unmarshal_request (Body request) with
    | Err e =>
        (createErrorResponse 400 "INVALID_REQUEST" "Invalid JSON in request body" e, s)
    | Ok req =>
    if String.eqb (req_Content req) "" then
      (createErrorResponse 400 "VALIDATION_ERROR" "Content is required" "", s)
    else
    match NewIdempotencyService with
    | Err e =>
        (createErrorResponse 500 "SERVICE_ERROR" "Failed to initialize idempotency service" e, s)
    | Ok _ =>
    match NewKMSClient with
    | Err e =>
        (createErrorResponse 500 "SERVICE_ERROR" "Failed to initialize encryption service" e, s)
    | Ok kmsService =>
    match NewCostControlService with
    | Err e =>
        (createErrorResponse 500 "SERVICE_ERROR" "Failed to initialize cost control service" e, s)
    | Ok _ =>
    match ProcessIdempotentRequest userID "POST /journal-entries" (Body request)
            (handler_closure userID req kmsService) s with
    | (Err e, s') =>
        (createErrorResponse 500 "PROCESSING_ERROR" "Failed to process journal entry" e, s')
    | (Ok response, s') =>
        match json_Marshal response with
        | Err e =>
            (createErrorResponse 500 "SERIALIZATION_ERROR" "Failed to serialize response" e, s')
        | Ok responseBody =>
            ({| StatusCode := 201;
                resp_Headers := <["Content-Type" := "application/json"]> ∅;
                resp_Body := responseBody |}, s')
        end
    end end end end end end.
End Handler.

(** ** A small concrete environment

    Used to run the embedding on concrete inputs.  The digest is replaced
    by the identity (injective, like the real one in practice), JSON
    values are their own serialisation, base64 is the identity, and the
    toy encryption service prefixes the payload with a marker byte. *)

Module Toy.
Definition toy_Decrypt (blob : string) (context : gmap string string) : result string :=
  match blob with
  | String "#"%char p => Ok p
  | _ => Err "InvalidCiphertextException"
  end.

#[export] Instance externals : Externals := {|
  Value := string;
  sha256_hex := fun b => b;
  json_Marshal := fun v => Ok v;
  json_Unmarshal := fun b => Ok b;
  base64_EncodeToString := fun b => b;
  base64_DecodeString := fun s => Ok s;
  format_date := fun t => sprintf_d (t / (24 * time.Hour));
  format_RFC3339 := sprintf_d;
  sprintf_4f := fun _ => "?";
  kms_Encrypt := fun _ p _ => Ok (String "#"%char p);
  kms_Decrypt := toy_Decrypt;
|}.

(** 2024-01-01T00:00:00Z in nanoseconds. *)
Definition t0 : Z := 1704067200 * time.Second.

(** What the SDK reports of a refused condition. *)
Definition refused : string :=
  "operation error DynamoDB: PutItem, https response error StatusCode: 400, RequestID: 4KBNVRGD25RG1KEO9UT4V3FQDJVV4KQNSO5AEMVJF66Q9ASUAAJG, ConditionalCheckFailedException: The conditional request failed".

(** A clock that stands still and a network that never fails. *)
#[export] Instance frozen : Oracle := {|
  clock := fun _ => t0;
  fault := fun _ => None;
  condition_failure := fun _ => refused;
|}.

Definition empty_world : World :=
  {| spend_table := ∅; kms_log := []; ticks := 0; calls := 0 |}.

Definition empty_state : State :=
  {| idempotency_table := ∅; world := empty_world; handler_runs := 0 |}.

Definition with_record (r : IdempotencyRecord) : State :=
  {| idempotency_table := <[ir_Key r := r]> ∅; world := empty_world; handler_runs := 0 |}.

(** A closure that succeeds with a fixed value. *)
Definition work : St World (@Value externals) := ret ("done" : string).

(** The key and the hash of the request [("alice", "POST /journal-entries", "{}")]. *)
Definition key : string := GenerateIdempotencyKey "alice" "POST /journal-entries" "{}".
Definition hash : string := GenerateRequestHash "{}".

Definition record_with (status response : string) (expires : Z) : IdempotencyRecord :=
  {| ir_Key := key; ir_UserID := "alice"; ir_RequestHash := hash;
     ir_Response := response; ir_Status := status;
     ir_CreatedAt := expires - 24 * time.Hour; ir_ExpiresAt := expires;
     ir_TTL := time.Unix expires |}.

(** A table that still holds yesterday's record of the request: it
    expired one nanosecond before [t0] and has not been swept yet. *)
Definition stale_state : State := with_record (record_with "completed" "old" (t0 - 1)).

(** Two invocations of the request, A (0) and B (1), on the stale table:
    both look the key up and find the expired record; A deletes it,
    inserts its pending record and runs the closure; then B performs its
    delete, inserts in turn and runs the closure. *)
Definition race_schedule : list nat := [0; 1; 0; 0; 0; 1; 1; 1]%nat.

(** A clock that advances by thirteen hours at every reading. *)
Definition slow : Oracle := {|
  clock := fun n => t0 + Z.of_nat n * (13 * time.Hour);
  fault := fun _ => None;
  condition_failure := fun _ => refused;
|}.

(** A (0) inserts its pending record and is about to run the closure when
    B (1) starts, more than a day later by the clock. *)
Definition overdue_schedule : list nat := [0; 0; 0; 1; 1; 1; 1]%nat.

(** Records of the request that expire an hour after [t0]. *)
Definition live_record (status response : string) : IdempotencyRecord :=
  record_with status response (t0 + time.Hour).

(** A live record under the key of the request, left by another payload. *)
Definition foreign_record : IdempotencyRecord :=
  {| ir_Key := key; ir_UserID := "alice"; ir_RequestHash := "{ }";
     ir_Response := ""; ir_Status := "pending";
     ir_CreatedAt := t0 - time.Hour; ir_ExpiresAt := t0 + 23 * time.Hour;
     ir_TTL := time.Unix (t0 + 23 * time.Hour) |}.

Definition kms : KMSClient := {| keyID := "alias/phi" |}.

Definition today : string := @format_date externals t0.

Definition spend_record (cost : float64) : UserSpendRecord :=
  {| sr_UserID := "alice"; sr_Date := today; sr_LLMRequests := 1;
     sr_LLMCost := cost; sr_DailyLimit := Float64.lit_5_0;
     sr_CreatedAt := ""; sr_UpdatedAt := ""; sr_TTL := 0 |}.

(** A world in which alice has spent [cost] today. *)
Definition world_with_cost (cost : float64) : World :=
  {| spend_table := <[("alice", today) := spend_record cost]> ∅;
     kms_log := []; ticks := 0; calls := 0 |}.

Definition request : JournalEntryRequest :=
  {| req_Content := "slept badly"; req_Mood := "low"; req_Tags := ["sleep"];
     req_IdempotencyKey := "" |}.

(** A stricter environment: the encryption service refuses the payload
    "refused", the base64 decoder rejects the text "%", and the value
    "chan" cannot be serialised. *)
Definition picky : Externals := {|
  Value := string;
  sha256_hex := fun b => b;
  json_Marshal := fun v => if String.eqb v "chan"
                           then Err "json: unsupported type: chan int" else Ok v;
  json_Unmarshal := fun b => Ok b;
  base64_EncodeToString := fun b => b;
  base64_DecodeString := fun s => if String.eqb s "%"
                                  then Err "illegal base64 data at input byte 0" else Ok s;
  format_date := fun t => sprintf_d (t / (24 * time.Hour));
  format_RFC3339 := sprintf_d;
  sprintf_4f := fun _ => "?";
  kms_Encrypt := fun _ p _ => if String.eqb p "refused"
                              then Err "AccessDeniedException" else Ok (String "#"%char p);
  kms_Decrypt := toy_Decrypt;
|}.

(** A network whose [n]-th remote call fails, and one that is down. *)
Definition flaky (n : nat) : Oracle := {|
  clock := fun _ => t0;
  fault := fun i => if Nat.eqb i n then Some "RequestTimeout" else None;
  condition_failure := fun _ => refused;
|}.

Definition offline : Oracle := {|
  clock := fun _ => t0;
  fault := fun _ => Some "RequestTimeout";
  condition_failure := fun _ => refused;
|}.

(** A closure that fails. *)
Definition broken_work : St World (@Value externals) := fail "boom".

(** A closure that leaves a trace in the world: it has a text encrypted
    and returns the ciphertext. *)
Definition encrypting_work : St World (@Value externals) :=
  @EncryptPHI externals kms "slept badly".

(** An entry as a value: its content field stands for the whole. *)
Definition entries : @EntryValues externals := {| entry_Value := je_Content |}.

(** A gateway whose tokens are "token-" followed by the user id, whose
    request bodies are the content of the entry, "{" not being JSON, and
    whose error bodies are the error code. *)
Definition gateway : @Gateway externals entries := {|
  auth_ValidateToken := fun t =>
    if String.eqb (substring 0 6 t) "token-" then Ok (substring 6 (String.length t - 6) t)
    else Err "token is malformed";
  json_Unmarshal_request := fun b =>
    if String.eqb b "{" then Err "unexpected end of JSON input"
    else Ok {| req_Content := b; req_Mood := ""; req_Tags := []; req_IdempotencyKey := "" |};
  json_Marshal_error := er_Code;
  config_LoadDefaultConfig := Ok tt;
  os_Getenv := fun _ => "alias/phi";
|}.

Definition http_request (authorization body : string) : APIGatewayProxyRequest :=
  {| Headers := <["Authorization" := authorization]> ∅; Body := body |}.

(** An environment whose codec does not round-trip: a JSON text is read
    back as a map, and a map is written with its keys in sorted order,
    which is another text than the one a struct was written to. *)
Definition rereading : Externals := {|
  Value := string;
  sha256_hex := fun b => b;
  json_Marshal := fun v => Ok v;
  json_Unmarshal := fun b => Ok ("sorted " ++ b);
  base64_EncodeToString := fun b => b;
  base64_DecodeString := fun s => Ok s;
  format_date := fun t => sprintf_d (t / (24 * time.Hour));
  format_RFC3339 := sprintf_d;
  sprintf_4f := fun _ => "?";
  kms_Encrypt := fun _ p _ => Ok (String "#"%char p);
  kms_Decrypt := toy_Decrypt;
|}.

Definition rereading_entries : @EntryValues rereading :=
  @Build_EntryValues rereading je_Content.

Definition rereading_gateway : @Gateway rereading rereading_entries := {|
  auth_ValidateToken := fun t =>
    if String.eqb (substring 0 6 t) "token-" then Ok (substring 6 (String.length t - 6) t)
    else Err "token is malformed";
  json_Unmarshal_request := fun b =>
    if String.eqb b "{" then Err "unexpected end of JSON input"
    else Ok {| req_Content := b; req_Mood := ""; req_Tags := []; req_IdempotencyKey := "" |};
  json_Marshal_error := er_Code;
  config_LoadDefaultConfig := Ok tt;
  os_Getenv := fun _ => "alias/phi";
|}.
End Toy.

(** * Properties *)

(** ** binary64 addition and order

    [SFadd] aligns the two mantissas, adds them as integers and rounds the
    sum to nearest-even at the canonical exponent.  The lemmas below
    follow the rounding far enough to show that adding a value that is not
    below zero never yields a value below the first operand. *)

(** The number of binary digits of a mantissa. *)
Lemma digits2_pos_bounds (m : positive) :
  2 ^ (Zpos (digits2_pos m) - 1) <= Zpos m < 2 ^ Zpos (digits2_pos m).
Proof.
  induction m as [p IH|p IH|]; simpl digits2_pos.
  - rewrite Pos2Z.inj_succ.
    replace (Z.succ (Zpos (digits2_pos p)) - 1) with (Z.succ (Zpos (digits2_pos p) - 1)) by lia.
    rewrite !Z.pow_succ_r by lia. lia.
  - rewrite Pos2Z.inj_succ.
    replace (Z.succ (Zpos (digits2_pos p)) - 1) with (Z.succ (Zpos (digits2_pos p) - 1)) by lia.
    rewrite !Z.pow_succ_r by lia. lia.
  - simpl. lia.
Qed.

Lemma digits2_pos_unique (m : positive) (d : Z) :
  2 ^ (d - 1) <= Zpos m < 2 ^ d -> Zpos (digits2_pos m) = d.
Proof.
  intros [Hlo Hhi]. pose proof (digits2_pos_bounds m) as [Hlo' Hhi'].
  assert (0 < d).
  { destruct (Z_lt_le_dec 0 d); [assumption|].
    assert (2 ^ d <= 2 ^ 0) by (apply Z.pow_le_mono_r; lia). simpl in *. lia. }
  destruct (Z.lt_trichotomy (Zpos (digits2_pos m)) d) as [Hlt|[Heq|Hgt]]; [|assumption|].
  - assert (2 ^ Zpos (digits2_pos m) <= 2 ^ (d - 1)) by (apply Z.pow_le_mono_r; lia). lia.
  - assert (2 ^ d <= 2 ^ (Zpos (digits2_pos m) - 1)) by (apply Z.pow_le_mono_r; lia). lia.
Qed.

Lemma Pos_iter_xO (m d : positive) :
  Zpos (Pos.iter xO m d) = Zpos m * 2 ^ Zpos d.
Proof.
  revert m. induction d using Pos.peano_ind; intros m.
  - simpl. lia.
  - rewrite Pos.iter_succ. rewrite Pos2Z.inj_xO, IHd, Pos2Z.inj_succ, Z.pow_succ_r by lia. lia.
Qed.

(** Shifting a mantissa right, bit by bit. *)
Lemma iter_pos_nat {A} (f : A -> A) (p : positive) (x : A) :
  SpecFloat.iter_pos f p x = Nat.iter (Pos.to_nat p) f x.
Proof.
  revert x. induction p as [p IH|p IH|]; intros x; simpl SpecFloat.iter_pos.
  - rewrite !IH, Pos2Nat.inj_xI, <- Nat.iter_succ_r, <- Nat.iter_add.
    f_equal. lia.
  - rewrite !IH, Pos2Nat.inj_xO, <- Nat.iter_add. f_equal. lia.
  - reflexivity.
Qed.

Lemma shr_1_m (r : shr_record) :
  0 <= shr_m r -> shr_m (shr_1 r) = shr_m r / 2.
Proof.
  destruct r as [m r s]. simpl. intros Hm.
  destruct m as [|[p|p|]|p]; simpl; try reflexivity; try lia.
  - rewrite Pos2Z.inj_xI. apply Z.div_unique with (r := 1); lia.
  - rewrite Pos2Z.inj_xO. apply Z.div_unique with (r := 0); lia.
Qed.

Lemma shr_1_exact (r : shr_record) :
  0 <= shr_m r -> shr_r r = false -> shr_s r = false -> shr_m r mod 2 = 0 ->
  shr_r (shr_1 r) = false /\ shr_s (shr_1 r) = false.
Proof.
  destruct r as [m r s]. simpl. intros Hm -> -> Hmod.
  destruct m as [|[p|p|]|p]; simpl; try (split; reflexivity); try lia.
  - rewrite Pos2Z.inj_xI in Hmod. exfalso.
    replace (2 * Z.pos p + 1) with (1 + Z.pos p * 2) in Hmod by lia.
    rewrite Z.mod_add in Hmod by lia. discriminate.
  - discriminate.
Qed.

Lemma shr_nat (M : Z) (k : nat) :
  0 <= M ->
  let r := Nat.iter k shr_1 (Build_shr_record M false false) in
  shr_m r = M / 2 ^ Z.of_nat k /\
  (M mod 2 ^ Z.of_nat k = 0 -> shr_r r = false /\ shr_s r = false).
Proof.
  intros HM. induction k as [|k IH].
  - simpl. rewrite Z.div_1_r. split; [reflexivity|]. intros _. split; reflexivity.
  - cbn zeta in IH. destruct IH as [IHm IHe].
    remember (Nat.iter k shr_1 (Build_shr_record M false false)) as rk.
    simpl Nat.iter. rewrite <- Heqrk. cbn zeta.
    assert (Hpos : 0 <= shr_m rk) by (rewrite IHm; apply Z.div_pos; lia).
    rewrite Nat2Z.inj_succ, Z.pow_succ_r by lia. split.
    + rewrite shr_1_m by assumption. rewrite IHm.
      rewrite Z.div_div by lia. f_equal. lia.
    + intros Hmod.
      assert (Hmodk : M mod 2 ^ Z.of_nat k = 0).
      { apply Z.mod_divide in Hmod; [|lia]. apply Z.mod_divide; [lia|].
        destruct Hmod as [q Hq]. exists (q * 2). lia. }
      destruct (IHe Hmodk) as [Hr Hs].
      apply shr_1_exact; try assumption.
      rewrite IHm.
      apply Z.mod_divide in Hmod; [|lia]. destruct Hmod as [q Hq].
      subst M. replace (q * (2 * 2 ^ Z.of_nat k)) with (q * 2 * 2 ^ Z.of_nat k) by lia.
      rewrite Z.div_mul by lia. apply Z.mod_mul. lia.
Qed.

Lemma shr_pos (M : Z) (p : positive) (e : Z) :
  0 <= M ->
  let '(r, e') := shr (Build_shr_record M false false) e (Zpos p) in
  e' = e + Zpos p /\
  shr_m r = M / 2 ^ Zpos p /\
  (M mod 2 ^ Zpos p = 0 -> loc_of_shr_record r = loc_Exact).
Proof.
  intros HM. simpl. rewrite iter_pos_nat.
  pose proof (shr_nat M (Pos.to_nat p) HM) as [Hm He]. cbn zeta in *.
  rewrite positive_nat_Z in *.
  split; [reflexivity|]. split; [assumption|].
  intros Hmod. destruct (He Hmod) as [Hr Hs].
  destruct (Nat.iter _ _ _) as [m r s]. simpl in *. subst. reflexivity.
Qed.

Lemma round_nearest_even_bounds (m : Z) (l : location) :
  m <= round_nearest_even m l <= m + 1.
Proof.
  destruct l as [|[]]; simpl; try lia. destruct (Z.even m); lia.
Qed.

Lemma fexp64 (e : Z) : fexp 53 1024 e = Z.max (e - 53) (-1074).
Proof. reflexivity. Qed.

Ltac std_ops :=
  change IntDef.Z.add with Z.add in *;
  change IntDef.Z.sub with Z.sub in *;
  change IntDef.Z.mul with Z.mul in *;
  change IntDef.Z.opp with Z.opp in *;
  change IntDef.Z.max with Z.max in *;
  change IntDef.Z.min with Z.min in *;
  change IntDef.Z.leb with Z.leb in *;
  change IntDef.Z.eqb with Z.eqb in *;
  change IntDef.Z.compare with Z.compare in *;
  change IntDef.Z.even with Z.even in *;
  change @PosDef.Pos.iter with @Pos.iter in *;
  change PosDef.Pos.compare_cont with Pos.compare_cont in *.

Lemma digits2_shifted (M k : positive) :
  Zpos (digits2_pos (Pos.iter xO M k)) = Zpos (digits2_pos M) + Zpos k.
Proof.
  apply digits2_pos_unique. rewrite Pos_iter_xO.
  pose proof (digits2_pos_bounds M) as [Hlo Hhi].
  replace (Zpos (digits2_pos M) + Zpos k - 1) with ((Zpos (digits2_pos M) - 1) + Zpos k) by lia.
  rewrite !Z.pow_add_r by lia.
  assert (0 < 2 ^ Zpos k) by (apply Z.pow_pos_nonneg; lia). nia.
Qed.

(** Rounding a mantissa that already fits: nothing is shifted. *)
Lemma binary_round_aux_fits (sx : bool) (m : positive) (e : Z) :
  Z.max (Zpos (digits2_pos m) + e - 53) (-1074) = e ->
  binary_round_aux 53 1024 sx (Zpos m) e loc_Exact =
    if e <=? 971 then S754_finite sx m e else S754_infinity sx.
Proof.
  intros Hcanon. unfold binary_round_aux, shr_fexp. cbn [Zdigits2].
  rewrite fexp64. std_ops. rewrite Hcanon, Z.sub_diag.
  cbn [shr shr_record_of_loc shr_m shr_r shr_s loc_of_shr_record round_nearest_even Zdigits2].
  rewrite fexp64. std_ops. rewrite Hcanon, Z.sub_diag.
  cbn [shr shr_record_of_loc shr_m]. reflexivity.
Qed.

Lemma pow2_53 : 2 ^ 53 = 9007199254740992. Proof. reflexivity. Qed.

Lemma pow2_52 : 2 ^ 52 = 4503599627370496. Proof. reflexivity. Qed.

Lemma binary_round_core (sx : bool) (M : positive) (ez : Z) :
  -1074 <= ez ->
  let d := Zpos (digits2_pos M) in
  let e1 := Z.max (d + ez - 53) (-1074) in
  exists (m1 : Z) (m2 : positive),
    (if e1 <=? ez then m1 = Zpos M * 2 ^ (ez - e1) else m1 = Zpos M / 2 ^ (e1 - ez))
    /\ m1 <= Zpos m2 <= m1 + 1
    /\ (e1 <= ez \/ Zpos M mod 2 ^ (e1 - ez) = 0 -> Zpos m2 = m1)
    /\ 0 < m1 < 2 ^ 53
    /\ (-1074 < e1 -> 2 ^ 52 <= m1)
    /\ ((Zpos m2 < 2 ^ 53 /\
         binary_round 53 1024 sx M ez =
           if e1 <=? 971 then S754_finite sx m2 e1 else S754_infinity sx)
        \/ (Zpos m2 = 2 ^ 53 /\
            binary_round 53 1024 sx M ez =
              if e1 + 1 <=? 971 then S754_finite sx 4503599627370496 (e1 + 1)
              else S754_infinity sx)).
Proof.
  intros Hez d e1.
  pose proof (digits2_pos_bounds M) as [Hlo Hhi]. fold d in Hlo, Hhi.
  assert (Hd : 0 < d) by (unfold d; lia).
  unfold binary_round, shl_align. rewrite fexp64. std_ops. fold d. fold e1.
  destruct (e1 - ez) as [|k|k] eqn:Hk.
  - (* no shift at all *)
    assert (He : e1 = ez) by lia.
    exists (Zpos M), M.
    assert (Hfit : d <= 53) by (unfold e1 in He; lia).
    assert (HM : Zpos M < 2 ^ 53).
    { eapply Z.lt_le_trans; [exact Hhi|]. apply Z.pow_le_mono_r; lia. }
    rewrite He, Z.leb_refl, Z.sub_diag. simpl (2 ^ 0). rewrite Z.mul_1_r.
    repeat split; try lia.
    + intros Hsub. unfold e1 in He.
      assert (d = 53) by lia.
      replace (d - 1) with 52 in Hlo by lia. exact Hlo.
    + left. split; [exact HM|].
      apply binary_round_aux_fits. fold d. unfold e1 in He. lia.
  - (* the mantissa is shifted right, with rounding *)
    assert (He : e1 = ez + Zpos k) by lia.
    assert (Hnorm : e1 = d + ez - 53) by (unfold e1 in *; lia).
    assert (Hdk : d = 53 + Zpos k) by lia.
    unfold binary_round_aux, shr_fexp. cbn [Zdigits2]. rewrite fexp64. std_ops. fold d. fold e1.
    rewrite Hk. simpl shr_record_of_loc.
    pose proof (shr_pos (Zpos M) k ez ltac:(lia)) as Hshr.
    destruct (shr {| shr_m := Z.pos M; shr_r := false; shr_s := false |} ez (Z.pos k))
      as [r e'] eqn:Hr.
    destruct Hshr as (He' & Hm & Hexact).
    assert (Hm1 : 2 ^ 52 <= shr_m r < 2 ^ 53).
    { rewrite Hm. split.
      - apply Z.div_le_lower_bound; [apply Z.pow_pos_nonneg; lia|].
        rewrite <- Z.pow_add_r by lia. replace (Zpos k + 52) with (d - 1) by lia. exact Hlo.
      - apply Z.div_lt_upper_bound; [apply Z.pow_pos_nonneg; lia|].
        rewrite <- Z.pow_add_r by lia. replace (Zpos k + 53) with d by lia. exact Hhi. }
    pose proof (round_nearest_even_bounds (shr_m r) (loc_of_shr_record r)) as Hrne.
    destruct (round_nearest_even (shr_m r) (loc_of_shr_record r)) as [|m2|m2] eqn:Hm2; try lia.
    exists (shr_m r), m2.
    assert (Hleb : (e1 <=? ez) = false) by (apply Z.leb_gt; lia).
    rewrite Hleb.
    replace (e1 - ez) with (Zpos k) by lia.
    split; [exact Hm|]. split; [lia|]. split.
    { intros [Hle|Hmod]; [lia|]. rewrite (Hexact Hmod) in Hm2. simpl in Hm2. congruence. }
    split; [lia|]. split; [lia|].
    subst e'. rewrite <- He.
    destruct (Z_lt_le_dec (Zpos m2) (2 ^ 53)) as [Hlt|Hge].
    + left. split; [exact Hlt|].
      assert (Hdig : Zpos (digits2_pos m2) = 53).
      { apply digits2_pos_unique. simpl (53 - 1). lia. }
      cbn [Zdigits2]. rewrite fexp64. std_ops. rewrite Hdig.
      replace (Z.max (53 + e1 - 53) (-1074) - e1) with 0 by lia.
      reflexivity.
    + right. assert (Heq : Zpos m2 = 2 ^ 53) by lia. split; [exact Heq|].
      rewrite pow2_53 in Heq. injection Heq as ->.
      cbn [Zdigits2]. rewrite fexp64. std_ops.
      assert (Hdig : Zpos (digits2_pos 9007199254740992) = 54) by (vm_compute; reflexivity).
      rewrite Hdig.
      replace (Z.max (54 + e1 - 53) (-1074) - e1) with 1 by lia.
      reflexivity.
  - (* the mantissa is shifted left: the result is exact *)
    assert (He : ez = e1 + Zpos k) by lia.
    exists (Zpos (Pos.iter xO M k)), (Pos.iter xO M k).
    assert (Hleb : (e1 <=? ez) = true) by (apply Z.leb_le; lia).
    rewrite Hleb. replace (ez - e1) with (Zpos k) by lia.
    pose proof (digits2_shifted M k) as Hdig. fold d in Hdig.
    pose proof (digits2_pos_bounds (Pos.iter xO M k)) as [Hlo' Hhi'].
    rewrite Hdig in Hlo', Hhi'.
    assert (Hfit : d + Zpos k <= 53) by (unfold e1 in He; lia).
    assert (HM : Zpos (Pos.iter xO M k) < 2 ^ 53).
    { eapply Z.lt_le_trans; [exact Hhi'|]. apply Z.pow_le_mono_r; lia. }
    split; [apply Pos_iter_xO|]. split; [lia|]. split; [reflexivity|].
    split; [lia|]. split.
    + intros Hsub. unfold e1 in He, Hsub.
      assert (d + Zpos k = 53) by lia.
      replace (d + Zpos k - 1) with 52 in Hlo' by lia. exact Hlo'.
    + left. split; [exact HM|].
      apply binary_round_aux_fits. rewrite Hdig. unfold e1 in *. lia.
Qed.

Lemma pow2_lt_inv (a b : Z) : 0 <= b -> 2 ^ a < 2 ^ b -> a < b.
Proof. intros Hb H. apply (Z.pow_lt_mono_r_iff 2); lia. Qed.

(** A sum at least as large as a canonical float rounds to a float at
    least as large. *)
Lemma binary_round_above (sx : bool) (M mc : positive) (ez ec : Z) :
  Z.max (Zpos (digits2_pos mc) + ec - 53) (-1074) = ec ->
  -1074 <= ez <= ec ->
  Zpos mc * 2 ^ (ec - ez) <= Zpos M ->
  binary_round 53 1024 sx M ez = S754_infinity sx \/
  exists mr er, binary_round 53 1024 sx M ez = S754_finite sx mr er /\
                (ec < er \/ (er = ec /\ Zpos mc <= Zpos mr)).
Proof.
  intros Hcanon Hez Hle.
  destruct (binary_round_core sx M ez ltac:(lia)) as (m1 & m2 & Hm1 & Hm2 & _ & Hpos & _ & Hres).
  pose proof (digits2_pos_bounds M) as [HloM HhiM].
  pose proof (digits2_pos_bounds mc) as [Hloc Hhic].
  set (d := Zpos (digits2_pos M)) in *. set (dc := Zpos (digits2_pos mc)) in *.
  set (e1 := Z.max (d + ez - 53) (-1074)) in *.
  assert (Hk : 0 < 2 ^ (ec - ez)) by (apply Z.pow_pos_nonneg; lia).
  assert (Hdig : dc + ec <= d + ez).
  { assert (2 ^ (dc - 1 + (ec - ez)) < 2 ^ d).
    { rewrite Z.pow_add_r by lia. nia. }
    apply pow2_lt_inv in H; lia. }
  assert (He : ec <= e1) by (unfold e1; lia).
  assert (Hmant : e1 = ec -> Zpos mc <= m1).
  { intros Heq. destruct (e1 <=? ez) eqn:Hcmp.
    - apply Z.leb_le in Hcmp. assert (ec = ez) by lia. subst m1.
      replace (ec - ez) with 0 in Hle by lia. replace (ez - e1) with 0 by lia.
      simpl in *. lia.
    - subst m1. rewrite Heq. apply Z.div_le_lower_bound; lia. }
  destruct Hres as [[Hlt ->]|[Heq ->]].
  - destruct (e1 <=? 971); [|left; reflexivity].
    right. exists m2, e1. split; [reflexivity|].
    destruct (Z.eq_dec e1 ec) as [Heq|Hne]; [right|left; lia].
    split; [exact Heq|]. specialize (Hmant Heq). lia.
  - destruct (e1 + 1 <=? 971); [|left; reflexivity].
    right. eexists _, _. split; [reflexivity|]. left. lia.
Qed.

(** A sum at most as large as a canonical float rounds to a float at most
    as large. *)
Lemma binary_round_below (sx : bool) (M mc : positive) (ez ec : Z) :
  Z.max (Zpos (digits2_pos mc) + ec - 53) (-1074) = ec ->
  ec <= 971 ->
  -1074 <= ez <= ec ->
  Zpos M <= Zpos mc * 2 ^ (ec - ez) ->
  exists mr er, binary_round 53 1024 sx M ez = S754_finite sx mr er /\
                (er < ec \/ (er = ec /\ Zpos mr <= Zpos mc)).
Proof.
  intros Hcanon Hmax Hez Hle.
  destruct (binary_round_core sx M ez ltac:(lia))
    as (m1 & m2 & Hm1 & Hm2 & Hexact & Hpos & _ & Hres).
  pose proof (digits2_pos_bounds M) as [HloM HhiM].
  pose proof (digits2_pos_bounds mc) as [Hloc Hhic].
  set (d := Zpos (digits2_pos M)) in *. set (dc := Zpos (digits2_pos mc)) in *.
  set (e1 := Z.max (d + ez - 53) (-1074)) in *.
  assert (Hk : 0 < 2 ^ (ec - ez)) by (apply Z.pow_pos_nonneg; lia).
  assert (Hdig : d + ez <= dc + ec).
  { assert (2 ^ (d - 1) < 2 ^ (dc + (ec - ez))).
    { rewrite (Z.pow_add_r 2 dc) by lia. nia. }
    apply pow2_lt_inv in H; lia. }
  assert (He : e1 <= ec) by (unfold e1; lia).
  assert (Hdc : dc <= 53) by lia.
  assert (Hmc : Zpos mc < 2 ^ 53).
  { eapply Z.lt_le_trans; [exact Hhic|]. apply Z.pow_le_mono_r; lia. }
  assert (Hmant : e1 = ec -> Zpos m2 <= Zpos mc).
  { intros Heq. destruct (e1 <=? ez) eqn:Hcmp.
    - apply Z.leb_le in Hcmp. assert (ec = ez) by lia. subst m1.
      replace (ec - ez) with 0 in Hle by lia. replace (ez - e1) with 0 in * by lia.
      simpl in *. rewrite Hexact by lia. lia.
    - apply Z.leb_gt in Hcmp. rewrite Heq in *.
      assert (Hdiv : m1 <= Zpos mc).
      { subst m1. apply Z.div_le_upper_bound; lia. }
      destruct (Z.eq_dec m1 (Zpos mc)) as [Hsame|Hless]; [|lia].
      rewrite Hexact; [lia|]. right.
      pose proof (Z.div_mod (Zpos M) (2 ^ (ec - ez)) ltac:(lia)) as Hdm.
      pose proof (Z.mod_pos_bound (Zpos M) (2 ^ (ec - ez)) Hk) as Hmod.
      rewrite <- Hm1, Hsame in Hdm. lia. }
  destruct Hres as [[Hlt ->]|[Heq ->]].
  - assert (Hfin : (e1 <=? 971) = true) by (apply Z.leb_le; lia). rewrite Hfin.
    exists m2, e1. split; [reflexivity|].
    destruct (Z.eq_dec e1 ec) as [Heq|Hne]; [right|left; lia].
    split; [exact Heq|]. now apply Hmant.
  - assert (Hlt : e1 < ec).
    { destruct (Z.eq_dec e1 ec) as [Hsame|Hne]; [|lia]. specialize (Hmant Hsame). lia. }
    assert (Hfin : (e1 + 1 <=? 971) = true) by (apply Z.leb_le; lia). rewrite Hfin.
    eexists _, _. split; [reflexivity|].
    destruct (Z.eq_dec (e1 + 1) ec) as [Hsame|Hne]; [right|left; lia].
    split; [exact Hsame|].
    assert (dc = 53) by lia.
    replace (dc - 1) with 52 in Hloc by lia. rewrite pow2_52 in Hloc. exact Hloc.
Qed.

Lemma valid_finite (s : bool) (m : positive) (e : Z) :
  valid_binary 53 1024 (S754_finite s m e) = true ->
  Z.max (Zpos (digits2_pos m) + e - 53) (-1074) = e /\ e <= 971.
Proof.
  unfold valid_binary, bounded, canonical_mantissa. rewrite fexp64. std_ops.
  intros Hv. apply andb_prop in Hv as [Hc Hb].
  apply Z.eqb_eq in Hc. apply Z.leb_le in Hb. simpl in Hb. split; assumption.
Qed.

Lemma shl_align_value (m : positive) (e ez : Z) :
  ez <= e -> Zpos (fst (shl_align m e ez)) = Zpos m * 2 ^ (e - ez).
Proof.
  intros Hle. unfold shl_align. std_ops.
  destruct (ez - e) as [|d|d] eqn:Hd; simpl fst.
  - replace (e - ez) with 0 by lia. simpl. lia.
  - lia.
  - replace (e - ez) with (Zpos d) by lia. apply Pos_iter_xO.
Qed.

Lemma SFcompare_refl_not_Lt (c : spec_float) : SFltb c c = false.
Proof.
  unfold SFltb. destruct c as [s|s| |s m e]; simpl; try reflexivity.
  - destruct s; reflexivity.
  - std_ops. rewrite Z.compare_refl.
    change (Pos.compare_cont Eq m m) with (Pos.compare m m).
    rewrite Pos.compare_refl. destruct s; reflexivity.
Qed.

Lemma finite_pos_not_below (mr mc : positive) (er ec : Z) :
  ec < er \/ (er = ec /\ Zpos mc <= Zpos mr) ->
  SFltb (S754_finite false mr er) (S754_finite false mc ec) = false.
Proof.
  intros H. unfold SFltb. simpl. std_ops.
  destruct H as [Hlt|[-> Hle]].
  - apply Z.compare_gt_iff in Hlt. rewrite Hlt. reflexivity.
  - rewrite Z.compare_refl. change (Pos.compare_cont Eq mr mc) with (Pos.compare mr mc).
    destruct (Pos.compare_spec mr mc); try reflexivity. lia.
Qed.

Lemma finite_neg_not_below (mr mc : positive) (er ec : Z) :
  er < ec \/ (er = ec /\ Zpos mr <= Zpos mc) ->
  SFltb (S754_finite true mr er) (S754_finite true mc ec) = false.
Proof.
  intros H. unfold SFltb. simpl. std_ops.
  destruct H as [Hlt|[-> Hle]].
  - apply Z.compare_lt_iff in Hlt. rewrite Hlt. reflexivity.
  - rewrite Z.compare_refl. change (Pos.compare_cont Eq mr mc) with (Pos.compare mr mc).
    destruct (Pos.compare_spec mr mc); try reflexivity. lia.
Qed.

(** Adding a float that is not below zero never gives a float below the
    first operand. *)
Lemma SFadd_nonneg_not_below (c x : spec_float) :
  valid_binary 53 1024 c = true ->
  valid_binary 53 1024 x = true ->
  SFltb x (S754_zero false) = false ->
  SFltb (SFadd 53 1024 c x) c = false.
Proof.
  intros Hvc Hvx Hx.
  assert (Hsimple : forall sx,
            x = S754_zero sx \/ x = S754_infinity false \/ x = S754_nan \/
            (exists mx ex, x = S754_finite false mx ex /\ forall sc mc ec, c <> S754_finite sc mc ec) ->
            SFltb (SFadd 53 1024 c x) c = false).
  { intros sx [->|[->|[->|(mx & ex & -> & Hc)]]].
    - destruct c as [sc|sc| |sc mc ec]; try reflexivity;
        try (destruct sc; reflexivity); try (destruct sc, sx; reflexivity).
      apply SFcompare_refl_not_Lt.
    - destruct c as [sc|sc| |sc mc ec]; try reflexivity; destruct sc; reflexivity.
    - destruct c; reflexivity.
    - destruct c as [sc|sc| |sc mc ec]; try reflexivity; try (destruct sc; reflexivity).
      exfalso. now apply (Hc sc mc ec). }
  destruct x as [sx|sx| |sx mx ex].
  - apply (Hsimple sx). auto.
  - destruct sx; [discriminate|]. apply (Hsimple false). auto.
  - apply (Hsimple false). auto.
  - destruct sx; [discriminate|].
    destruct c as [sc|sc| |sc mc ec];
      try (apply (Hsimple false); right; right; right; exists mx, ex;
           split; [reflexivity|discriminate]).
    clear Hsimple.
    { apply valid_finite in Hvc as [Hcc Hcmax]. apply valid_finite in Hvx as [Hcx Hxmax].
      unfold SFadd. std_ops.
      set (ez := Z.min ec ex).
      assert (Hez : -1074 <= ez <= ec) by (unfold ez; lia).
      assert (Hezx : ez <= ex) by (unfold ez; lia).
      pose proof (shl_align_value mc ec ez ltac:(lia)) as HA.
      pose proof (shl_align_value mx ex ez Hezx) as HB.
      assert (HkA : 0 < 2 ^ (ec - ez)) by (apply Z.pow_pos_nonneg; lia).
      assert (HkB : 0 < 2 ^ (ex - ez)) by (apply Z.pow_pos_nonneg; lia).
      destruct sc; unfold cond_Zopp.
      * (* c negative *)
        destruct (- Zpos (fst (shl_align mc ec ez)) + Zpos (fst (shl_align mx ex ez)))
          as [|M|M] eqn:Hsum; unfold binary_normalize.
        -- reflexivity.
        -- destruct (binary_round_core false M ez ltac:(lia))
             as (m1 & m2 & _ & _ & _ & _ & _ & [[_ ->]|[_ ->]]).
           ++ destruct (_ <=? 971); reflexivity.
           ++ destruct (_ <=? 971); reflexivity.
        -- destruct (binary_round_below true M mc ez ec Hcc Hcmax Hez ltac:(lia))
             as (mr & er & -> & Hord).
           now apply finite_neg_not_below.
      * (* c positive *)
        destruct (Zpos (fst (shl_align mc ec ez)) + Zpos (fst (shl_align mx ex ez)))
          as [|M|M] eqn:Hsum; unfold binary_normalize; try lia.
        destruct (binary_round_above false M mc ez ec Hcc Hez ltac:(lia))
          as [->|(mr & er & -> & Hord)]; [reflexivity|].
        now apply finite_pos_not_below. }
Qed.

(** Rounding an integer sum gives a valid float. *)
Lemma binary_round_valid (sx : bool) (M : positive) (ez : Z) :
  -1074 <= ez -> valid_binary 53 1024 (binary_round 53 1024 sx M ez) = true.
Proof.
  intros Hez.
  destruct (binary_round_core sx M ez Hez)
    as (m1 & m2 & _ & Hm2 & _ & Hm1 & Hnormal & Hres).
  set (e1 := Z.max (Zpos (digits2_pos M) + ez - 53) (-1074)) in *.
  pose proof (digits2_pos_bounds m2) as [Hlo Hhi].
  destruct Hres as [[Hlt ->]|[Heq ->]].
  - destruct (e1 <=? 971) eqn:Hmax; [|reflexivity].
    unfold valid_binary, bounded, canonical_mantissa. rewrite fexp64. std_ops.
    apply andb_true_intro. split; [|exact Hmax].
    apply Z.eqb_eq.
    assert (Hd : Zpos (digits2_pos m2) <= 53).
    { destruct (Z_le_gt_dec (Zpos (digits2_pos m2)) 53) as [Hle|Hgt]; [exact Hle|].
      assert (2 ^ 53 <= 2 ^ (Zpos (digits2_pos m2) - 1)) by (apply Z.pow_le_mono_r; lia). lia. }
    destruct (Z_le_gt_dec e1 (-1074)) as [Hsub|Hnorm]; [unfold e1 in *; lia|].
    specialize (Hnormal ltac:(lia)).
    assert (Zpos (digits2_pos m2) = 53).
    { apply digits2_pos_unique. simpl (53 - 1). lia. }
    lia.
  - destruct (e1 + 1 <=? 971) eqn:Hmax; [|reflexivity].
    unfold valid_binary, bounded, canonical_mantissa. rewrite fexp64. std_ops.
    apply andb_true_intro. split; [|exact Hmax].
    apply Z.eqb_eq.
    assert (Hdig : Zpos (digits2_pos 4503599627370496) = 53) by (vm_compute; reflexivity).
    rewrite Hdig. unfold e1. lia.
Qed.

Lemma SFadd_valid (c x : spec_float) :
  valid_binary 53 1024 c = true -> valid_binary 53 1024 x = true ->
  valid_binary 53 1024 (SFadd 53 1024 c x) = true.
Proof.
  intros Hvc Hvx.
  destruct c as [sc|sc| |sc mc ec], x as [sx|sx| |sx mx ex];
    try reflexivity; try exact Hvc; try exact Hvx;
    try (destruct sc, sx; reflexivity).
  apply valid_finite in Hvc as [Hcc Hcmax]. apply valid_finite in Hvx as [Hcx Hxmax].
  unfold SFadd. std_ops.
  assert (Hez : -1074 <= Z.min ec ex) by lia.
  destruct (cond_Zopp sc _ + cond_Zopp sx _) as [|M|M]; unfold binary_normalize.
  - reflexivity.
  - now apply binary_round_valid.
  - now apply binary_round_valid.
Qed.

Lemma compare_cont_Eq_antisym (p q : positive) :
  Pos.compare_cont Eq q p = CompOpp (Pos.compare_cont Eq p q).
Proof. apply (Pos.compare_antisym p q). Qed.

(** Swapping the operands of a comparison of two floats mirrors it. *)
Lemma SFcompare_antisym (x y : spec_float) :
  SFcompare y x = option_map CompOpp (SFcompare x y).
Proof.
  destruct x as [sx|sx| |sx mx ex], y as [sy|sy| |sy my ey]; simpl; try reflexivity;
    try (destruct sx; reflexivity); try (destruct sy; reflexivity);
    try (destruct sx, sy; reflexivity).
  destruct sx, sy; simpl; try reflexivity;
    rewrite (Z.compare_antisym ex ey), (compare_cont_Eq_antisym mx my);
    destruct (ex ?= ey); simpl; try reflexivity;
    destruct (Pos.compare_cont Eq mx my); reflexivity.
Qed.

Lemma leb_not_gtb (x y : float64) :
  Float64.leb x y = true -> Float64.gtb x y = false.
Proof.
  unfold Float64.leb, Float64.gtb, SFleb, SFltb.
  rewrite (SFcompare_antisym x y).
  destruct (SFcompare x y) as [[]|]; simpl; congruence.
Qed.

(** The literals are the binary64 values of the decimals they stand for. *)
Lemma literals_are_exact :
  Float64.lit_5_0 = Float64.of_int 5
  /\ Float64.lit_1000_0 = Float64.of_int 1000
  /\ Float64.lit_0_003 = Float64.div (Float64.of_int 3) (Float64.of_int 1000)
  /\ Float64.lit_0_015 = Float64.div (Float64.of_int 15) (Float64.of_int 1000)
  /\ Float64.lit_0_00025 = Float64.div (Float64.of_int 25) (Float64.of_int 100000)
  /\ Float64.lit_0_00125 = Float64.div (Float64.of_int 125) (Float64.of_int 100000)
  /\ Float64.lit_0_075 = Float64.div (Float64.of_int 75) (Float64.of_int 1000).
Proof. vm_compute. repeat split; reflexivity. Qed.

(** ** The spend ledger *)

Section LedgerProperties.
Context `{Externals} `{Oracle}.

Ltac unfold_ledger :=
  unfold CheckUserSpendLimit, RecordLLMRequest, fresh_spend_record, getUserSpendRecord,
    saveUserSpendRecord, getDefaultDailyLimit, remote_call, time_Now, discard, wrap, bind, ret, fail.

(** The admission check writes nothing. *)
Lemma CheckUserSpendLimit_reads_only userID estimatedCost w :
  spend_table (snd (CheckUserSpendLimit userID estimatedCost w)) = spend_table w
  /\ kms_log (snd (CheckUserSpendLimit userID estimatedCost w)) = kms_log w.
Proof.
  unfold_ledger. simpl.
  destruct (fault (calls w)); simpl; [split; reflexivity|].
  destruct (spend_table w !! _) as [r|]; simpl;
    destruct (Float64.gtb _ _); split; reflexivity.
Qed.

(** C6: when the read of today's record succeeds, the check answers
    [Allowed = true] if current cost plus estimated cost is at most the
    daily limit, and [Allowed = false] with [Remaining] the limit minus
    the current cost if the sum exceeds the limit (sum, difference and
    comparisons being those of binary64); without a record for today the
    current cost is 0 and the limit the default 5.0. *)
Theorem CheckUserSpendLimit_admission userID estimatedCost w :
  fault (calls w) = None ->
  let found := spend_table w !! (userID, format_date (clock (ticks w))) in
  let currentCost := match found with Some r => sr_LLMCost r | None => Float64.zero end in
  let dailyLimit := match found with Some r => sr_DailyLimit r | None => Float64.lit_5_0 end in
  exists res w',
    CheckUserSpendLimit userID estimatedCost w = (Ok res, w')
    /\ CurrentCost res = currentCost
    /\ DailyLimit res = dailyLimit
    /\ (Float64.leb (Float64.add currentCost estimatedCost) dailyLimit = true ->
        Allowed res = true)
    /\ (Float64.gtb (Float64.add currentCost estimatedCost) dailyLimit = true ->
        Allowed res = false /\ Remaining res = Float64.sub dailyLimit currentCost).
Proof.
  intros Hnet found currentCost dailyLimit.
  unfold_ledger. simpl. rewrite Hnet. simpl. fold found.
  assert (Hdecide : forall c l,
            Float64.leb (Float64.add c estimatedCost) l = true ->
            Float64.gtb (Float64.add c estimatedCost) l = true -> False).
  { intros c l Hle Hgt. apply leb_not_gtb in Hle. congruence. }
  destruct found as [r|]; simpl in *.
  - destruct (Float64.gtb (Float64.add (sr_LLMCost r) estimatedCost) (sr_DailyLimit r)) eqn:Hgt;
      eexists _, _; (split; [reflexivity|]); simpl;
      (split; [reflexivity|]); (split; [reflexivity|]); split.
    + intros Hle. exfalso. eapply Hdecide; eauto.
    + auto.
    + reflexivity.
    + intros Hgt'. unfold currentCost, dailyLimit in Hgt'. congruence.
  - destruct (Float64.gtb (Float64.add Float64.zero estimatedCost) Float64.lit_5_0) eqn:Hgt;
      eexists _, _; (split; [reflexivity|]); simpl;
      (split; [reflexivity|]); (split; [reflexivity|]); split.
    + intros Hle. exfalso. eapply Hdecide; eauto.
    + auto.
    + reflexivity.
    + intros Hgt'. unfold currentCost, dailyLimit in Hgt'. congruence.
Qed.

Lemma add_nonneg_not_below (c x : float64) :
  Float64.valid c = true -> Float64.valid x = true ->
  Float64.ltb x Float64.zero = false ->
  Float64.ltb (Float64.add c x) c = false.
Proof. apply SFadd_nonneg_not_below. Qed.

(** Recording a cost keeps the table well kept. *)
Lemma RecordLLMRequest_well_kept userID cost w :
  Float64.valid cost = true ->
  well_kept (spend_table w) ->
  well_kept (spend_table (snd (RecordLLMRequest userID cost w))).
Proof.
  intros Hvalid Hwf. unfold_ledger. simpl.
  destruct (fault (calls w)); simpl; [exact Hwf|].
  destruct (spend_table w !! (userID, format_date (clock (ticks w)))) as [r0|] eqn:Hfound; simpl.
  - destruct (fault (S (calls w))); simpl; [exact Hwf|].
    destruct (Hwf _ _ Hfound) as [Hkey Hv0].
    intros k r. destruct (decide (k = (sr_UserID r0, sr_Date r0))) as [->|Hne].
    + rewrite lookup_insert_eq. intros [= <-]. simpl. split; [reflexivity|].
      now apply SFadd_valid.
    + rewrite lookup_insert_ne by congruence. apply Hwf.
  - destruct (fault (S (calls w))); simpl; [exact Hwf|].
    intros k r. destruct (decide (k = (userID, format_date (clock (ticks w))))) as [->|Hne].
    + rewrite lookup_insert_eq. intros [= <-]. simpl. split; [reflexivity|].
      now apply SFadd_valid.
    + rewrite lookup_insert_ne by congruence. apply Hwf.
Qed.

(** C8 (amended): the admission check never changes the spend table, and
    [RecordLLMRequest] with a cost that is not below zero never leaves
    under any key an accumulated cost below the one the table held there
    before (0.0 where it held none), on a well-kept table and for a cost
    that is a binary64 value. *)
Theorem accumulated_cost_never_drops userID cost w :
  Float64.valid cost = true ->
  Float64.ltb cost Float64.zero = false ->
  well_kept (spend_table w) ->
  (forall estimatedCost,
     spend_table (snd (CheckUserSpendLimit userID estimatedCost w)) = spend_table w)
  /\ (forall k r',
        spend_table (snd (RecordLLMRequest userID cost w)) !! k = Some r' ->
        Float64.ltb (sr_LLMCost r')
          (match spend_table w !! k with
           | Some r => sr_LLMCost r
           | None => Float64.zero
           end) = false).
Proof.
  intros Hvalid Hnonneg Hwf. split.
  { intros estimatedCost. apply CheckUserSpendLimit_reads_only. }
  intros k r'.
  assert (Hsame : spend_table w !! k = Some r' ->
                  Float64.ltb (sr_LLMCost r')
                    (match spend_table w !! k with
                     | Some r => sr_LLMCost r
                     | None => Float64.zero
                     end) = false).
  { intros ->. apply SFcompare_refl_not_Lt. }
  unfold_ledger. simpl.
  destruct (fault (calls w)); simpl; [exact Hsame|].
  destruct (spend_table w !! (userID, format_date (clock (ticks w)))) as [r0|] eqn:Hfound; simpl.
  - destruct (fault (S (calls w))); simpl; [exact Hsame|].
    destruct (Hwf _ _ Hfound) as [Hkey Hv0]. rewrite <- Hkey.
    destruct (decide (k = (userID, format_date (clock (ticks w))))) as [->|Hne].
    + rewrite lookup_insert_eq, Hfound. intros [= <-]. simpl.
      now apply add_nonneg_not_below.
    + rewrite lookup_insert_ne by congruence. exact Hsame.
  - destruct (fault (S (calls w))); simpl; [exact Hsame|].
    destruct (decide (k = (userID, format_date (clock (ticks w))))) as [->|Hne].
    + rewrite lookup_insert_eq, Hfound. intros [= <-]. simpl.
      now apply add_nonneg_not_below.
    + rewrite lookup_insert_ne by congruence. exact Hsame.
Qed.

End LedgerProperties.

Lemma CheckUserSpendLimit_admission_witness :
  exists res w',
    @CheckUserSpendLimit Toy.externals Toy.frozen "alice" (Float64.of_int 6) Toy.empty_world
      = (Ok res, w')
    /\ CurrentCost res = Float64.zero
    /\ DailyLimit res = Float64.lit_5_0
    /\ (Float64.leb (Float64.add Float64.zero (Float64.of_int 6)) Float64.lit_5_0 = true ->
        Allowed res = true)
    /\ (Float64.gtb (Float64.add Float64.zero (Float64.of_int 6)) Float64.lit_5_0 = true ->
        Allowed res = false /\ Remaining res = Float64.sub Float64.lit_5_0 Float64.zero).
Proof.
  apply (@CheckUserSpendLimit_admission Toy.externals Toy.frozen
           "alice" (Float64.of_int 6) Toy.empty_world).
  reflexivity.
Defined.

(** The sum the check compares is the rounded one: at the limit, a cost
    of 2^-60 is above zero, yet adding it to 5.0 gives 5.0 and the request
    is admitted. *)
Lemma sum_is_rounded_before_the_comparison :
  Float64.ltb Float64.zero (S754_finite false 4503599627370496 (-112)) = true
  /\ Float64.add Float64.lit_5_0 (S754_finite false 4503599627370496 (-112)) = Float64.lit_5_0
  /\ exists res w',
       @CheckUserSpendLimit Toy.externals Toy.frozen "alice"
         (S754_finite false 4503599627370496 (-112))
         (Toy.world_with_cost Float64.lit_5_0) = (Ok res, w')
       /\ Allowed res = true.
Proof.
  split; [vm_compute; reflexivity|]. split; [vm_compute; reflexivity|].
  eexists _, _. split; [vm_compute; reflexivity|]. reflexivity.
Qed.

Lemma accumulated_cost_never_drops_witness :
  (forall estimatedCost,
     spend_table (snd (@CheckUserSpendLimit Toy.externals Toy.frozen "alice" estimatedCost
                         (Toy.world_with_cost (Float64.of_int 2))))
     = spend_table (Toy.world_with_cost (Float64.of_int 2)))
  /\ (forall k r',
        spend_table (snd (@RecordLLMRequest Toy.externals Toy.frozen "alice" (Float64.of_int 1)
                            (Toy.world_with_cost (Float64.of_int 2)))) !! k = Some r' ->
        Float64.ltb (sr_LLMCost r')
          (match spend_table (Toy.world_with_cost (Float64.of_int 2)) !! k with
           | Some r => sr_LLMCost r
           | None => Float64.zero
           end) = false).
Proof.
  apply (@accumulated_cost_never_drops Toy.externals Toy.frozen "alice" (Float64.of_int 1)
           (Toy.world_with_cost (Float64.of_int 2))).
  - vm_compute. reflexivity.
  - vm_compute. reflexivity.
  - intros k r. unfold Toy.world_with_cost. simpl.
    destruct (decide (k = ("alice", Toy.today))) as [->|Hne].
    + rewrite lookup_insert_eq. intros [= <-]. split; vm_compute; reflexivity.
    + rewrite lookup_insert_ne by congruence. rewrite lookup_empty. discriminate.
Defined.

(** C8 as stated fails: the operation accepts a negative cost, and the
    stored accumulated cost drops from 2.0 to 1.0. *)
Lemma negative_cost_lowers_the_accumulated_cost :
  (sr_LLMCost <$> spend_table (Toy.world_with_cost (Float64.of_int 2)) !! ("alice", Toy.today))
    = Some (Float64.of_int 2)
  /\ (sr_LLMCost <$>
        spend_table (snd (@RecordLLMRequest Toy.externals Toy.frozen "alice" (Float64.of_int (-1))
                            (Toy.world_with_cost (Float64.of_int 2)))) !! ("alice", Toy.today))
      = Some (Float64.of_int 1)
  /\ Float64.ltb (Float64.of_int 1) (Float64.of_int 2) = true.
Proof. vm_compute. repeat split; reflexivity. Qed.

(** ** The encryption boundary *)

Section EncryptionProperties.
Context `{Externals} `{Oracle}.

Lemma EncryptPHI_empty k w : EncryptPHI k "" w = (Ok "", w).
Proof. reflexivity. Qed.

Lemma DecryptPHI_empty k w : DecryptPHI k "" w = (Ok "", w).
Proof. reflexivity. Qed.

(** C7: with an encryption service that decrypts, under the same
    context, what it encrypted and never answers an empty blob, and a
    base64 codec that round-trips, decrypting the encryption of [s] gives
    [s] back for every [s] the service accepts and for the empty string;
    on the empty string both functions return it and leave the world, the
    log of service requests included, as it was. *)
Theorem encrypt_decrypt_roundtrip k s w :
  (forall keyId p ctx blob,
     kms_Encrypt keyId p ctx = Ok blob -> kms_Decrypt blob ctx = Ok p /\ blob <> "") ->
  (forall b, base64_DecodeString (base64_EncodeToString b) = Ok b) ->
  (forall b, base64_EncodeToString b = "" -> b = "") ->
  s = "" \/ is_Ok (kms_Encrypt (keyID k) s phi_context) = true ->
  fst ((c <- EncryptPHI k s ;; DecryptPHI k c) w) = Ok s
  /\ EncryptPHI k "" w = (Ok "", w)
  /\ DecryptPHI k "" w = (Ok "", w).
Proof.
  intros Hkms Hb64 Hb64' Hs. split; [|split; reflexivity].
  unfold bind, EncryptPHI.
  destruct (String.eqb s "") eqn:Hempty.
  - apply String.eqb_eq in Hempty. subst s. reflexivity.
  - destruct Hs as [->|Hs]; [discriminate|].
    unfold wrap, client_Encrypt, bind, ret. simpl.
    destruct (kms_Encrypt (keyID k) s phi_context) as [blob|e] eqn:Henc; [|discriminate].
    destruct (Hkms _ _ _ _ Henc) as [Hdec Hne].
    unfold DecryptPHI.
    destruct (String.eqb (base64_EncodeToString blob) "") eqn:Hc.
    { apply String.eqb_eq, Hb64' in Hc. contradiction. }
    unfold wrap, client_Decrypt, bind, ret. simpl.
    rewrite Hb64. simpl. rewrite Hdec. reflexivity.
Qed.

End EncryptionProperties.

Lemma encrypt_decrypt_roundtrip_witness :
  fst ((c <- @EncryptPHI Toy.externals Toy.kms "slept badly" ;;
        @DecryptPHI Toy.externals Toy.kms c) Toy.empty_world) = Ok "slept badly"
  /\ @EncryptPHI Toy.externals Toy.kms "" Toy.empty_world = (Ok "", Toy.empty_world)
  /\ @DecryptPHI Toy.externals Toy.kms "" Toy.empty_world = (Ok "", Toy.empty_world).
Proof.
  apply (@encrypt_decrypt_roundtrip Toy.externals Toy.kms "slept badly" Toy.empty_world).
  - intros keyId p ctx blob Henc. simpl in Henc. injection Henc as <-. split; [reflexivity|discriminate].
  - reflexivity.
  - intros b Hb. exact Hb.
  - right. reflexivity.
Defined.

(** ** The journal closure *)

Section JournalProperties.
Context `{Externals} `{Oracle}.

(** What the degraded path returns and leaves behind. *)
Lemma degraded_response userID req kmsService w costCheck w1 :
  CheckUserSpendLimit userID
    (EstimateLLMCost (Z.of_nat (String.length (req_Content req))) 100
       "anthropic.claude-3-sonnet-20240229-v1:0") w = (Ok costCheck, w1) ->
  Allowed costCheck = false ->
  exists entry w',
    processJournalEntry userID req kmsService w = (Ok entry, w')
    /\ je_Encrypted entry = false
    /\ je_Content entry = req_Content req
    /\ je_Mood entry = req_Mood req
    /\ je_Tags entry = req_Tags req
    /\ je_UserID entry = "user_id"
    /\ spend_table w' = spend_table w
    /\ kms_log w' = kms_log w.
Proof.
  intros Hcheck Hdenied.
  pose proof (CheckUserSpendLimit_reads_only userID
    (EstimateLLMCost (Z.of_nat (String.length (req_Content req))) 100
       "anthropic.claude-3-sonnet-20240229-v1:0") w) as Hro.
  unfold processJournalEntry. unfold bind at 1, wrap at 1.
  rewrite Hcheck in *. simpl in Hro. rewrite Hdenied. simpl.
  eexists _, _. split; [reflexivity|]. simpl. tauto.
Qed.

End JournalProperties.

(** C5, at a failing input: alice has used up her budget.  The degraded
    response is unencrypted and carries the plaintext, nothing was sent to
    the encryption service and the spend table is as before; but the user
    id of the response is the literal "user_id", not the caller's. *)
Lemma degraded_response_has_placeholder_user_id :
  exists entry w',
    @processJournalEntry Toy.externals Toy.frozen "alice" Toy.request Toy.kms
      (Toy.world_with_cost Float64.lit_5_0) = (Ok entry, w')
    /\ je_Encrypted entry = false
    /\ je_Content entry = "slept badly"
    /\ je_Mood entry = "low"
    /\ je_Tags entry = ["sleep"]
    /\ kms_log w' = []
    /\ spend_table w' = spend_table (Toy.world_with_cost Float64.lit_5_0)
    /\ je_UserID entry = "user_id"
    /\ je_UserID entry <> "alice".
Proof.
  eexists _, _. split; [vm_compute; reflexivity|]. simpl. repeat split. discriminate.
Qed.

(** ** The idempotency coordinator, one invocation at a time *)

Section SequentialProperties.
Context `{Externals} `{Oracle}.

Ltac unfold_service :=
  unfold ProcessIdempotentRequest, first_attempt, execute_handler, CheckIdempotency,
    StoreIdempotencyRecord, UpdateIdempotencyRecord, DeleteIdempotencyRecord,
    client_GetItem, client_PutItem_if_absent, client_UpdateItem, client_DeleteItem,
    run_handler, lift, remote_call, time_Now, try, discard, wrap, bind, ret, fail.

(** A record that is found and has not expired is handed to the caller. *)
Lemma CheckIdempotency_live s key record :
  fault (calls (world s)) = None ->
  idempotency_table s !! key = Some record ->
  time.After (clock (ticks (world s))) (ir_ExpiresAt record) = false ->
  CheckIdempotency key s = (Ok (Some record), advance 1 1 s).
Proof.
  intros Hnet Hfound Hlive. unfold_service. simpl.
  rewrite Hnet. simpl. rewrite Hfound. simpl. now rewrite Hlive.
Qed.

(** The client never returns the service's exception bare, so the type
    assertion of [StoreIdempotencyRecord] never holds. *)
Lemma type_assertion_never_holds item s err s' :
  client_PutItem_if_absent item s = (Some err, s') ->
  asserts_ConditionalCheckFailedException err = false.
Proof.
  unfold client_PutItem_if_absent, lift, remote_call.
  destruct (fault (calls (world s))); simpl; [now intros [= <- _]|].
  destruct (idempotency_table s !! ir_Key item); [now intros [= <- _]|discriminate].
Qed.

(** Hence the error meant for a taken key is never returned. *)
Lemma StoreIdempotencyRecord_never_reports_the_taken_key record s :
  fst (StoreIdempotencyRecord record s) <> Err "idempotency key already exists".
Proof.
  unfold StoreIdempotencyRecord, bind, lift, time_Now. simpl.
  destruct (client_PutItem_if_absent _ _) as [[err|] s'] eqn:Hput; [|discriminate].
  rewrite (type_assertion_never_holds _ _ _ _ Hput). discriminate.
Qed.

(** The conditional insert loses against any record under the key; what
    comes back is the SDK's error text under the prefix of a store
    failure. *)
Lemma StoreIdempotencyRecord_taken s record other :
  fault (calls (world s)) = None ->
  idempotency_table s !! ir_Key record = Some other ->
  StoreIdempotencyRecord record s =
    (Err ("failed to store idempotency record: " ++ condition_failure (calls (world s))),
     advance 1 1 s).
Proof.
  intros Hnet Hfound. unfold_service. simpl.
  rewrite Hnet. simpl. now rewrite Hfound.
Qed.

Lemma first_attempt_taken s key userID requestHash handler other :
  fault (calls (world s)) = None ->
  idempotency_table s !! key = Some other ->
  first_attempt key userID requestHash handler s =
    (Err ("failed to store idempotency record: failed to store idempotency record: "
          ++ condition_failure (calls (world s))),
     advance 3 1 s).
Proof.
  intros Hnet Hfound. unfold first_attempt.
  unfold bind at 1. unfold lift at 1, time_Now at 1. simpl.
  unfold bind at 1. unfold lift at 1, time_Now at 1. simpl.
  unfold bind at 1, wrap at 1.
  erewrite StoreIdempotencyRecord_taken; [reflexivity | exact Hnet | exact Hfound].
Qed.

(** C2: a live record with the request's hash and status "completed"
    makes the call return the deserialised stored response; the state is
    the one the lookup left (one remote read, one clock reading): the work
    closure is not entered, nothing is encrypted, no cost is recorded. *)
Theorem completed_record_is_replayed userID endpoint requestBody handler s record :
  fault (calls (world s)) = None ->
  idempotency_table s !! GenerateIdempotencyKey userID endpoint requestBody = Some record ->
  time.After (clock (ticks (world s))) (ir_ExpiresAt record) = false ->
  ir_RequestHash record = GenerateRequestHash requestBody ->
  ir_Status record = "completed" ->
  let out := ProcessIdempotentRequest userID endpoint requestBody handler s in
  fst out = match json_Unmarshal (ir_Response record) with
            | Ok response => Ok response
            | Err e => Err ("failed to unmarshal cached response: " ++ e)
            end
  /\ snd out = advance 1 1 s
  /\ handler_runs (snd out) = handler_runs s
  /\ kms_log (world (snd out)) = kms_log (world s)
  /\ spend_table (world (snd out)) = spend_table (world s).
Proof.
  intros Hnet Hfound Hlive Hhash Hstatus out.
  assert (Hout : out = (match json_Unmarshal (ir_Response record) with
                        | Ok response => Ok response
                        | Err e => Err ("failed to unmarshal cached response: " ++ e)
                        end, advance 1 1 s)).
  { unfold out, ProcessIdempotentRequest. unfold bind at 1, wrap at 1.
    rewrite (CheckIdempotency_live _ _ _ Hnet Hfound Hlive).
    rewrite Hhash, String.eqb_refl, Hstatus. simpl.
    unfold wrap. now destruct (json_Unmarshal _). }
  rewrite Hout. simpl. repeat split; reflexivity.
Qed.

(** Duplicates in flight: a live record with the request's hash and
    status "pending" makes the call fail at once; and a call whose
    conditional insert finds the key taken (state [s2], whatever the
    record [other] under the key) fails too, with the SDK's error under
    the prefix of a store failure, twice.  Neither enters the work
    closure. *)
Lemma duplicate_in_flight_is_rejected userID endpoint requestBody handler
    s record s2 other :
  fault (calls (world s)) = None ->
  idempotency_table s !! GenerateIdempotencyKey userID endpoint requestBody = Some record ->
  time.After (clock (ticks (world s))) (ir_ExpiresAt record) = false ->
  ir_RequestHash record = GenerateRequestHash requestBody ->
  ir_Status record = "pending" ->
  fault (calls (world s2)) = None ->
  idempotency_table s2 !! GenerateIdempotencyKey userID endpoint requestBody = Some other ->
  ProcessIdempotentRequest userID endpoint requestBody handler s =
    (Err "request is already being processed", advance 1 1 s)
  /\ first_attempt (GenerateIdempotencyKey userID endpoint requestBody) userID
       (GenerateRequestHash requestBody) handler s2 =
       (Err ("failed to store idempotency record: failed to store idempotency record: "
             ++ condition_failure (calls (world s2))),
        advance 3 1 s2)
  /\ thread_step userID endpoint requestBody handler AtStore s2 =
       (Finished (Err ("failed to store idempotency record: failed to store idempotency record: "
                       ++ condition_failure (calls (world s2)))),
        advance 3 1 s2)
  /\ handler_runs (advance 1 1 s) = handler_runs s
  /\ handler_runs (advance 3 1 s2) = handler_runs s2.
Proof.
  intros Hnet Hfound Hlive Hhash Hstatus Hnet2 Hfound2.
  split; [|split; [|split; [|split; reflexivity]]].
  - unfold ProcessIdempotentRequest. unfold bind at 1, wrap at 1.
    rewrite (CheckIdempotency_live _ _ _ Hnet Hfound Hlive).
    rewrite Hhash, String.eqb_refl, Hstatus. reflexivity.
  - now apply first_attempt_taken with (other := other).
  - pose proof (first_attempt_taken s2 _ userID (GenerateRequestHash requestBody)
                  handler other Hnet2 Hfound2) as Hfirst.
    unfold thread_step. unfold first_attempt in Hfirst.
    unfold_service. unfold_service. simpl.
    rewrite Hnet2. simpl. now rewrite Hfound2.
Qed.

(** C4: a live record under the key whose stored hash is not the hash of
    the submitted body makes the call fail with the key-conflict error;
    the work closure is not entered. *)
Theorem different_payload_is_a_key_conflict userID endpoint requestBody handler s record :
  fault (calls (world s)) = None ->
  idempotency_table s !! GenerateIdempotencyKey userID endpoint requestBody = Some record ->
  time.After (clock (ticks (world s))) (ir_ExpiresAt record) = false ->
  ir_RequestHash record <> GenerateRequestHash requestBody ->
  ProcessIdempotentRequest userID endpoint requestBody handler s =
    (Err "idempotency key conflict: same key used for different request", advance 1 1 s)
  /\ handler_runs (advance 1 1 s) = handler_runs s.
Proof.
  intros Hnet Hfound Hlive Hhash. split; [|reflexivity].
  unfold ProcessIdempotentRequest. unfold bind at 1, wrap at 1.
  rewrite (CheckIdempotency_live _ _ _ Hnet Hfound Hlive).
  apply String.eqb_neq in Hhash. now rewrite Hhash.
Qed.

(** C10: a live record with the request's hash and status "failed" is
    neither replayed nor retried: the call goes on to the conditional
    insert, which finds the key taken, and returns a store error: the
    SDK's text of the refused condition under the prefix "failed to store
    idempotency record: " of both layers.  The table is left as it was
    and the work closure is not entered. *)
Theorem failed_record_blocks_the_key userID endpoint requestBody handler s record :
  fault (calls (world s)) = None ->
  fault (S (calls (world s))) = None ->
  idempotency_table s !! GenerateIdempotencyKey userID endpoint requestBody = Some record ->
  time.After (clock (ticks (world s))) (ir_ExpiresAt record) = false ->
  ir_RequestHash record = GenerateRequestHash requestBody ->
  ir_Status record = "failed" ->
  ProcessIdempotentRequest userID endpoint requestBody handler s =
    (Err ("failed to store idempotency record: failed to store idempotency record: "
          ++ condition_failure (S (calls (world s)))),
     advance 4 2 s)
  /\ handler_runs (advance 4 2 s) = handler_runs s
  /\ idempotency_table (advance 4 2 s) = idempotency_table s.
Proof.
  intros Hnet Hnet' Hfound Hlive Hhash Hstatus. split; [|split; reflexivity].
  unfold ProcessIdempotentRequest. unfold bind at 1, wrap at 1.
  rewrite (CheckIdempotency_live _ _ _ Hnet Hfound Hlive).
  rewrite Hhash, String.eqb_refl, Hstatus. simpl.
  erewrite first_attempt_taken; [reflexivity | exact Hnet' | exact Hfound].
Qed.

(** Run alone, the five steps of an invocation compute what
    [ProcessIdempotentRequest] computes. *)
Lemma run_thread_alone userID endpoint requestBody handler s :
  run_thread userID endpoint requestBody handler 5 AtCheck s =
    (Finished (fst (ProcessIdempotentRequest userID endpoint requestBody handler s)),
     snd (ProcessIdempotentRequest userID endpoint requestBody handler s)).
Proof.
  unfold run_thread, thread_step. unfold_service. simpl.
  destruct (fault (calls (world s))); simpl; [reflexivity|].
  destruct (idempotency_table s !! _) as [record|] eqn:Hfound; simpl.
  - destruct (time.After _ _); simpl.
    + destruct (fault (S (calls (world s)))); simpl.
      * destruct (fault (S (S (calls (world s))))); simpl; [reflexivity|].
        rewrite Hfound. reflexivity.
      * destruct (fault (S (S (calls (world s))))); simpl; [reflexivity|].
        rewrite lookup_delete_eq.
        destruct (handler _) as [[v|e] w]; simpl.
        -- destruct (json_Marshal v); simpl; reflexivity.
        -- reflexivity.
    + destruct (String.eqb (ir_RequestHash record) _); simpl; [|reflexivity].
      destruct (String.eqb (ir_Status record) "completed"); simpl.
      * destruct (json_Unmarshal _); reflexivity.
      * destruct (String.eqb (ir_Status record) "pending"); simpl; [reflexivity|].
        destruct (fault (S (calls (world s)))); simpl; [reflexivity|].
        rewrite Hfound. reflexivity.
  - destruct (fault (S (calls (world s)))); simpl; [reflexivity|].
    rewrite Hfound.
    destruct (handler _) as [[v|e] w]; simpl.
    + destruct (json_Marshal v); simpl; reflexivity.
    + reflexivity.
Qed.

(** A call that meets an expired record, in full. *)
Lemma call_after_expiry userID endpoint requestBody handler s record res w1 :
  let key := GenerateIdempotencyKey userID endpoint requestBody in
  let pending :=
    {| ir_Key := key; ir_UserID := userID;
       ir_RequestHash := GenerateRequestHash requestBody;
       ir_Response := ""; ir_Status := "pending";
       ir_CreatedAt := clock (1 + ticks (world s));
       ir_ExpiresAt := time.Add (clock (2 + ticks (world s))) (24 * time.Hour);
       ir_TTL := time.Unix (time.Add (clock (3 + ticks (world s))) (24 * time.Hour)) |} in
  fault (calls (world s)) = None ->
  fault (S (calls (world s))) = None ->
  fault (S (S (calls (world s)))) = None ->
  idempotency_table s !! key = Some record ->
  time.After (clock (ticks (world s))) (ir_ExpiresAt record) = true ->
  handler (world (advance 4 3 s)) = (res, w1) ->
  ProcessIdempotentRequest userID endpoint requestBody handler s =
    (match res with
     | Ok response =>
         match json_Marshal response with
         | Ok _ => Ok response
         | Err e => Err ("failed to marshal response: " ++ e)
         end
     | Err e => Err e
     end,
     {| idempotency_table :=
          <[key := match fault (calls w1) with
                   | None =>
                       match res with
                       | Ok response =>
                           match json_Marshal response with
                           | Ok responseJSON => updated_item responseJSON "completed" pending
                           | Err _ =>
                               updated_item "error: failed to marshal response" "failed" pending
                           end
                       | Err e => updated_item ("error: " ++ e) "failed" pending
                       end
                   | Some _ => pending
                   end]> (idempotency_table s);
        world := set_ticks (S (ticks w1)) (set_calls (S (calls w1)) w1);
        handler_runs := S (handler_runs s) |}).
Proof.
  intros key pending Hnet0 Hnet1 Hnet2 Hfound Hexpired Hrun. subst pending key.
  unfold_service. simpl.
  rewrite Hnet0. simpl. rewrite Hfound. simpl. rewrite Hexpired. simpl.
  rewrite Hnet1. simpl. rewrite Hnet2. simpl.
  rewrite lookup_delete_eq.
  match goal with
  | |- context [handler ?w] => change (handler w) with (handler (world (advance 4 3 s)))
  end.
  rewrite Hrun.
  destruct res as [v|e]; simpl; [destruct (json_Marshal v)|]; simpl;
    destruct (fault (calls w1)); simpl; unfold set_table; simpl;
    rewrite ?lookup_insert_eq, ?insert_insert_eq, ?insert_delete_eq; reflexivity.
Qed.

(** C9: a record whose [ExpiresAt] lies before the clock reading of the
    lookup is deleted by [CheckIdempotency], which reports no record; the
    call then inserts a fresh pending record (after three steps the
    invocation stands before the closure, the new record in the table)
    and executes the work closure once more: it returns the closure's
    outcome, goes on from the world the closure left (the closure's
    effects on spend table and encryption service are those of the final
    state), and leaves under the key the fresh record with the outcome
    written to it, or still pending if that last write fails. *)
Theorem expired_record_is_replaced userID endpoint requestBody handler s record :
  fault (calls (world s)) = None ->
  fault (S (calls (world s))) = None ->
  fault (S (S (calls (world s)))) = None ->
  idempotency_table s !! GenerateIdempotencyKey userID endpoint requestBody = Some record ->
  time.After (clock (ticks (world s))) (ir_ExpiresAt record) = true ->
  let key := GenerateIdempotencyKey userID endpoint requestBody in
  let pending :=
    {| ir_Key := key; ir_UserID := userID;
       ir_RequestHash := GenerateRequestHash requestBody;
       ir_Response := ""; ir_Status := "pending";
       ir_CreatedAt := clock (1 + ticks (world s));
       ir_ExpiresAt := time.Add (clock (2 + ticks (world s))) (24 * time.Hour);
       ir_TTL := time.Unix (time.Add (clock (3 + ticks (world s))) (24 * time.Hour)) |} in
  let out := ProcessIdempotentRequest userID endpoint requestBody handler s in
  let ran := handler (world (advance 4 3 s)) in
  CheckIdempotency key s =
    (Ok None, set_table (delete key (idempotency_table s)) (advance 1 2 s))
  /\ run_thread userID endpoint requestBody handler 3 AtCheck s =
       (AtWork, set_table (<[key := pending]> (idempotency_table s)) (advance 4 3 s))
  /\ handler_runs (snd out) = S (handler_runs s)
  /\ fst out = match fst (handler (world (advance 4 3 s))) with
               | Ok response =>
                   match json_Marshal response with
                   | Ok _ => Ok response
                   | Err e => Err ("failed to marshal response: " ++ e)
                   end
               | Err e => Err e
               end
  /\ world (snd out) = set_ticks (S (ticks (snd ran))) (set_calls (S (calls (snd ran))) (snd ran))
  /\ spend_table (world (snd out)) = spend_table (snd ran)
  /\ kms_log (world (snd out)) = kms_log (snd ran)
  /\ idempotency_table (snd out) =
       <[key := match fault (calls (snd ran)) with
                | None =>
                    match fst ran with
                    | Ok response =>
                        match json_Marshal response with
                        | Ok responseJSON => updated_item responseJSON "completed" pending
                        | Err _ =>
                            updated_item "error: failed to marshal response" "failed" pending
                        end
                    | Err e => updated_item ("error: " ++ e) "failed" pending
                    end
                | Some _ => pending
                end]> (idempotency_table s).
Proof.
  intros Hnet0 Hnet1 Hnet2 Hfound Hexpired key pending out ran.
  split; [|split].
  - unfold_service. simpl. rewrite Hnet0. simpl. unfold key.
    rewrite Hfound. simpl. rewrite Hexpired. simpl. rewrite Hnet1. reflexivity.
  - unfold run_thread, thread_step. unfold_service. simpl.
    rewrite Hnet0. simpl. rewrite Hfound. simpl. rewrite Hexpired. simpl.
    rewrite Hnet1. simpl. rewrite Hnet2. simpl.
    rewrite lookup_delete_eq. unfold set_table. simpl.
    rewrite insert_delete_eq. reflexivity.
  - subst out ran. destruct (handler (world (advance 4 3 s))) as [res w1] eqn:Hrun.
    rewrite (call_after_expiry userID endpoint requestBody handler s record res w1
               Hnet0 Hnet1 Hnet2 Hfound Hexpired Hrun).
    cbn [fst snd handler_runs world idempotency_table].
    repeat split.
Qed.

End SequentialProperties.

Lemma completed_record_is_replayed_witness :
  let s := Toy.with_record (Toy.live_record "completed" "cached") in
  let out := @ProcessIdempotentRequest Toy.externals Toy.frozen
               "alice" "POST /journal-entries" "{}" Toy.work s in
  fst out = Ok ("cached" : string)
  /\ snd out = advance 1 1 s
  /\ handler_runs (snd out) = handler_runs s
  /\ kms_log (world (snd out)) = kms_log (world s)
  /\ spend_table (world (snd out)) = spend_table (world s).
Proof.
  apply (@completed_record_is_replayed Toy.externals Toy.frozen
           "alice" "POST /journal-entries" "{}" Toy.work
           (Toy.with_record (Toy.live_record "completed" "cached"))
           (Toy.live_record "completed" "cached")); reflexivity.
Defined.

Lemma duplicate_in_flight_is_rejected_example :
  let s := Toy.with_record (Toy.live_record "pending" "") in
  @ProcessIdempotentRequest Toy.externals Toy.frozen
     "alice" "POST /journal-entries" "{}" Toy.work s =
    (Err "request is already being processed", advance 1 1 s)
  /\ @first_attempt Toy.externals Toy.frozen Toy.key "alice" Toy.hash Toy.work s =
       (Err ("failed to store idempotency record: failed to store idempotency record: "
             ++ Toy.refused),
        advance 3 1 s)
  /\ @thread_step Toy.externals Toy.frozen "alice" "POST /journal-entries" "{}" Toy.work
       AtStore s =
       (Finished (Err ("failed to store idempotency record: failed to store idempotency record: "
                       ++ Toy.refused)),
        advance 3 1 s)
  /\ handler_runs (advance 1 1 s) = handler_runs s
  /\ handler_runs (advance 3 1 s) = handler_runs s.
Proof.
  apply (@duplicate_in_flight_is_rejected Toy.externals Toy.frozen
           "alice" "POST /journal-entries" "{}" Toy.work
           (Toy.with_record (Toy.live_record "pending" ""))
           (Toy.live_record "pending" "")
           (Toy.with_record (Toy.live_record "pending" ""))
           (Toy.live_record "pending" "")); reflexivity.
Defined.

Lemma different_payload_is_a_key_conflict_witness :
  let s := Toy.with_record Toy.foreign_record in
  @ProcessIdempotentRequest Toy.externals Toy.frozen
     "alice" "POST /journal-entries" "{}" Toy.work s =
    (Err "idempotency key conflict: same key used for different request", advance 1 1 s)
  /\ handler_runs (advance 1 1 s) = handler_runs s.
Proof.
  apply (@different_payload_is_a_key_conflict Toy.externals Toy.frozen
           "alice" "POST /journal-entries" "{}" Toy.work
           (Toy.with_record Toy.foreign_record) Toy.foreign_record);
    try reflexivity.
  vm_compute. discriminate.
Defined.

Lemma failed_record_blocks_the_key_witness :
  let s := Toy.with_record (Toy.live_record "failed" "error: boom") in
  @ProcessIdempotentRequest Toy.externals Toy.frozen
     "alice" "POST /journal-entries" "{}" Toy.work s =
    (Err ("failed to store idempotency record: failed to store idempotency record: "
          ++ Toy.refused),
     advance 4 2 s)
  /\ handler_runs (advance 4 2 s) = handler_runs s
  /\ idempotency_table (advance 4 2 s) = idempotency_table s.
Proof.
  apply (@failed_record_blocks_the_key Toy.externals Toy.frozen
           "alice" "POST /journal-entries" "{}" Toy.work
           (Toy.with_record (Toy.live_record "failed" "error: boom"))
           (Toy.live_record "failed" "error: boom")); reflexivity.
Defined.

(** The closure of this run has a text encrypted: the request it sends
    to the service is in the log of the final state. *)
Lemma expired_record_is_replaced_witness :
  let s := Toy.stale_state in
  let key := @GenerateIdempotencyKey Toy.externals "alice" "POST /journal-entries" "{}" in
  let pending :=
    {| ir_Key := key; ir_UserID := "alice";
       ir_RequestHash := @GenerateRequestHash Toy.externals "{}";
       ir_Response := ""; ir_Status := "pending";
       ir_CreatedAt := @clock Toy.frozen (1 + ticks (world s));
       ir_ExpiresAt := time.Add (@clock Toy.frozen (2 + ticks (world s))) (24 * time.Hour);
       ir_TTL := time.Unix (time.Add (@clock Toy.frozen (3 + ticks (world s)))
                              (24 * time.Hour)) |} in
  let out := @ProcessIdempotentRequest Toy.externals Toy.frozen
               "alice" "POST /journal-entries" "{}" Toy.encrypting_work s in
  let ran := Toy.encrypting_work (world (advance 4 3 s)) in
  @CheckIdempotency Toy.frozen key s =
    (Ok None, set_table (delete key (idempotency_table s)) (advance 1 2 s))
  /\ @run_thread Toy.externals Toy.frozen "alice" "POST /journal-entries" "{}"
       Toy.encrypting_work 3 AtCheck s =
       (AtWork, set_table (<[key := pending]> (idempotency_table s)) (advance 4 3 s))
  /\ handler_runs (snd out) = S (handler_runs s)
  /\ fst out = Ok ("#slept badly" : string)
  /\ world (snd out) = set_ticks (S (ticks (snd ran))) (set_calls (S (calls (snd ran))) (snd ran))
  /\ spend_table (world (snd out)) = spend_table (snd ran)
  /\ kms_log (world (snd out))
     = [KmsEncryptCall "alias/phi" "slept badly" phi_context]
  /\ idempotency_table (snd out) =
       <[key := updated_item "#slept badly" "completed" pending]> (idempotency_table s).
Proof.
  apply (@expired_record_is_replaced Toy.externals Toy.frozen
           "alice" "POST /journal-entries" "{}" Toy.encrypting_work
           Toy.stale_state (Toy.record_with "completed" "old" (Toy.t0 - 1))); reflexivity.
Defined.

(** ** The idempotency coordinator under interleaving *)

Section ConcurrentProperties.
Context `{Externals} `{Oracle}.
Variables (userID endpoint requestBody : string) (handler : St World Value).

Local Abbreviation key := (GenerateIdempotencyKey userID endpoint requestBody).
Local Abbreviation step := (thread_step userID endpoint requestBody handler).

Ltac unfold_service :=
  unfold ProcessIdempotentRequest, first_attempt, execute_handler, CheckIdempotency,
    StoreIdempotencyRecord, UpdateIdempotencyRecord, DeleteIdempotencyRecord,
    client_GetItem, client_PutItem_if_absent, client_UpdateItem, client_DeleteItem,
    run_handler, lift, remote_call, time_Now, try, discard, wrap, bind, ret, fail.

Lemma step_AtCheck s p' s' :
  step AtCheck s = (p', s') ->
  idempotency_table s' = idempotency_table s /\ handler_runs s' = handler_runs s /\
  (p' = AtStore \/ (exists o, p' = Finished o) \/
   (p' = AtDelete /\ exists r, idempotency_table s !! key = Some r /\
       time.After (clock (ticks (world s))) (ir_ExpiresAt r) = true)).
Proof.
  unfold thread_step. unfold_service. simpl.
  destruct (fault (calls (world s))); simpl.
  { intros [= <- <-]. simpl. eauto 6. }
  destruct (idempotency_table s !! key) as [r|] eqn:Hfound; simpl.
  2:{ intros [= <- <-]. simpl. eauto 6. }
  destruct (time.After _ _) eqn:Hexp.
  { intros [= <- <-]. simpl. eauto 10. }
  destruct (String.eqb (ir_RequestHash r) _).
  2:{ intros [= <- <-]. simpl. eauto 6. }
  destruct (String.eqb (ir_Status r) "completed").
  { destruct (json_Unmarshal _); intros [= <- <-]; simpl; eauto 6. }
  destruct (String.eqb (ir_Status r) "pending"); intros [= <- <-]; simpl; eauto 6.
Qed.

Lemma step_AtStore s p' s' :
  step AtStore s = (p', s') ->
  handler_runs s' = handler_runs s /\
  (((exists o, p' = Finished o) /\ idempotency_table s' = idempotency_table s) \/
   (p' = AtWork /\ idempotency_table s !! key = None /\
    exists r j, idempotency_table s' = <[key := r]> (idempotency_table s) /\
                ir_ExpiresAt r = time.Add (clock j) (24 * time.Hour))).
Proof.
  unfold thread_step. unfold_service. simpl.
  destruct (fault (calls (world s))); simpl.
  { intros [= <- <-]. simpl. eauto 6. }
  destruct (idempotency_table s !! key) as [r|] eqn:Hfound; simpl.
  { intros [= <- <-]. simpl. eauto 6. }
  intros [= <- <-]. simpl. split; [reflexivity|]. right. repeat split.
  eexists _, _. split; reflexivity.
Qed.

Lemma step_AtWork s p' s' :
  step AtWork s = (p', s') ->
  idempotency_table s' = idempotency_table s /\ handler_runs s' = S (handler_runs s) /\
  exists r st o, p' = AtUpdate r st o.
Proof.
  unfold thread_step. unfold_service. simpl.
  destruct (handler _) as [[v|e] w]; simpl.
  - destruct (json_Marshal v); intros [= <- <-]; simpl; eauto 6.
  - intros [= <- <-]; simpl; eauto 6.
Qed.

Lemma step_AtUpdate r st o s p' s' :
  step (AtUpdate r st o) s = (p', s') ->
  p' = Finished o /\ handler_runs s' = handler_runs s /\
  (idempotency_table s' = idempotency_table s \/
   idempotency_table s' =
     <[key := match idempotency_table s !! key with
              | Some r0 => updated_item r st r0
              | None => upserted_item key r st
              end]> (idempotency_table s)).
Proof.
  unfold thread_step. unfold_service. simpl.
  destruct (fault (calls (world s))); simpl; intros [= <- <-]; simpl; eauto.
Qed.

(** An invocation that finishes before it reaches the closure has failed
    or hands out the response stored in a completed record. *)
Lemma finished_before_work p s outcome s' :
  p = AtCheck \/ p = AtStore ->
  step p s = (Finished outcome, s') ->
  handler_runs s' = handler_runs s /\
  (is_Err outcome = true \/
   exists record response,
     idempotency_table s !! key = Some record /\
     ir_RequestHash record = GenerateRequestHash requestBody /\
     ir_Status record = "completed" /\
     json_Unmarshal (ir_Response record) = Ok response /\
     outcome = Ok response).
Proof.
  intros [-> | ->]; unfold thread_step; unfold_service; simpl.
  - destruct (fault (calls (world s))); simpl.
    { intros [= <- <-]. split; [reflexivity|]. now left. }
    destruct (idempotency_table s !! key) as [r|] eqn:Hfound; simpl; [|discriminate].
    destruct (time.After _ _); [discriminate|].
    destruct (String.eqb (ir_RequestHash r) _) eqn:Hhash.
    2:{ intros [= <- <-]. split; [reflexivity|]. now left. }
    destruct (String.eqb (ir_Status r) "completed") eqn:Hstatus.
    + apply String.eqb_eq in Hhash, Hstatus.
      destruct (json_Unmarshal (ir_Response r)) as [v|e] eqn:Hjson;
        intros [= <- <-]; (split; [reflexivity|]); [right|now left].
      exists r, v. auto.
    + destruct (String.eqb (ir_Status r) "pending"); [|discriminate].
      intros [= <- <-]. split; [reflexivity|]. now left.
  - destruct (fault (calls (world s))); simpl.
    { intros [= <- <-]. split; [reflexivity|]. now left. }
    destruct (idempotency_table s !! key) as [r|] eqn:Hfound; simpl; [|discriminate].
    intros [= <- <-]. split; [reflexivity|]. now left.
Qed.

Hypothesis window : forall i j, clock i <= time.Add (clock j) (24 * time.Hour).

Lemma lookup_thread_insert (l : list pc) i j p p0 :
  l !! i = Some p0 ->
  <[i := p]> l !! j = if decide (i = j) then Some p else l !! j.
Proof.
  intros Hi. destruct (decide (i = j)) as [->|Hne].
  - apply list_lookup_insert_eq. eapply lookup_lt_Some; eauto.
  - now apply list_lookup_insert_ne.
Qed.

Ltac six := split; [|split; [|split; [|split; [|split]]]].
Ltac at_thread Hp j := rewrite (lookup_thread_insert _ _ j _ _ Hp); destruct (decide (_ = j)) as [<-|?].

Lemma safe_step runs0 sys i :
  safe userID endpoint requestBody runs0 sys -> safe userID endpoint requestBody runs0 (system_step userID endpoint requestBody handler sys i).
Proof.
  intros (Hlive & Hnodel & Hupd & Hwork & Hnone & Hle).
  unfold system_step. destruct (threads sys !! i) as [p|] eqn:Hp.
  2:{ six; assumption. }
  destruct (step p (shared sys)) as [p' s'] eqn:Hstep.
  unfold safe; simpl.
  destruct p.
  - (* AtCheck *)
    apply step_AtCheck in Hstep as (Ht & Hr & Hp').
    rewrite Ht, Hr.
    assert (Hp'' : p' = AtStore \/ exists o, p' = Finished o).
    { destruct Hp' as [?|[?|(-> & r & Hfound & Hexp)]]; auto.
      exfalso. specialize (Hlive r Hfound (ticks (world (shared sys)))).
      unfold time.After in Hexp. apply Z.ltb_lt in Hexp. lia. }
    clear Hp'.
    assert (Hquiet : forall j q, <[i := p']> (threads sys) !! j = Some q ->
                       q = AtStore \/ (exists o, q = Finished o) \/ threads sys !! j = Some q).
    { intros j q. at_thread Hp j; [|auto]. intros [= <-]. tauto. }
    six; try assumption.
    + intros j Hj. apply Hquiet in Hj as [?|[[? ?]|Hj]]; try discriminate. now apply Hnodel in Hj.
    + intros j r st o Hj. apply Hquiet in Hj as [?|[[? ?]|Hj]]; try discriminate. eauto.
    + intros j Hj. apply Hquiet in Hj as [?|[[? ?]|Hj]]; try discriminate.
      destruct (Hwork j Hj) as (? & ? & Huniq). split; [|split]; try assumption.
      intros j' Hj'. apply Hquiet in Hj' as [?|[[? ?]|Hj']]; try discriminate. auto.
  - (* AtDelete *) exfalso. now apply (Hnodel i).
  - (* AtStore *)
    apply step_AtStore in Hstep as (Hr & [([o ->] & Ht)|(-> & Hfree & r & t & Ht & Hexp)]).
    + rewrite Ht, Hr.
      assert (Hquiet : forall j q, <[i := Finished o]> (threads sys) !! j = Some q ->
                       (exists o, q = Finished o) \/ threads sys !! j = Some q).
      { intros j q. at_thread Hp j; [|auto]. intros [= <-]. eauto. }
      six; try assumption.
      * intros j Hj. apply Hquiet in Hj as [[? ?]|Hj]; try discriminate. now apply Hnodel in Hj.
      * intros j r st o' Hj. apply Hquiet in Hj as [[? ?]|Hj]; try discriminate. eauto.
      * intros j Hj. apply Hquiet in Hj as [[? ?]|Hj]; try discriminate.
        destruct (Hwork j Hj) as (? & ? & Huniq). split; [|split]; try assumption.
        intros j' Hj'. apply Hquiet in Hj' as [[? ?]|Hj']; try discriminate. auto.
    + rewrite Ht, Hr. specialize (Hnone Hfree).
      assert (Hnowork : forall j, threads sys !! j <> Some AtWork).
      { intros j Hj. apply Hwork in Hj as ([? Hs] & _). congruence. }
      six.
      * intros r0. rewrite lookup_insert_eq. intros [= <-] j0. rewrite Hexp. apply window.
      * intros j0. at_thread Hp j0; [discriminate|apply Hnodel].
      * intros. rewrite lookup_insert_eq. eauto.
      * intros j0 Hj0. rewrite lookup_insert_eq. split; [eauto|]. split; [exact Hnone|].
        revert Hj0. at_thread Hp j0.
        -- intros _ j1. at_thread Hp j1; [reflexivity|]. intros Hj1. now apply Hnowork in Hj1.
        -- intros Hj0. now apply Hnowork in Hj0.
      * rewrite lookup_insert_eq. discriminate.
      * lia.
  - (* AtWork *)
    apply step_AtWork in Hstep as (Ht & Hr & r & st & o & ->).
    destruct (Hwork i Hp) as (Hsome & Hruns & Huniq).
    assert (Hnowork : forall j, <[i := AtUpdate r st o]> (threads sys) !! j <> Some AtWork).
    { intros j. at_thread Hp j; [discriminate|]. intros Hj. apply Huniq in Hj. congruence. }
    rewrite Ht, Hr. six; try assumption.
    + intros j. at_thread Hp j; [discriminate|apply Hnodel].
    + intros; assumption.
    + intros j Hj. exfalso. eapply Hnowork; eauto.
    + intros Hfree. destruct Hsome as [? Hs]. congruence.
    + lia.
  - (* AtUpdate *)
    apply step_AtUpdate in Hstep as (-> & Hr & Ht).
    destruct (Hupd i _ _ _ Hp) as [r0 Hr0].
    assert (Hkey : forall x, idempotency_table s' !! key = Some x ->
                     exists y, idempotency_table (shared sys) !! key = Some y /\
                               ir_ExpiresAt x = ir_ExpiresAt y).
    { intros x. destruct Ht as [->| ->]; [eauto|].
      rewrite lookup_insert_eq, Hr0. intros [= <-]. eauto. }
    assert (Hsome : is_Some (idempotency_table s' !! key)).
    { destruct Ht as [->| ->]; [eauto|]. rewrite lookup_insert_eq. eauto. }
    assert (Hquiet : forall j q, <[i := Finished outcome]> (threads sys) !! j = Some q ->
                       (exists o, q = Finished o) \/ threads sys !! j = Some q).
    { intros j q. at_thread Hp j; [|auto]. intros [= <-]. eauto. }
    rewrite Hr. six; try assumption.
    + intros x Hx j. apply Hkey in Hx as (y & Hy & ->). now apply Hlive.
    + intros j Hj. apply Hquiet in Hj as [[? ?]|Hj]; try discriminate. now apply Hnodel in Hj.
    + intros; assumption.
    + intros j Hj. apply Hquiet in Hj as [[? ?]|Hj]; try discriminate.
      destruct (Hwork j Hj) as (? & ? & Huniq). split; [|split]; try assumption.
      intros j' Hj'. apply Hquiet in Hj' as [[? ?]|Hj']; try discriminate. auto.
    + intros Hfree. destruct Hsome as [? Hs]. congruence.
  - (* Finished *)
    simpl in Hstep. injection Hstep as <- <-.
    rewrite list_insert_id by exact Hp.
    six; assumption.
Qed.

Lemma safe_run runs0 schedule : forall sys,
  safe userID endpoint requestBody runs0 sys -> safe userID endpoint requestBody runs0 (run_schedule userID endpoint requestBody handler schedule sys).
Proof.
  induction schedule as [|i schedule IH]; intros sys Hsafe; [exact Hsafe|].
  simpl. apply IH. now apply safe_step.
Qed.

Lemma safe_start n s :
  (forall r, idempotency_table s !! key = Some r -> forall j, clock j <= ir_ExpiresAt r) ->
  safe userID endpoint requestBody (handler_runs s) (start n s).
Proof.
  intros Hlive.
  assert (Hstart : forall i p, threads (start n s) !! i = Some p -> p = AtCheck).
  { intros i p. unfold start; simpl. intros Hi. now apply lookup_replicate in Hi as [-> _]. }
  six; simpl.
  - exact Hlive.
  - intros i Hi. apply Hstart in Hi. discriminate.
  - intros i r st o Hi. apply Hstart in Hi. discriminate.
  - intros i Hi. apply Hstart in Hi. discriminate.
  - reflexivity.
  - lia.
Qed.

End ConcurrentProperties.

(** C1 (amended): [n] invocations of one request, interleaved in any
    order at their remote calls, under any network faults.  If all clock
    readings of the run lie within 24 hours of each other and a record
    already stored under the key stays unexpired over the run, so that no
    lookup of the run meets an expired record, then the work closure is
    entered at most once in the whole run.  And in any state, an
    invocation that finishes at its lookup or at its conditional insert
    has not entered the closure: it fails, or returns the response stored
    in a completed record of the request. *)
Theorem at_most_one_execution_without_expiry `{Externals} `{Oracle}
    userID endpoint requestBody handler n schedule s :
  (forall i j, clock i <= time.Add (clock j) (24 * time.Hour)) ->
  (forall r, idempotency_table s !! GenerateIdempotencyKey userID endpoint requestBody = Some r ->
             forall j, clock j <= ir_ExpiresAt r) ->
  (handler_runs (shared (run_schedule userID endpoint requestBody handler schedule (start n s)))
   <= handler_runs s + 1)%nat
  /\ forall p s1 outcome s2,
       p = AtCheck \/ p = AtStore ->
       thread_step userID endpoint requestBody handler p s1 = (Finished outcome, s2) ->
       handler_runs s2 = handler_runs s1 /\
       (is_Err outcome = true \/
        exists record response,
          idempotency_table s1 !! GenerateIdempotencyKey userID endpoint requestBody
            = Some record /\
          ir_RequestHash record = GenerateRequestHash requestBody /\
          ir_Status record = "completed" /\
          json_Unmarshal (ir_Response record) = Ok response /\
          outcome = Ok response).
Proof.
  intros Hwindow Hlive. split.
  - pose proof (safe_run userID endpoint requestBody handler Hwindow (handler_runs s) schedule
                  (start n s) (safe_start userID endpoint requestBody n s Hlive)) as Hsafe.
    apply Hsafe.
  - intros p s1 outcome s2. apply finished_before_work.
Qed.

(** Three invocations on an empty table, taking turns. *)
Lemma at_most_one_execution_without_expiry_witness :
  (handler_runs (shared (@run_schedule Toy.externals Toy.frozen
                           "alice" "POST /journal-entries" "{}" Toy.work
                           [0; 1; 2; 0; 1; 2; 0; 1; 2; 0; 1; 2]%nat
                           (@start Toy.externals 3 Toy.empty_state)))
   <= handler_runs Toy.empty_state + 1)%nat.
Proof.
  apply (@at_most_one_execution_without_expiry Toy.externals Toy.frozen).
  - intros i j. vm_compute. discriminate.
  - intros r Hr. vm_compute in Hr. discriminate Hr.
Defined.

(** In that run the first invocation runs the closure, once, and the two
    others lose the conditional insert. *)
Lemma three_invocations_one_execution :
  handler_runs (shared (@run_schedule Toy.externals Toy.frozen
                          "alice" "POST /journal-entries" "{}" Toy.work
                          [0; 1; 2; 0; 1; 2; 0; 1; 2; 0; 1; 2]%nat
                          (@start Toy.externals 3 Toy.empty_state))) = 1%nat
  /\ map (fun p => (pc_name p, pc_error p))
        (threads (@run_schedule Toy.externals Toy.frozen
                    "alice" "POST /journal-entries" "{}" Toy.work
                    [0; 1; 2; 0; 1; 2; 0; 1; 2; 0; 1; 2]%nat
                    (@start Toy.externals 3 Toy.empty_state)))
     = [ ("finished", None);
         ("finished",
          Some ("failed to store idempotency record: failed to store idempotency record: "
                ++ Toy.refused));
         ("finished",
          Some ("failed to store idempotency record: failed to store idempotency record: "
                ++ Toy.refused)) ].
Proof. vm_compute. split; reflexivity. Qed.

(** C3, at a failing input: two invocations of one request race on an
    empty table ([0; 1; 0; 1]: both look the key up and find nothing, A
    inserts its pending record, B's conditional insert is refused).  B
    fails without entering the closure, and a third call that starts
    afterwards meets the pending record and fails with "request is
    already being processed".  But B's error is not the one the code
    means for a lost race, "idempotency key already exists": the SDK
    hands the refusal over wrapped in an operation error, the type
    assertion of [StoreIdempotencyRecord] does not match it, and B
    returns the SDK's text as a failure of the store. *)
Lemma lost_insert_race_is_reported_as_a_store_failure :
  let sys := @run_schedule Toy.externals Toy.frozen
               "alice" "POST /journal-entries" "{}" Toy.work
               [0; 1; 0; 1]%nat (@start Toy.externals 2 Toy.empty_state) in
  map (fun p => (pc_name p, pc_error p)) (threads sys)
    = [ ("work", None);
        ("finished",
         Some ("failed to store idempotency record: failed to store idempotency record: "
               ++ Toy.refused)) ]
  /\ "failed to store idempotency record: failed to store idempotency record: " ++ Toy.refused
     <> "failed to store idempotency record: idempotency key already exists"
  /\ handler_runs (shared sys) = handler_runs Toy.empty_state
  /\ fst (@ProcessIdempotentRequest Toy.externals Toy.frozen
            "alice" "POST /journal-entries" "{}" Toy.work (shared sys))
     = Err "request is already being processed"
  /\ (forall record s,
        fst (@StoreIdempotencyRecord Toy.frozen record s)
        <> Err "idempotency key already exists").
Proof.
  split; [vm_compute; reflexivity|]. split; [vm_compute; discriminate|].
  split; [vm_compute; reflexivity|]. split; [vm_compute; reflexivity|].
  intros record s. apply StoreIdempotencyRecord_never_reports_the_taken_key.
Qed.

(** C1 as stated fails: on a table that still holds an expired record of
    the request, two concurrent invocations both find it expired; the
    delete of the second removes the pending record the first has just
    inserted, so the second insert succeeds as well and the closure runs
    twice.  The clock stands still during the run. *)
Lemma stale_record_race_runs_work_twice :
  handler_runs (shared (@run_schedule Toy.externals Toy.frozen "alice" "POST /journal-entries" "{}" Toy.work
                          Toy.race_schedule (@start Toy.externals 2 Toy.stale_state)))
  = (handler_runs Toy.stale_state + 2)%nat.
Proof. vm_compute. reflexivity. Qed.

(** The steps of that run, one by one. *)
Lemma stale_record_race_trace :
  map (fun k => map pc_name
                  (threads (@run_schedule Toy.externals Toy.frozen
                              "alice" "POST /journal-entries" "{}" Toy.work
                              (take k Toy.race_schedule) (@start Toy.externals 2 Toy.stale_state))))
      (seq 1 8)
  = [ ["delete"; "check"]; ["delete"; "delete"]; ["store"; "delete"]; ["work"; "delete"];
      ["update"; "delete"]; ["update"; "store"]; ["update"; "work"]; ["update"; "update"] ].
Proof. vm_compute. reflexivity. Qed.

(** Expiry is by design: a pending record older than a day no longer
    blocks, even while the invocation that wrote it is still in flight. *)
Lemma overdue_pending_record_is_replaced :
  handler_runs (shared (@run_schedule Toy.externals Toy.slow "alice" "POST /journal-entries" "{}"
                          Toy.work Toy.overdue_schedule (@start Toy.externals 2 Toy.empty_state)))
  = 2%nat.
Proof. vm_compute. reflexivity. Qed.

(** * Further properties *)

(** ** binary64 rounding, multiplication, division and conversion *)

(** The mantissa of a record shifted right [k] times. *)
Lemma shr_iter_m (r : shr_record) (k : nat) :
  0 <= shr_m r -> shr_m (Nat.iter k shr_1 r) = shr_m r / 2 ^ Z.of_nat k.
Proof.
  intros Hr. induction k as [|k IH].
  - simpl. now rewrite Z.div_1_r.
  - simpl Nat.iter. rewrite shr_1_m.
    + rewrite IH, Nat2Z.inj_succ, Z.pow_succ_r by lia.
      rewrite Z.div_div by lia. f_equal. lia.
    + rewrite IH. apply Z.div_pos; lia.
Qed.

Lemma shr_record_of_loc_m (m : Z) (l : location) : shr_m (shr_record_of_loc m l) = m.
Proof. destruct l as [|[]]; reflexivity. Qed.

Lemma Zdigits2_bounds (m : Z) :
  0 <= m -> 0 <= Zdigits2 m /\ m < 2 ^ Zdigits2 m /\ (0 < m -> 2 ^ (Zdigits2 m - 1) <= m).
Proof.
  intros Hm. destruct m as [|p|p]; simpl; try lia.
  pose proof (digits2_pos_bounds p). lia.
Qed.

(** What the first shift of [binary_round_aux] yields: the exponent is the
    canonical one, the mantissa has at most 53 digits, and exactly 53
    above the smallest exponent. *)
Lemma shr_fexp_spec (m e : Z) (l : location) :
  0 <= m ->
  e <= Z.max (Zdigits2 m + e - 53) (-1074) ->
  let '(r, e1) := shr_fexp 53 1024 m e l in
  e1 = Z.max (Zdigits2 m + e - 53) (-1074) /\
  0 <= shr_m r < 2 ^ 53 /\
  (-1074 < e1 -> 2 ^ 52 <= shr_m r).
Proof.
  intros Hm He. unfold shr_fexp. rewrite fexp64. std_ops.
  destruct (Zdigits2_bounds m Hm) as (Hd0 & Hhi & Hlo).
  set (d := Zdigits2 m) in *. set (e1 := Z.max (d + e - 53) (-1074)) in *.
  destruct (e1 - e) as [|k|k] eqn:Hk; try lia.
  - (* no shift *)
    simpl. rewrite shr_record_of_loc_m.
    assert (e1 = e) by lia. split; [lia|].
    assert (Hd : d <= 53) by (unfold e1 in *; lia).
    assert (2 ^ d <= 2 ^ 53) by (apply Z.pow_le_mono_r; lia).
    split; [lia|]. intros Hn.
    assert (d = 53) by (unfold e1 in *; lia).
    assert (0 < m).
    { destruct (Z.eq_dec m 0) as [->|]; [|lia]. unfold d in *. simpl in *. lia. }
    specialize (Hlo ltac:(lia)). replace (d - 1) with 52 in Hlo by lia. exact Hlo.
  - simpl. rewrite iter_pos_nat, shr_iter_m by (rewrite shr_record_of_loc_m; lia).
    rewrite shr_record_of_loc_m, positive_nat_Z.
    split; [lia|].
    assert (Hpk : 0 < 2 ^ Zpos k) by (apply Z.pow_pos_nonneg; lia).
    assert (Hdk : d - Zpos k <= 53) by (unfold e1 in *; lia).
    split; [split|].
    + apply Z.div_pos; lia.
    + apply Z.div_lt_upper_bound; [lia|].
      rewrite <- Z.pow_add_r by lia.
      eapply Z.lt_le_trans; [exact Hhi|]. apply Z.pow_le_mono_r; lia.
    + intros Hn.
      assert (Hdd : d = 53 + Zpos k) by (unfold e1 in *; lia).
      assert (0 < m).
      { destruct (Z.eq_dec m 0) as [->|]; [|lia]. unfold d in *. simpl in *. lia. }
      specialize (Hlo ltac:(lia)).
      apply Z.div_le_lower_bound; [lia|].
      rewrite <- Z.pow_add_r by lia. replace (Zpos k + 52) with (d - 1) by lia. exact Hlo.
Qed.

Lemma binary_round_aux_valid (sx : bool) (m e : Z) (l : location) :
  0 <= m ->
  e <= Z.max (Zdigits2 m + e - 53) (-1074) ->
  valid_binary 53 1024 (binary_round_aux 53 1024 sx m e l) = true
  /\ Float64.sign_is sx (binary_round_aux 53 1024 sx m e l) = true.
Proof.
  intros Hm He. unfold binary_round_aux.
  pose proof (shr_fexp_spec m e l Hm He) as Hshr.
  destruct (shr_fexp 53 1024 m e l) as [r e1].
  destruct Hshr as (He1 & Hr & Hnormal).
  pose proof (round_nearest_even_bounds (shr_m r) (loc_of_shr_record r)) as Hrne.
  set (m2 := round_nearest_even (shr_m r) (loc_of_shr_record r)) in *.
  assert (Hmin : -1074 <= e1) by lia.
  unfold shr_fexp. rewrite fexp64. std_ops.
  destruct (Z_lt_le_dec m2 (2 ^ 53)) as [Hlt|Hge].
  - (* no carry *)
    assert (Hd2 : Zdigits2 m2 <= 53).
    { destruct (Zdigits2_bounds m2 ltac:(lia)) as (Hd0 & Hhi & Hlo).
      destruct (Z.eq_dec m2 0) as [Hz|Hnz]; [rewrite Hz; simpl; lia|].
      specialize (Hlo ltac:(lia)).
      destruct (Z_le_gt_dec (Zdigits2 m2) 53) as [|Hgt]; [assumption|].
      assert (2 ^ 53 <= 2 ^ (Zdigits2 m2 - 1)) by (apply Z.pow_le_mono_r; lia). lia. }
    destruct (Z.max (Zdigits2 m2 + e1 - 53) (-1074) - e1) as [|k|k] eqn:Hk; try lia;
      simpl shr; cbn [shr_record_of_loc shr_m].
    + destruct m2 as [|p|p] eqn:Hm2; [split; [reflexivity|apply eqb_reflx]| |lia].
      std_ops. destruct (e1 <=? 1024 - 53) eqn:Hmax; [|split; [reflexivity|apply eqb_reflx]].
      split; [|apply eqb_reflx].
      unfold valid_binary, bounded, canonical_mantissa. rewrite fexp64. std_ops.
      simpl Zdigits2 in *. apply andb_true_intro. split; [apply Z.eqb_eq; lia|exact Hmax].
    + destruct m2 as [|p|p] eqn:Hm2; [split; [reflexivity|apply eqb_reflx]| |lia].
      std_ops. destruct (e1 <=? 1024 - 53) eqn:Hmax; [|split; [reflexivity|apply eqb_reflx]].
      split; [|apply eqb_reflx].
      unfold valid_binary, bounded, canonical_mantissa. rewrite fexp64. std_ops.
      apply andb_true_intro. split; [|exact Hmax]. apply Z.eqb_eq.
      simpl Zdigits2 in *.
      destruct (Z_le_gt_dec e1 (-1074)) as [Hsub|Hnorm]; [lia|].
      specialize (Hnormal ltac:(lia)).
      assert (Zpos (digits2_pos p) = 53).
      { apply digits2_pos_unique. simpl (53 - 1). lia. }
      lia.
  - (* the rounded mantissa is 2^53 *)
    assert (Heq : m2 = 9007199254740992) by (rewrite pow2_53 in *; lia).
    rewrite Heq.
    assert (Hdig : Zdigits2 9007199254740992 = 54) by (vm_compute; reflexivity).
    rewrite Hdig.
    replace (Z.max (54 + e1 - 53) (-1074) - e1) with 1 by lia.
    cbn [shr shr_record_of_loc shr_m SpecFloat.iter_pos shr_1]. std_ops.
    destruct (e1 + 1 <=? 1024 - 53) eqn:Hmax; [|split; [reflexivity|apply eqb_reflx]].
    split; [|apply eqb_reflx].
    unfold valid_binary, bounded, canonical_mantissa. rewrite fexp64. std_ops.
    apply andb_true_intro. split; [|exact Hmax]. apply Z.eqb_eq.
    assert (Hd : Zpos (digits2_pos 4503599627370496) = 53) by (vm_compute; reflexivity).
    rewrite Hd. lia.
Qed.

(** A valid finite float has a full mantissa or the smallest exponent. *)
Lemma valid_finite_digits (s : bool) (m : positive) (e : Z) :
  valid_binary 53 1024 (S754_finite s m e) = true ->
  -1074 <= e /\ Zpos (digits2_pos m) <= 53 /\ (Zpos (digits2_pos m) = 53 \/ e = -1074).
Proof. intros Hv. apply valid_finite in Hv as [Hc _]. lia. Qed.

(** The number of digits of a product. *)
Lemma digits2_mul_lower (a b : positive) :
  Zpos (digits2_pos a) + Zpos (digits2_pos b) - 1 <= Zpos (digits2_pos (a * b)).
Proof.
  pose proof (digits2_pos_bounds a) as [Ha _].
  pose proof (digits2_pos_bounds b) as [Hb _].
  pose proof (digits2_pos_bounds (a * b)) as [_ Hab].
  assert (Hpa : 0 < 2 ^ (Zpos (digits2_pos a) - 1)) by (apply Z.pow_pos_nonneg; lia).
  assert (Hpb : 0 < 2 ^ (Zpos (digits2_pos b) - 1)) by (apply Z.pow_pos_nonneg; lia).
  assert (Hprod : 2 ^ (Zpos (digits2_pos a) - 1 + (Zpos (digits2_pos b) - 1)) <= Zpos (a * b)).
  { rewrite Z.pow_add_r by lia. rewrite Pos2Z.inj_mul. apply Z.mul_le_mono_nonneg; lia. }
  assert (Hlt : 2 ^ (Zpos (digits2_pos a) - 1 + (Zpos (digits2_pos b) - 1))
                < 2 ^ Zpos (digits2_pos (a * b))) by lia.
  apply pow2_lt_inv in Hlt; lia.
Qed.

(** The product of two binary64 numbers is a binary64 value; when it is a
    number, its sign is the product of the signs. *)
Lemma SFmul_valid (x y : spec_float) :
  valid_binary 53 1024 x = true -> valid_binary 53 1024 y = true ->
  valid_binary 53 1024 (SFmul 53 1024 x y) = true.
Proof.
  intros Hvx Hvy.
  destruct x as [sx|sx| |sx mx ex], y as [sy|sy| |sy my ey]; try reflexivity.
  apply valid_finite_digits in Hvx as (Hex & Hdx & Hx).
  apply valid_finite_digits in Hvy as (Hey & Hdy & Hy).
  unfold SFmul. std_ops.
  apply binary_round_aux_valid; [lia|].
  cbn [Zdigits2]. pose proof (digits2_mul_lower mx my).
  pose proof (digits2_pos_bounds mx) as [Hmx _]. pose proof (digits2_pos_bounds my) as [Hmy _].
  change (PosDef.Pos.mul mx my) with (mx * my)%positive.
  lia.
Qed.

Lemma SFmul_sign (sx sy : bool) (x : spec_float) (my : positive) (ey : Z) :
  valid_binary 53 1024 x = true ->
  valid_binary 53 1024 (S754_finite sy my ey) = true ->
  Float64.sign_is sx x = true ->
  Float64.sign_is (xorb sx sy) (SFmul 53 1024 x (S754_finite sy my ey)) = true.
Proof.
  intros Hvx Hvy Hsx.
  destruct x as [s|s| |s mx ex]; simpl in Hsx; try discriminate;
    apply eqb_prop in Hsx; subst s; try apply eqb_reflx.
  apply valid_finite_digits in Hvx as (Hex & Hdx & Hx).
  apply valid_finite_digits in Hvy as (Hey & Hdy & Hy).
  unfold SFmul. std_ops.
  apply binary_round_aux_valid; [lia|].
  cbn [Zdigits2]. pose proof (digits2_mul_lower mx my).
  pose proof (digits2_pos_bounds mx) as [Hmx _]. pose proof (digits2_pos_bounds my) as [Hmy _].
  change (PosDef.Pos.mul mx my) with (mx * my)%positive.
  lia.
Qed.

(** The quotient computed by the division has at least the digits the
    shift provides. *)
Lemma div_digits_lower (a b q r : Z) :
  0 < a -> 0 < b -> a = b * q + r -> 0 <= r < b ->
  Zdigits2 a - Zdigits2 b <= Zdigits2 q.
Proof.
  intros Ha Hb Hdiv Hr.
  assert (Hq : 0 <= q) by nia.
  destruct (Zdigits2_bounds a ltac:(lia)) as (Hda & _ & Halo). specialize (Halo Ha).
  destruct (Zdigits2_bounds b ltac:(lia)) as (Hdb & Hbhi & _).
  destruct (Zdigits2_bounds q Hq) as (Hdq & Hqhi & _).
  destruct (Z_le_gt_dec (Zdigits2 a - Zdigits2 b) (Zdigits2 q)) as [|Hgt]; [assumption|exfalso].
  assert (Hq1 : q + 1 <= 2 ^ Zdigits2 q) by lia.
  assert (Hmono : 2 ^ Zdigits2 q <= 2 ^ (Zdigits2 a - Zdigits2 b - 1))
    by (apply Z.pow_le_mono_r; lia).
  assert (Hsplit : 2 ^ (Zdigits2 a - 1) = 2 ^ (Zdigits2 a - Zdigits2 b - 1) * 2 ^ Zdigits2 b).
  { rewrite <- Z.pow_add_r by lia. f_equal. lia. }
  assert (Hpos : 0 < 2 ^ (Zdigits2 a - Zdigits2 b - 1)) by (apply Z.pow_pos_nonneg; lia).
  nia.
Qed.

Lemma Zdigits2_shift (m : positive) (s : positive) :
  Zdigits2 (Zpos m * 2 ^ Zpos s) = Zpos (digits2_pos m) + Zpos s.
Proof.
  pose proof (digits2_pos_bounds m) as [Hlo Hhi].
  assert (Hp : 0 < 2 ^ Zpos s) by (apply Z.pow_pos_nonneg; lia).
  destruct (Zpos m * 2 ^ Zpos s) as [|p|p] eqn:Hprod; try lia.
  simpl. apply digits2_pos_unique. rewrite <- Hprod.
  replace (Zpos (digits2_pos m) + Zpos s - 1) with (Zpos (digits2_pos m) - 1 + Zpos s) by lia.
  rewrite !Z.pow_add_r by lia. split; nia.
Qed.

(** What [SFdiv_core_binary] hands to the rounding satisfies its
    precondition. *)
Lemma SFdiv_core_binary_spec (mx my : positive) (ex ey : Z) :
  let '(q, e, l) := SFdiv_core_binary 53 1024 (Zpos mx) ex (Zpos my) ey in
  0 <= q /\ e <= Z.max (Zdigits2 q + e - 53) (-1074).
Proof.
  unfold SFdiv_core_binary. rewrite fexp64. std_ops.
  cbn [Zdigits2].
  set (d1 := Zpos (digits2_pos mx)). set (d2 := Zpos (digits2_pos my)).
  set (e' := Z.min (Z.max (d1 + ex - (d2 + ey) - 53) (-1074)) (ex - ey)).
  assert (Hs : 0 <= ex - ey - e') by (unfold e'; lia).
  destruct (ex - ey - e') as [|s|s] eqn:Hshift; try lia.
  - pose proof (Z_div_mod (Zpos mx) (Zpos my) ltac:(lia)) as Hdm.
    destruct (Z.div_eucl (Zpos mx) (Zpos my)) as [q r]. destruct Hdm as [Hdiv Hr].
    pose proof (div_digits_lower (Zpos mx) (Zpos my) q r ltac:(lia) ltac:(lia) Hdiv Hr) as Hd.
    cbn [Zdigits2] in Hd. fold d1 d2 in Hd.
    split; [nia|]. unfold e' in *. lia.
  - change (IntDef.Z.shiftl (Zpos mx) (Zpos s)) with (Z.shiftl (Zpos mx) (Zpos s)).
    rewrite Z.shiftl_mul_pow2 by lia.
    assert (Hp : 0 < 2 ^ Zpos s) by (apply Z.pow_pos_nonneg; lia).
    pose proof (Z_div_mod (Zpos mx * 2 ^ Zpos s) (Zpos my) ltac:(lia)) as Hdm.
    destruct (Z.div_eucl (Zpos mx * 2 ^ Zpos s) (Zpos my)) as [q r]. destruct Hdm as [Hdiv Hr].
    pose proof (div_digits_lower (Zpos mx * 2 ^ Zpos s) (Zpos my) q r
                  ltac:(lia) ltac:(lia) Hdiv Hr) as Hd.
    rewrite Zdigits2_shift in Hd. cbn [Zdigits2] in Hd. fold d1 d2 in Hd.
    split; [nia|]. unfold e' in *. lia.
Qed.

Lemma SFdiv_finite_valid (sx sy : bool) (mx my : positive) (ex ey : Z) :
  valid_binary 53 1024 (SFdiv 53 1024 (S754_finite sx mx ex) (S754_finite sy my ey)) = true
  /\ Float64.sign_is (xorb sx sy)
       (SFdiv 53 1024 (S754_finite sx mx ex) (S754_finite sy my ey)) = true.
Proof.
  unfold SFdiv.
  pose proof (SFdiv_core_binary_spec mx my ex ey) as Hcore.
  destruct (SFdiv_core_binary 53 1024 (Zpos mx) ex (Zpos my) ey) as [[q e] l].
  destruct Hcore as [Hq He]. now apply binary_round_aux_valid.
Qed.

Lemma SFdiv_valid (x y : spec_float) :
  valid_binary 53 1024 x = true -> valid_binary 53 1024 y = true ->
  valid_binary 53 1024 (SFdiv 53 1024 x y) = true.
Proof.
  intros Hvx Hvy.
  destruct x as [sx|sx| |sx mx ex], y as [sy|sy| |sy my ey]; try reflexivity.
  apply SFdiv_finite_valid.
Qed.

Lemma SFdiv_sign (sx sy : bool) (x : spec_float) (my : positive) (ey : Z) :
  Float64.sign_is sx x = true ->
  Float64.sign_is (xorb sx sy) (SFdiv 53 1024 x (S754_finite sy my ey)) = true.
Proof.
  intros Hsx.
  destruct x as [s|s| |s mx ex]; simpl in Hsx; try discriminate;
    apply eqb_prop in Hsx; subst s; try apply eqb_reflx.
  apply SFdiv_finite_valid.
Qed.

(** The conversion of an integer. *)
Lemma of_int_valid (n : Z) :
  Float64.valid (Float64.of_int n) = true
  /\ (0 <= n -> Float64.sign_is false (Float64.of_int n) = true).
Proof.
  unfold Float64.of_int, Float64.valid, binary_normalize, Float64.prec, Float64.emax.
  destruct n as [|p|p].
  - split; reflexivity.
  - split; [now apply binary_round_valid|intros _].
    destruct (binary_round_core false p 0 ltac:(lia))
      as (m1 & m2 & _ & _ & _ & _ & _ & [[_ ->]|[_ ->]]);
      destruct (_ <=? 971); reflexivity.
  - split; [now apply binary_round_valid|lia].
Qed.

(** The sum of two numbers that carry no minus sign carries none. *)
Lemma SFadd_sign (x y : spec_float) :
  valid_binary 53 1024 x = true -> valid_binary 53 1024 y = true ->
  Float64.sign_is false x = true -> Float64.sign_is false y = true ->
  Float64.sign_is false (SFadd 53 1024 x y) = true.
Proof.
  intros Hvx Hvy Hx Hy.
  destruct x as [sx|sx| |sx mx ex]; simpl in Hx; try discriminate;
    apply eqb_prop in Hx; subst sx;
    destruct y as [sy|sy| |sy my ey]; simpl in Hy; try discriminate;
    apply eqb_prop in Hy; subst sy; try reflexivity.
  apply valid_finite in Hvx as [Hcx _]. apply valid_finite in Hvy as [Hcy _].
  unfold SFadd. std_ops. unfold cond_Zopp.
  destruct (Zpos (fst (shl_align mx ex (Z.min ex ey))) + Zpos (fst (shl_align my ey (Z.min ex ey))))
    as [|M|M] eqn:Hsum; try lia.
  unfold binary_normalize.
  destruct (binary_round_core false M (Z.min ex ey) ltac:(lia))
    as (m1 & m2 & _ & _ & _ & _ & _ & [[_ ->]|[_ ->]]);
    destruct (_ <=? 971); reflexivity.
Qed.

Lemma sign_is_not_below_zero (x : spec_float) :
  Float64.sign_is false x = true -> SFltb x (S754_zero false) = false.
Proof.
  destruct x as [s|s| |s m e]; simpl; try discriminate; intros Hs;
    apply eqb_prop in Hs; subst s; reflexivity.
Qed.

(** ** The spend ledger, further *)

(** The estimate of a request with token counts that are not negative is
    a binary64 number that is not below zero. *)
Lemma unit_cost_valid (tokens : Z) (price : float64) :
  0 <= tokens ->
  (exists m e, price = S754_finite false m e) -> Float64.valid price = true ->
  Float64.valid (Float64.mul (Float64.div (Float64.of_int tokens) Float64.lit_1000_0) price) = true
  /\ Float64.sign_is false
       (Float64.mul (Float64.div (Float64.of_int tokens) Float64.lit_1000_0) price) = true.
Proof.
  intros Htokens (m & e & ->) Hprice.
  destruct (of_int_valid tokens) as [Hv Hs]. specialize (Hs Htokens).
  assert (Hthousand : Float64.valid Float64.lit_1000_0 = true) by (vm_compute; reflexivity).
  assert (Hdv : Float64.valid (Float64.div (Float64.of_int tokens) Float64.lit_1000_0) = true)
    by (now apply SFdiv_valid).
  assert (Hds : Float64.sign_is false
                  (Float64.div (Float64.of_int tokens) Float64.lit_1000_0) = true)
    by (now apply (SFdiv_sign false false)).
  split.
  - now apply SFmul_valid.
  - now apply (SFmul_sign false false).
Qed.

Lemma model_costs_valid (model : string) (input output : float64) :
  model_costs model = Some (input, output) ->
  ((exists m e, input = S754_finite false m e) /\ Float64.valid input = true)
  /\ ((exists m e, output = S754_finite false m e) /\ Float64.valid output = true).
Proof.
  unfold model_costs.
  repeat (destruct (String.eqb model _));
    intros [= <- <-] || discriminate;
    (split; (split; [eexists _, _; reflexivity|vm_compute; reflexivity])).
Qed.

Lemma EstimateLLMCost_sign (inputTokens outputTokens : Z) (model : string) :
  0 <= inputTokens -> 0 <= outputTokens ->
  Float64.valid (EstimateLLMCost inputTokens outputTokens model) = true
  /\ Float64.sign_is false (EstimateLLMCost inputTokens outputTokens model) = true.
Proof.
  intros Hin Hout. unfold EstimateLLMCost.
  assert (Hcosts : exists input output,
            match model_costs model with
            | Some c => c
            | None => (Float64.lit_0_003, Float64.lit_0_015)
            end = (input, output)
            /\ ((exists m e, input = S754_finite false m e) /\ Float64.valid input = true)
            /\ ((exists m e, output = S754_finite false m e) /\ Float64.valid output = true)).
  { destruct (model_costs model) as [[input output]|] eqn:Hm.
    - exists input, output. split; [reflexivity|]. now apply (model_costs_valid model).
    - exists Float64.lit_0_003, Float64.lit_0_015. split; [reflexivity|].
      split; (split; [eexists _, _; reflexivity|vm_compute; reflexivity]). }
  destruct Hcosts as (input & output & -> & [Hi Hvi] & [Ho Hvo]). cbn [fst snd].
  destruct (unit_cost_valid inputTokens input Hin Hi Hvi) as [Hv1 Hs1].
  destruct (unit_cost_valid outputTokens output Hout Ho Hvo) as [Hv2 Hs2].
  split.
  - now apply SFadd_valid.
  - now apply SFadd_sign.
Qed.

(** X1: the estimate of a request whose token counts are not negative is a
    binary64 number (never NaN) that is not below zero, whatever the model
    name; so it meets what the ledger needs of a cost for the accumulated
    cost not to drop. *)
Theorem EstimateLLMCost_is_a_cost (inputTokens outputTokens : Z) (model : string) :
  0 <= inputTokens -> 0 <= outputTokens ->
  Float64.valid (EstimateLLMCost inputTokens outputTokens model) = true
  /\ Float64.is_nan (EstimateLLMCost inputTokens outputTokens model) = false
  /\ Float64.ltb (EstimateLLMCost inputTokens outputTokens model) Float64.zero = false.
Proof.
  intros Hin Hout.
  destruct (EstimateLLMCost_sign inputTokens outputTokens model Hin Hout) as [Hv Hs].
  split; [exact Hv|]. split.
  - destruct (EstimateLLMCost _ _ _); try reflexivity. discriminate.
  - now apply sign_is_not_below_zero.
Qed.

Lemma EstimateLLMCost_is_a_cost_witness :
  Float64.valid (EstimateLLMCost 11 100 "anthropic.claude-3-sonnet-20240229-v1:0") = true
  /\ Float64.is_nan (EstimateLLMCost 11 100 "anthropic.claude-3-sonnet-20240229-v1:0") = false
  /\ Float64.ltb (EstimateLLMCost 11 100 "anthropic.claude-3-sonnet-20240229-v1:0")
       Float64.zero = false.
Proof.
  apply (EstimateLLMCost_is_a_cost 11 100 "anthropic.claude-3-sonnet-20240229-v1:0"); lia.
Defined.

Section LedgerSequences.
Context `{Externals} `{Oracle}.

Ltac ledger :=
  unfold CheckUserSpendLimit, RecordLLMRequest, RecordLLMRequest_read, RecordLLMRequest_write,
    GetUserSpendSummary, fresh_spend_record, getUserSpendRecord,
    saveUserSpendRecord, getDefaultDailyLimit, remote_call, time_Now, discard, wrap, bind, ret, fail.

(** The operation is its two parts run one after the other. *)
Lemma RecordLLMRequest_cut userID cost w :
  RecordLLMRequest userID cost w =
    (record <- RecordLLMRequest_read userID ;; RecordLLMRequest_write record cost) w.
Proof.
  ledger. simpl.
  destruct (fault (calls w)); simpl; [reflexivity|].
  destruct (spend_table w !! _); reflexivity.
Qed.

(** What a successful recording leaves in the table. *)
Lemma RecordLLMRequest_stores userID cost w :
  well_kept (spend_table w) ->
  fault (calls w) = None -> fault (S (calls w)) = None ->
  let today := format_date (clock (ticks w)) in
  let before := spend_table w !! (userID, today) in
  exists r w1,
    RecordLLMRequest userID cost w = (Ok tt, w1)
    /\ spend_table w1 = <[(userID, today) := r]> (spend_table w)
    /\ calls w1 = S (S (calls w))
    /\ (ticks w <= ticks w1)%nat
    /\ kms_log w1 = kms_log w
    /\ sr_UserID r = userID /\ sr_Date r = today
    /\ sr_LLMRequests r =
         wrap_int64 (match before with Some r0 => sr_LLMRequests r0 | None => 0 end + 1)
    /\ sr_LLMCost r =
         Float64.add (match before with Some r0 => sr_LLMCost r0 | None => Float64.zero end) cost
    /\ sr_DailyLimit r =
         match before with Some r0 => sr_DailyLimit r0 | None => Float64.lit_5_0 end.
Proof.
  intros Hwf Hnet0 Hnet1 today before. unfold before, today.
  ledger. simpl. rewrite Hnet0. simpl.
  destruct (spend_table w !! (userID, format_date (clock (ticks w)))) as [r0|] eqn:Hfound; simpl;
    rewrite Hnet1; simpl.
  - destruct (Hwf _ _ Hfound) as [Hkey _]. injection Hkey as Hu Hd.
    eexists _, _. split; [reflexivity|]. simpl. rewrite <- Hu, <- Hd.
    repeat split; auto with lia.
  - eexists _, _. split; [reflexivity|]. simpl. repeat split; auto with lia.
Qed.

(** X2: a recording that succeeds is read back by [GetUserSpendSummary] on
    the same day: one request more (in Go's [int]), the cost added to the
    accumulated one in binary64, the daily limit kept; a user without a
    record for today starts from zero requests, cost 0.0 and the default
    limit 5.0. *)
Theorem recorded_request_is_read_back userID cost w :
  well_kept (spend_table w) ->
  fault (calls w) = None -> fault (S (calls w)) = None -> fault (S (S (calls w))) = None ->
  (forall i, (ticks w <= i)%nat -> format_date (clock i) = format_date (clock (ticks w))) ->
  let today := format_date (clock (ticks w)) in
  let before := spend_table w !! (userID, today) in
  exists w1 r w2,
    RecordLLMRequest userID cost w = (Ok tt, w1)
    /\ GetUserSpendSummary userID w1 = (Ok (Some r), w2)
    /\ sr_UserID r = userID /\ sr_Date r = today
    /\ sr_LLMRequests r =
         wrap_int64 (match before with Some r0 => sr_LLMRequests r0 | None => 0 end + 1)
    /\ sr_LLMCost r =
         Float64.add (match before with Some r0 => sr_LLMCost r0 | None => Float64.zero end) cost
    /\ sr_DailyLimit r =
         match before with Some r0 => sr_DailyLimit r0 | None => Float64.lit_5_0 end.
Proof.
  intros Hwf Hnet0 Hnet1 Hnet2 Hday today before.
  destruct (RecordLLMRequest_stores userID cost w Hwf Hnet0 Hnet1)
    as (r & w1 & Hrun & Htable & Hcalls & Hticks & _ & Hfields).
  exists w1, r. eexists. split; [exact Hrun|]. split; [|exact Hfields].
  unfold GetUserSpendSummary, getUserSpendRecord, remote_call, time_Now, wrap, bind. simpl.
  rewrite Hcalls, Hnet2. simpl.
  rewrite (Hday _ Hticks), Htable, lookup_insert_eq. reflexivity.
Qed.

(** X3: a recording touches no entry but the user's entry of the day and
    nothing of the encryption service; when the read or the write fails,
    the error carries the prefixes of both layers and the table is as it
    was. *)
Theorem RecordLLMRequest_frame userID cost w :
  well_kept (spend_table w) ->
  let today := format_date (clock (ticks w)) in
  let out := RecordLLMRequest userID cost w in
  (forall k, k <> (userID, today) -> spend_table (snd out) !! k = spend_table w !! k)
  /\ kms_log (snd out) = kms_log w
  /\ (forall e, fault (calls w) = Some e ->
        fst out = Err ("failed to get user spend record: failed to get item: " ++ e)
        /\ spend_table (snd out) = spend_table w)
  /\ (forall e, fault (calls w) = None -> fault (S (calls w)) = Some e ->
        fst out = Err ("failed to save user spend record: failed to put item: " ++ e)
        /\ spend_table (snd out) = spend_table w)
  /\ (is_Err (fst out) = true -> spend_table (snd out) = spend_table w).
Proof.
  intros Hwf today out. unfold out, today. ledger. simpl.
  destruct (fault (calls w)) as [e0|] eqn:Hnet0; simpl.
  { repeat split; try reflexivity; intros; try congruence.
    match goal with Hx : Some _ = Some _ |- _ => injection Hx as -> end. reflexivity. }
  destruct (spend_table w !! (userID, format_date (clock (ticks w)))) as [r0|] eqn:Hfound; simpl;
    destruct (fault (S (calls w))) as [e1|] eqn:Hnet1; simpl.
  - repeat split; try reflexivity; intros; try congruence.
    match goal with Hx : Some _ = Some _ |- _ => injection Hx as -> end. reflexivity.
  - destruct (Hwf _ _ Hfound) as [Hkey _]. rewrite <- Hkey.
    repeat split; try reflexivity; intros; try congruence; try discriminate.
    now rewrite lookup_insert_ne by congruence.
  - repeat split; try reflexivity; intros; try congruence.
    match goal with Hx : Some _ = Some _ |- _ => injection Hx as -> end. reflexivity.
  - repeat split; try reflexivity; intros; try congruence; try discriminate.
    now rewrite lookup_insert_ne by congruence.
Qed.

(** X4: a request the admission check allows and whose cost is then
    recorded, with no other recording in between and on the same day,
    leaves the user's accumulated cost not above the daily limit: the sum
    the check compared is the sum that is stored. *)
Theorem admitted_request_stays_within_the_limit userID cost w res w1 :
  well_kept (spend_table w) ->
  fault (S (calls w)) = None -> fault (S (S (calls w))) = None ->
  (forall i, (ticks w <= i)%nat -> format_date (clock i) = format_date (clock (ticks w))) ->
  CheckUserSpendLimit userID cost w = (Ok res, w1) ->
  Allowed res = true ->
  exists r w2,
    RecordLLMRequest userID cost w1 = (Ok tt, w2)
    /\ spend_table w2 !! (userID, format_date (clock (ticks w))) = Some r
    /\ sr_LLMCost r = Float64.add (CurrentCost res) cost
    /\ sr_DailyLimit r = DailyLimit res
    /\ Float64.gtb (sr_LLMCost r) (sr_DailyLimit r) = false.
Proof.
  intros Hwf Hnet1 Hnet2 Hday Hcheck Hallowed.
  assert (Hw1 : spend_table w1 = spend_table w /\ calls w1 = S (calls w)
                /\ (ticks w <= ticks w1)%nat
                /\ fault (calls w) = None
                /\ CurrentCost res = match spend_table w !! (userID, format_date (clock (ticks w))) with
                                     | Some r0 => sr_LLMCost r0 | None => Float64.zero end
                /\ DailyLimit res = match spend_table w !! (userID, format_date (clock (ticks w))) with
                                    | Some r0 => sr_DailyLimit r0 | None => Float64.lit_5_0 end
                /\ Float64.gtb (Float64.add (CurrentCost res) cost) (DailyLimit res) = false).
  { revert Hcheck. ledger. simpl.
    destruct (fault (calls w)); simpl; [discriminate|].
    destruct (spend_table w !! _) as [r0|]; simpl;
      destruct (Float64.gtb _ _) eqn:Hgt; intros [= <- <-]; simpl in *;
      try discriminate; repeat split; auto with lia. }
  destruct Hw1 as (Htable & Hcalls & Hticks & Hnet0 & Hcur & Hlim & Hgt).
  assert (Hwf1 : well_kept (spend_table w1)) by (now rewrite Htable).
  destruct (RecordLLMRequest_stores userID cost w1 Hwf1
              ltac:(now rewrite Hcalls) ltac:(now rewrite Hcalls))
    as (r & w2 & Hrun & Htable2 & _ & _ & _ & _ & _ & _ & Hcost & Hlimit).
  rewrite (Hday _ Hticks), Htable in Htable2, Hcost, Hlimit.
  rewrite <- Hcur in Hcost. rewrite <- Hlim in Hlimit.
  exists r, w2. split; [exact Hrun|]. split; [now rewrite Htable2, lookup_insert_eq|].
  split; [exact Hcost|]. split; [exact Hlimit|]. now rewrite Hcost, Hlimit.
Qed.

(** X5: the ledger loses an update when two recordings for the same user
    interleave between their read and their write: both read the same
    record, and the second write replaces the first.  After the two, the
    table counts one request more, not two, and the accumulated cost holds
    the second cost only.  (The first conjunct ties the cut to the
    operation.) *)
Theorem interleaved_recordings_lose_an_update userID cost1 cost2 w :
  well_kept (spend_table w) ->
  fault (calls w) = None -> fault (S (calls w)) = None ->
  fault (S (S (calls w))) = None -> fault (S (S (S (calls w)))) = None ->
  (forall i, (ticks w <= i)%nat -> format_date (clock i) = format_date (clock (ticks w))) ->
  let today := format_date (clock (ticks w)) in
  let before := spend_table w !! (userID, today) in
  let requests := match before with Some r0 => sr_LLMRequests r0 | None => 0 end in
  let spent := match before with Some r0 => sr_LLMCost r0 | None => Float64.zero end in
  (forall cost w0, RecordLLMRequest userID cost w0 =
     (record <- RecordLLMRequest_read userID ;; RecordLLMRequest_write record cost) w0)
  /\ exists r w',
       (recordA <- RecordLLMRequest_read userID ;;
        recordB <- RecordLLMRequest_read userID ;;
        RecordLLMRequest_write recordA cost1 ;;;
        RecordLLMRequest_write recordB cost2) w = (Ok tt, w')
       /\ spend_table w' !! (userID, today) = Some r
       /\ sr_LLMRequests r = wrap_int64 (requests + 1)
       /\ sr_LLMCost r = Float64.add spent cost2.
Proof.
  intros Hwf Hnet0 Hnet1 Hnet2 Hnet3 Hday today before requests spent.
  split; [intros; apply RecordLLMRequest_cut|].
  unfold requests, spent, before, today. ledger. simpl.
  rewrite Hnet0. simpl.
  destruct (spend_table w !! (userID, format_date (clock (ticks w)))) as [r0|] eqn:Hfound; simpl.
  - rewrite Hnet1. simpl. rewrite (Hday (S (ticks w)) ltac:(lia)), Hfound. simpl.
    rewrite Hnet2. simpl. rewrite Hnet3. simpl.
    destruct (Hwf _ _ Hfound) as [Hkey _]. rewrite <- Hkey.
    eexists _, _. split; [reflexivity|]. simpl. rewrite lookup_insert_eq.
    split; [reflexivity|]. split; reflexivity.
  - rewrite Hnet1. simpl. rewrite (Hday (S (S (S (ticks w)))) ltac:(lia)), Hfound. simpl.
    rewrite Hnet2. simpl. rewrite Hnet3. simpl.
    eexists _, _. split; [reflexivity|]. simpl. rewrite lookup_insert_eq.
    split; [reflexivity|]. split; reflexivity.
Qed.

End LedgerSequences.

(** ** The encryption boundary, arrays *)

Section EncryptionArrays.
Context `{Externals} `{Oracle}.

(** The requests [EncryptPHIArray] sends for a list of plaintexts, latest
    first: one per element that is not empty. *)
Local Abbreviation encrypt_calls k plaintexts :=
  (rev (map (fun p => KmsEncryptCall (keyID k) p phi_context)
          (filter (fun p => p <> "") plaintexts))).

Local Abbreviation decrypt_calls blobs :=
  (rev (map (fun b => KmsDecryptCall b phi_context) blobs)).

Lemma append_assoc (a b c : string) : (a ++ b) ++ c = a ++ b ++ c.
Proof.
  induction a as [|x a IH]; [reflexivity|].
  change (String x ((a ++ b) ++ c) = String x (a ++ b ++ c)). now rewrite IH.
Qed.

Lemma EncryptPHI_cases k p w :
  (p = "" /\ EncryptPHI k p w = (Ok "", w))
  \/ (p <> "" /\ exists blob, kms_Encrypt (keyID k) p phi_context = Ok blob
        /\ EncryptPHI k p w =
             (Ok (base64_EncodeToString blob),
              set_kms_log (KmsEncryptCall (keyID k) p phi_context :: kms_log w) w))
  \/ (p <> "" /\ exists e, kms_Encrypt (keyID k) p phi_context = Err e
        /\ EncryptPHI k p w =
             (Err ("failed to encrypt PHI: " ++ e),
              set_kms_log (KmsEncryptCall (keyID k) p phi_context :: kms_log w) w)).
Proof.
  unfold EncryptPHI. destruct (String.eqb p "") eqn:Hp.
  - apply String.eqb_eq in Hp. left. now subst.
  - apply String.eqb_neq in Hp. right.
    unfold wrap, client_Encrypt, bind, ret. simpl.
    destruct (kms_Encrypt (keyID k) p phi_context) as [blob|e].
    + left. split; [exact Hp|]. now exists blob.
    + right. split; [exact Hp|]. now exists e.
Qed.

Lemma set_kms_log_twice l l' w : set_kms_log l (set_kms_log l' w) = set_kms_log l w.
Proof. reflexivity. Qed.

Lemma set_kms_log_same w : set_kms_log (kms_log w) w = w.
Proof. now destruct w. Qed.

(** The loop on success: one output per input, empty for empty, and the
    requests sent. *)
Lemma encrypt_elements_ok k : forall plaintexts i w encrypted w',
  encrypt_elements k i plaintexts w = (Ok encrypted, w') ->
  length encrypted = length plaintexts
  /\ w' = set_kms_log (encrypt_calls k plaintexts ++ kms_log w) w
  /\ Forall2 (fun p c =>
        (p = "" /\ c = "")
        \/ (p <> "" /\ exists blob, kms_Encrypt (keyID k) p phi_context = Ok blob
                                    /\ c = base64_EncodeToString blob))
       plaintexts encrypted.
Proof.
  induction plaintexts as [|p rest IH]; intros i w encrypted w' Hrun.
  - injection Hrun as <- <-. simpl. rewrite set_kms_log_same. repeat split. constructor.
  - simpl in Hrun. unfold bind at 1, wrap at 1 in Hrun.
    destruct (EncryptPHI_cases k p w) as [[-> Hp]|[(Hne & blob & Henc & Hp)|(Hne & e & Henc & Hp)]];
      rewrite Hp in Hrun; [| |discriminate].
    + unfold bind at 1 in Hrun.
      destruct (encrypt_elements k (i + 1) rest w) as [[encs|e] w1] eqn:Hrest; [|discriminate].
      injection Hrun as <- <-.
      destruct (IH _ _ _ _ Hrest) as (Hlen & Hw & Hall).
      rewrite filter_cons_False by (intros Hx; now apply Hx).
      simpl. split; [now rewrite Hlen|]. split; [exact Hw|].
      constructor; [left; now split|exact Hall].
    + unfold bind at 1 in Hrun.
      destruct (encrypt_elements k (i + 1) rest _) as [[encs|e] w1] eqn:Hrest; [|discriminate].
      injection Hrun as <- <-.
      destruct (IH _ _ _ _ Hrest) as (Hlen & Hw & Hall).
      rewrite filter_cons_True by exact Hne.
      simpl. split; [now rewrite Hlen|]. split.
      * rewrite Hw. simpl. rewrite set_kms_log_twice. now rewrite <- app_assoc.
      * constructor; [right; split; [exact Hne|now exists blob]|exact Hall].
Qed.

(** The loop up to the first element the service refuses. *)
Lemma encrypt_elements_rejected k : forall before i w p after e,
  Forall (fun q => q = "" \/ is_Ok (kms_Encrypt (keyID k) q phi_context) = true) before ->
  p <> "" -> kms_Encrypt (keyID k) p phi_context = Err e ->
  encrypt_elements k i (before ++ p :: after) w =
    (Err ("failed to encrypt array element " ++ sprintf_d (i + Z.of_nat (length before))
          ++ ": failed to encrypt PHI: " ++ e),
     set_kms_log (KmsEncryptCall (keyID k) p phi_context
                    :: encrypt_calls k before ++ kms_log w) w).
Proof.
  induction before as [|q before IH]; intros i w p after e Hbefore Hp He.
  - simpl. unfold bind at 1, wrap at 1.
    destruct (EncryptPHI_cases k p w) as [[-> _]|[(_ & blob & Henc & _)|(_ & e' & Henc & Hrun)]];
      [contradiction|congruence|].
    rewrite Hrun. rewrite He in Henc. injection Henc as <-.
    rewrite Z.add_0_r, !append_assoc. reflexivity.
  - apply Forall_cons in Hbefore as [Hq Hbefore].
    simpl app. cbn [encrypt_elements]. unfold bind at 1, wrap at 1.
    destruct (EncryptPHI_cases k q w) as [[-> Hrun]|[(Hne & blob & Henc & Hrun)|(Hne & e' & Henc & _)]].
    + rewrite Hrun. unfold bind at 1.
      rewrite (IH (i + 1) w p after e Hbefore Hp He).
      rewrite filter_cons_False by (intros Hx; now apply Hx).
      simpl length. replace (i + 1 + Z.of_nat (length before))
        with (i + Z.of_nat (S (length before))) by lia. reflexivity.
    + rewrite Hrun. unfold bind at 1.
      rewrite (IH (i + 1) _ p after e Hbefore Hp He).
      rewrite filter_cons_True by exact Hne.
      simpl length. replace (i + 1 + Z.of_nat (length before))
        with (i + Z.of_nat (S (length before))) by lia.
      simpl. rewrite set_kms_log_twice. now rewrite <- app_assoc.
    + destruct Hq as [->|Hq]; [contradiction|]. rewrite Henc in Hq. discriminate.
Qed.

Lemma EncryptPHIArray_is_the_loop k plaintexts w :
  EncryptPHIArray k plaintexts w = encrypt_elements k 0 plaintexts w.
Proof. now destruct plaintexts. Qed.

Lemma DecryptPHIArray_is_the_loop k ciphertexts w :
  DecryptPHIArray k ciphertexts w = decrypt_elements k 0 ciphertexts w.
Proof. now destruct ciphertexts. Qed.

(** The loop succeeds when the service accepts every element that is
    not empty. *)
Lemma encrypt_elements_accepts k : forall plaintexts i w,
  Forall (fun q => q = "" \/ is_Ok (kms_Encrypt (keyID k) q phi_context) = true) plaintexts ->
  exists encrypted w', encrypt_elements k i plaintexts w = (Ok encrypted, w').
Proof.
  induction plaintexts as [|p rest IH]; intros i w Hall.
  - now eexists _, _.
  - apply Forall_cons in Hall as [Hp Hrest].
    cbn [encrypt_elements]. unfold bind at 1, wrap at 1.
    destruct (EncryptPHI_cases k p w) as [[-> Hrun]|[(Hne & blob & Henc & Hrun)|(Hne & e & Henc & _)]].
    + rewrite Hrun. unfold bind at 1.
      destruct (IH (i + 1) w Hrest) as (encs & w' & ->). now eexists _, _.
    + rewrite Hrun. unfold bind at 1.
      destruct (IH (i + 1) (set_kms_log (KmsEncryptCall (keyID k) p phi_context :: kms_log w) w)
                  Hrest) as (encs & w' & ->).
      now eexists _, _.
    + destruct Hp as [->|Hp]; [contradiction|]. rewrite Henc in Hp. discriminate.
Qed.

(** X6: [EncryptPHIArray] succeeds exactly when the service accepts every
    element that is not empty.  It then returns one ciphertext per
    plaintext, in order, the empty string for an empty plaintext and the
    base64 text of the service's answer otherwise; the service has
    received exactly the plaintexts that are not empty, in order, each
    under the client's key and the PHI encryption context; nothing else
    of the world has changed. *)
Theorem EncryptPHIArray_success k plaintexts w :
  (is_Ok (fst (EncryptPHIArray k plaintexts w)) = true <->
   Forall (fun q => q = "" \/ is_Ok (kms_Encrypt (keyID k) q phi_context) = true) plaintexts)
  /\ forall encrypted w',
       EncryptPHIArray k plaintexts w = (Ok encrypted, w') ->
       length encrypted = length plaintexts
       /\ w' = set_kms_log (encrypt_calls k plaintexts ++ kms_log w) w
       /\ Forall2 (fun p c =>
             (p = "" /\ c = "")
             \/ (p <> "" /\ exists blob, kms_Encrypt (keyID k) p phi_context = Ok blob
                                         /\ c = base64_EncodeToString blob))
            plaintexts encrypted.
Proof.
  rewrite EncryptPHIArray_is_the_loop. split; [split|].
  - destruct (encrypt_elements k 0 plaintexts w) as [[encrypted|e] w'] eqn:Hrun; [|discriminate].
    intros _. apply encrypt_elements_ok in Hrun as (_ & _ & Hall).
    clear w'. induction Hall as [|p c ps cs Hpc Hall IH]; constructor; [|exact IH].
    destruct Hpc as [[-> _]|(_ & blob & -> & _)]; [now left|now right].
  - intros Hall. destruct (encrypt_elements_accepts k plaintexts 0 w Hall) as (encs & w' & ->).
    reflexivity.
  - apply encrypt_elements_ok.
Qed.

(** X7: [EncryptPHIArray] stops at the first element the service refuses:
    the error names the index of that element and wraps the service's
    error, no ciphertext is returned, and no later element has been sent
    to the service. *)
Theorem EncryptPHIArray_first_rejection k before p after e w :
  Forall (fun q => q = "" \/ is_Ok (kms_Encrypt (keyID k) q phi_context) = true) before ->
  p <> "" -> kms_Encrypt (keyID k) p phi_context = Err e ->
  EncryptPHIArray k (before ++ p :: after) w =
    (Err ("failed to encrypt array element " ++ sprintf_d (Z.of_nat (length before))
          ++ ": failed to encrypt PHI: " ++ e),
     set_kms_log (KmsEncryptCall (keyID k) p phi_context
                    :: encrypt_calls k before ++ kms_log w) w).
Proof.
  intros Hbefore Hp He. rewrite EncryptPHIArray_is_the_loop.
  now rewrite (encrypt_elements_rejected k before 0 w p after e Hbefore Hp He).
Qed.

Section FaithfulService.
(** An encryption service that decrypts, under the same context, what it
    encrypted and never answers an empty blob, and a base64 codec that
    round-trips. *)
Hypothesis service : forall keyId p ctx blob,
  kms_Encrypt keyId p ctx = Ok blob -> kms_Decrypt blob ctx = Ok p /\ blob <> "".
Hypothesis codec : forall b, base64_DecodeString (base64_EncodeToString b) = Ok b.
Hypothesis codec_nonempty : forall b, base64_EncodeToString b = "" -> b = "".

Lemma DecryptPHI_of_encrypted k p blob w :
  kms_Encrypt (keyID k) p phi_context = Ok blob ->
  DecryptPHI k (base64_EncodeToString blob) w =
    (Ok p, set_kms_log (KmsDecryptCall blob phi_context :: kms_log w) w).
Proof.
  intros Henc. destruct (service _ _ _ _ Henc) as [Hdec Hne].
  unfold DecryptPHI.
  destruct (String.eqb (base64_EncodeToString blob) "") eqn:Hc.
  { apply String.eqb_eq, codec_nonempty in Hc. contradiction. }
  unfold wrap, client_Decrypt, bind, ret. simpl. rewrite codec. simpl. now rewrite Hdec.
Qed.

Lemma decrypt_elements_of_encrypted k : forall plaintexts encrypted i w,
  Forall2 (fun p c =>
        (p = "" /\ c = "")
        \/ (p <> "" /\ exists blob, kms_Encrypt (keyID k) p phi_context = Ok blob
                                    /\ c = base64_EncodeToString blob))
       plaintexts encrypted ->
  fst (decrypt_elements k i encrypted w) = Ok plaintexts.
Proof.
  intros plaintexts encrypted i w Hall. revert i w.
  induction Hall as [|p c ps cs Hpc Hall IH]; intros i w; [reflexivity|].
  cbn [decrypt_elements]. unfold bind at 1, wrap at 1.
  destruct Hpc as [[-> ->]|(Hne & blob & Henc & ->)].
  - change (DecryptPHI k "" w) with (@Ok string "", w).
    unfold bind at 1. specialize (IH (i + 1) w).
    destruct (decrypt_elements k (i + 1) cs w) as [[decs|e] w1]; simpl in IH; [|discriminate].
    injection IH as ->. reflexivity.
  - rewrite (DecryptPHI_of_encrypted k p blob w Henc).
    unfold bind at 1.
    specialize (IH (i + 1) (set_kms_log (KmsDecryptCall blob phi_context :: kms_log w) w)).
    destruct (decrypt_elements k (i + 1) cs _) as [[decs|e] w1]; simpl in IH; [|discriminate].
    injection IH as ->. reflexivity.
Qed.

(** X8: with a faithful service, [EncryptPHIArray] followed by
    [DecryptPHIArray] gives the plaintexts back, element for element and
    empty strings included, for every list whose elements the service
    accepts. *)
Theorem encrypted_array_decrypts_back k plaintexts w :
  Forall (fun q => q = "" \/ is_Ok (kms_Encrypt (keyID k) q phi_context) = true) plaintexts ->
  exists encrypted w',
    EncryptPHIArray k plaintexts w = (Ok encrypted, w')
    /\ length encrypted = length plaintexts
    /\ forall w'', fst (DecryptPHIArray k encrypted w'') = Ok plaintexts.
Proof.
  intros Hall. rewrite EncryptPHIArray_is_the_loop.
  destruct (encrypt_elements_accepts k plaintexts 0 w Hall) as (encrypted & w' & Hrun).
  exists encrypted, w'. split; [exact Hrun|].
  apply encrypt_elements_ok in Hrun as (Hlen & _ & Hpairs).
  split; [exact Hlen|]. intros w''.
  rewrite DecryptPHIArray_is_the_loop. now apply decrypt_elements_of_encrypted.
Qed.

End FaithfulService.

Lemma DecryptPHI_cases k c w :
  (c = "" /\ DecryptPHI k c w = (Ok "", w))
  \/ (c <> "" /\ exists e, base64_DecodeString c = Err e
        /\ DecryptPHI k c w = (Err ("failed to decode ciphertext: " ++ e), w))
  \/ (c <> "" /\ exists blob, base64_DecodeString c = Ok blob
        /\ DecryptPHI k c w =
             (match kms_Decrypt blob phi_context with
              | Ok p => Ok p
              | Err e => Err ("failed to decrypt PHI: " ++ e)
              end,
              set_kms_log (KmsDecryptCall blob phi_context :: kms_log w) w)).
Proof.
  unfold DecryptPHI. destruct (String.eqb c "") eqn:Hc.
  - apply String.eqb_eq in Hc. left. now subst.
  - apply String.eqb_neq in Hc. right.
    unfold wrap, client_Decrypt, bind, ret. simpl.
    destruct (base64_DecodeString c) as [blob|e].
    + right. split; [exact Hc|]. exists blob. split; [reflexivity|].
      now destruct (kms_Decrypt blob phi_context).
    + left. split; [exact Hc|]. now exists e.
Qed.

(** The loop up to the first element that is not base64 text. *)
Lemma decrypt_elements_undecodable k : forall before i w c after e,
  Forall (fun q => q = "" \/
            exists blob, base64_DecodeString q = Ok blob
                         /\ is_Ok (kms_Decrypt blob phi_context) = true) before ->
  c <> "" -> base64_DecodeString c = Err e ->
  exists w',
    decrypt_elements k i (before ++ c :: after) w =
      (Err ("failed to decrypt array element " ++ sprintf_d (i + Z.of_nat (length before))
            ++ ": failed to decode ciphertext: " ++ e), w')
    /\ spend_table w' = spend_table w
    /\ exists blobs, kms_log w' = (decrypt_calls blobs ++ kms_log w)%list
         /\ Forall2 (fun q blob => base64_DecodeString q = Ok blob)
              (filter (fun q => q <> "") before) blobs.
Proof.
  induction before as [|q before IH]; intros i w c after e Hbefore Hc He.
  - simpl. unfold bind at 1, wrap at 1.
    destruct (DecryptPHI_cases k c w) as [[-> _]|[(_ & e' & Hdec & Hrun)|(_ & blob & Hdec & _)]];
      [contradiction| |congruence].
    rewrite Hrun. rewrite He in Hdec. injection Hdec as <-.
    rewrite Z.add_0_r, !append_assoc. eexists. split; [reflexivity|]. split; [reflexivity|].
    exists []. split; [reflexivity|constructor].
  - apply Forall_cons in Hbefore as [Hq Hbefore].
    simpl app. cbn [decrypt_elements]. unfold bind at 1, wrap at 1.
    simpl length. replace (i + Z.of_nat (S (length before)))
      with (i + 1 + Z.of_nat (length before)) by lia.
    destruct (DecryptPHI_cases k q w) as [[-> Hrun]|[(Hne & e' & Hdec & _)|(Hne & blob & Hdec & Hrun)]].
    + rewrite Hrun. unfold bind at 1.
      destruct (IH (i + 1) w c after e Hbefore Hc He) as (w' & -> & Htable & blobs & Hlog & Hall).
      exists w'. split; [reflexivity|]. split; [exact Htable|].
      exists blobs. split; [exact Hlog|].
      now rewrite filter_cons_False by (intros Hx; now apply Hx).
    + destruct Hq as [->|(blob & Hq & _)]; [contradiction|congruence].
    + destruct Hq as [->|(blob' & Hq & Hok)]; [contradiction|].
      rewrite Hdec in Hq. injection Hq as <-.
      rewrite Hrun. destruct (kms_Decrypt blob phi_context) as [p|e'] eqn:Hkms; [|discriminate].
      unfold bind at 1.
      destruct (IH (i + 1) (set_kms_log (KmsDecryptCall blob phi_context :: kms_log w) w)
                  c after e Hbefore Hc He) as (w' & -> & Htable & blobs & Hlog & Hall).
      exists w'. split; [reflexivity|]. split; [exact Htable|].
      exists (blob :: blobs). split.
      * rewrite Hlog. simpl. now rewrite <- app_assoc.
      * rewrite filter_cons_True by exact Hne. now constructor.
Qed.

(** X9: a ciphertext that is not base64 text makes [DecryptPHI] fail
    before anything is sent to the service, and [DecryptPHIArray] reports
    it with the index of the element: the elements before it have been
    sent for decryption, in order, and nothing after them. *)
Theorem DecryptPHIArray_undecodable_element k before c after e w :
  Forall (fun q => q = "" \/
            exists blob, base64_DecodeString q = Ok blob
                         /\ is_Ok (kms_Decrypt blob phi_context) = true) before ->
  c <> "" -> base64_DecodeString c = Err e ->
  DecryptPHI k c w = (Err ("failed to decode ciphertext: " ++ e), w)
  /\ exists w',
       DecryptPHIArray k (before ++ c :: after) w =
         (Err ("failed to decrypt array element " ++ sprintf_d (Z.of_nat (length before))
               ++ ": failed to decode ciphertext: " ++ e), w')
       /\ exists blobs, kms_log w' = (decrypt_calls blobs ++ kms_log w)%list
            /\ Forall2 (fun q blob => base64_DecodeString q = Ok blob)
                 (filter (fun q => q <> "") before) blobs.
Proof.
  intros Hbefore Hc He. split.
  - destruct (DecryptPHI_cases k c w) as [[-> _]|[(_ & e' & Hdec & Hrun)|(_ & blob & Hdec & _)]];
      [contradiction| |congruence].
    rewrite He in Hdec. injection Hdec as <-. exact Hrun.
  - rewrite DecryptPHIArray_is_the_loop.
    destruct (decrypt_elements_undecodable k before 0 w c after e Hbefore Hc He)
      as (w' & Hrun & _ & Hlog).
    exists w'. split; [exact Hrun|exact Hlog].
Qed.

End EncryptionArrays.

(** ** The journal closure, further *)

Section JournalClosure.
Context `{Externals} `{Oracle}.

Local Abbreviation estimate req :=
  (EstimateLLMCost (Z.of_nat (String.length (req_Content req))) 100
     "anthropic.claude-3-sonnet-20240229-v1:0").

Lemma EncryptPHI_frame k p w :
  spend_table (snd (EncryptPHI k p w)) = spend_table w.
Proof.
  destruct (EncryptPHI_cases k p w) as [[_ ->]|[(_ & ? & _ & ->)|(_ & ? & _ & ->)]]; reflexivity.
Qed.

Lemma encrypt_elements_frame k : forall plaintexts i w,
  spend_table (snd (encrypt_elements k i plaintexts w)) = spend_table w.
Proof.
  induction plaintexts as [|p rest IH]; intros i w; [reflexivity|].
  cbn [encrypt_elements]. unfold bind at 1, wrap at 1.
  pose proof (EncryptPHI_frame k p w) as Hp.
  destruct (EncryptPHI k p w) as [[c|e] w1]; simpl in Hp; [|exact Hp].
  unfold bind at 1. specialize (IH (i + 1) w1).
  destruct (encrypt_elements k (i + 1) rest w1) as [[cs|e] w2]; simpl in *; congruence.
Qed.

(** Where the spend table of the closure's final world comes from: it is
    the one the closure started with, or the one a recording of the
    estimate left behind; it is the former whenever the closure fails. *)
Lemma processJournalEntry_ledger userID req kmsService w :
  let out := processJournalEntry userID req kmsService w in
  spend_table (snd out) = spend_table w
  \/ (is_Ok (fst out) = true
      /\ exists w0, spend_table w0 = spend_table w
           /\ spend_table (snd out) =
                spend_table (snd (RecordLLMRequest userID (estimate req) w0))).
Proof.
  intros out. assert (Hout : out = processJournalEntry userID req kmsService w) by reflexivity.
  clearbody out. revert Hout.
  unfold processJournalEntry. unfold bind at 1, wrap at 1. cbv beta.
  destruct (CheckUserSpendLimit_reads_only userID (estimate req) w) as [Hcheck _].
  destruct (CheckUserSpendLimit userID (estimate req) w) as [[res|e] w1]; simpl in Hcheck;
    [|intros ->; now left].
  destruct (Allowed res); cbn [negb]; cbv beta iota; [|intros ->; now left].
  unfold bind at 1, wrap at 1. cbv beta.
  pose proof (EncryptPHI_frame kmsService (req_Content req) w1) as Hcontent.
  destruct (EncryptPHI kmsService (req_Content req) w1) as [[c|e] w2]; simpl in Hcontent;
    [|intros ->; left; simpl; congruence].
  unfold bind at 1, wrap at 1. cbv beta.
  pose proof (EncryptPHI_frame kmsService (req_Mood req) w2) as Hmood.
  destruct (EncryptPHI kmsService (req_Mood req) w2) as [[m|e] w3]; simpl in Hmood;
    [|intros ->; left; simpl; congruence].
  unfold bind at 1, wrap at 1. cbv beta.
  pose proof (encrypt_elements_frame kmsService (req_Tags req) 0 w3) as Htags.
  rewrite <- EncryptPHIArray_is_the_loop in Htags.
  destruct (EncryptPHIArray kmsService (req_Tags req) w3) as [[t|e] w4]; simpl in Htags;
    [|intros ->; left; simpl; congruence].
  intros ->. right. split; [reflexivity|].
  unfold generateID, time_Now, discard, bind, ret. simpl.
  eexists. split; [|reflexivity]. simpl. congruence.
Qed.

(** X10: a closure that fails has recorded no cost: the spend table is the
    one it started with.  (It fails only in the admission check or at the
    encryption service, both before the recording.) *)
Theorem failed_closure_records_no_cost userID req kmsService w :
  is_Err (fst (processJournalEntry userID req kmsService w)) = true ->
  spend_table (snd (processJournalEntry userID req kmsService w)) = spend_table w.
Proof.
  intros Hfail.
  destruct (processJournalEntry_ledger userID req kmsService w) as [Hsame|[Hok _]];
    [exact Hsame|].
  unfold is_Err in Hfail. rewrite Hok in Hfail. discriminate.
Qed.

(** A recording of a cost that is not below zero lowers no accumulated
    cost. *)
Lemma RecordLLMRequest_not_below userID cost w k r' :
  Float64.valid cost = true ->
  Float64.ltb cost Float64.zero = false ->
  well_kept (spend_table w) ->
  spend_table (snd (RecordLLMRequest userID cost w)) !! k = Some r' ->
  Float64.ltb (sr_LLMCost r')
    (match spend_table w !! k with
     | Some r => sr_LLMCost r
     | None => Float64.zero
     end) = false.
Proof.
  intros Hvalid Hnonneg Hwf.
  assert (Hsame : spend_table w !! k = Some r' ->
                  Float64.ltb (sr_LLMCost r')
                    (match spend_table w !! k with
                     | Some r => sr_LLMCost r
                     | None => Float64.zero
                     end) = false).
  { intros ->. apply SFcompare_refl_not_Lt. }
  destruct (fault (calls w)) as [e|] eqn:Hnet0;
    [|destruct (fault (S (calls w))) as [e|] eqn:Hnet1].
  - unfold RecordLLMRequest, getUserSpendRecord, remote_call, time_Now, wrap, bind. simpl.
    now rewrite Hnet0.
  - unfold RecordLLMRequest, fresh_spend_record, getUserSpendRecord, saveUserSpendRecord,
      remote_call, time_Now, wrap, bind, ret. simpl.
    rewrite Hnet0. simpl. destruct (spend_table w !! (userID, _)); simpl; now rewrite Hnet1.
  - destruct (RecordLLMRequest_stores userID cost w Hwf Hnet0 Hnet1)
      as (r & w1 & -> & Htable & _ & _ & _ & _ & _ & _ & Hcost & _).
    simpl. rewrite Htable. destruct (decide (k = (userID, format_date (clock (ticks w))))) as [->|Hne].
    + rewrite lookup_insert_eq. intros [= <-]. rewrite Hcost.
      destruct (spend_table w !! _) as [r0|] eqn:Hfound.
      * apply SFadd_nonneg_not_below; try assumption. now destruct (Hwf _ _ Hfound).
      * now apply SFadd_nonneg_not_below.
    + now rewrite lookup_insert_ne by congruence.
Qed.

(** X11: the closure never lowers an accumulated cost, whatever the request
    and whatever fails: on a well-kept table, every entry of the table it
    leaves holds a cost that is not below the one the entry held before
    (0.0 where there was none), and the table is still well kept.  The
    cost it records is its own estimate, which is a binary64 number not
    below zero. *)
Theorem closure_never_lowers_an_accumulated_cost userID req kmsService w :
  well_kept (spend_table w) ->
  let w' := snd (processJournalEntry userID req kmsService w) in
  well_kept (spend_table w')
  /\ forall k r', spend_table w' !! k = Some r' ->
       Float64.ltb (sr_LLMCost r')
         (match spend_table w !! k with
          | Some r => sr_LLMCost r
          | None => Float64.zero
          end) = false.
Proof.
  intros Hwf w'. unfold w'.
  destruct (EstimateLLMCost_sign (Z.of_nat (String.length (req_Content req))) 100
              "anthropic.claude-3-sonnet-20240229-v1:0" ltac:(lia) ltac:(lia)) as [Hv Hs].
  apply sign_is_not_below_zero in Hs.
  destruct (processJournalEntry_ledger userID req kmsService w)
    as [Hsame|(_ & w0 & Hw0 & Hrec)].
  - rewrite Hsame. split; [exact Hwf|].
    intros k r' ->. apply SFcompare_refl_not_Lt.
  - rewrite Hrec. rewrite <- Hw0 in *. split.
    + now apply RecordLLMRequest_well_kept.
    + intros k r'. now apply RecordLLMRequest_not_below.
Qed.

Section FaithfulService.
Hypothesis service : forall keyId p ctx blob,
  kms_Encrypt keyId p ctx = Ok blob -> kms_Decrypt blob ctx = Ok p /\ blob <> "".
Hypothesis codec : forall b, base64_DecodeString (base64_EncodeToString b) = Ok b.
Hypothesis codec_nonempty : forall b, base64_EncodeToString b = "" -> b = "".

Lemma EncryptPHI_decrypts_back k p w :
  p = "" \/ is_Ok (kms_Encrypt (keyID k) p phi_context) = true ->
  exists c w', EncryptPHI k p w = (Ok c, w')
    /\ forall w'', fst (DecryptPHI k c w'') = Ok p.
Proof.
  intros Hp.
  destruct (EncryptPHI_cases k p w) as [[-> Hrun]|[(Hne & blob & Henc & Hrun)|(Hne & e & Henc & _)]].
  - eexists _, _. split; [exact Hrun|]. reflexivity.
  - eexists _, _. split; [exact Hrun|]. intros w''.
    now rewrite (DecryptPHI_of_encrypted service codec codec_nonempty k p blob w'' Henc).
  - destruct Hp as [->|Hp]; [contradiction|]. rewrite Henc in Hp. discriminate.
Qed.

(** X12: an admitted request whose content, mood and tags the service
    accepts is answered with an encrypted entry that carries the caller's
    user id and whose fields decrypt back to the request's, with a
    faithful service; this holds whether or not the recording of the cost
    succeeds, since its error is only logged. *)
Theorem admitted_request_is_encrypted userID req kmsService w costCheck w1 :
  CheckUserSpendLimit userID (estimate req) w = (Ok costCheck, w1) ->
  Allowed costCheck = true ->
  Forall (fun q => q = "" \/ is_Ok (kms_Encrypt (keyID kmsService) q phi_context) = true)
    (req_Content req :: req_Mood req :: req_Tags req) ->
  exists entry w',
    processJournalEntry userID req kmsService w = (Ok entry, w')
    /\ je_UserID entry = userID
    /\ je_Encrypted entry = true
    /\ length (je_Tags entry) = length (req_Tags req)
    /\ forall w'',
         fst (DecryptPHI kmsService (je_Content entry) w'') = Ok (req_Content req)
         /\ fst (DecryptPHI kmsService (je_Mood entry) w'') = Ok (req_Mood req)
         /\ fst (DecryptPHIArray kmsService (je_Tags entry) w'') = Ok (req_Tags req).
Proof.
  intros Hcheck Hallowed Haccepted.
  apply Forall_cons in Haccepted as [Hcontent Haccepted].
  apply Forall_cons in Haccepted as [Hmood Htags].
  unfold processJournalEntry. unfold bind at 1, wrap at 1. cbv beta.
  rewrite Hcheck, Hallowed. cbn [negb]. cbv beta iota.
  unfold bind at 1, wrap at 1. cbv beta.
  destruct (EncryptPHI_decrypts_back kmsService (req_Content req) w1 Hcontent)
    as (c & w2 & -> & Hc).
  unfold bind at 1, wrap at 1. cbv beta.
  destruct (EncryptPHI_decrypts_back kmsService (req_Mood req) w2 Hmood)
    as (m & w3 & -> & Hm).
  unfold bind at 1, wrap at 1. cbv beta.
  rewrite EncryptPHIArray_is_the_loop.
  destruct (encrypt_elements_accepts kmsService (req_Tags req) 0 w3 Htags) as (t & w4 & Hrun).
  rewrite Hrun. apply encrypt_elements_ok in Hrun as (Hlen & _ & Hpairs).
  assert (Ht : forall w'', fst (DecryptPHIArray kmsService t w'') = Ok (req_Tags req)).
  { intros w''. rewrite DecryptPHIArray_is_the_loop.
    now apply (decrypt_elements_of_encrypted service codec codec_nonempty). }
  unfold generateID, time_Now, discard, bind, ret. simpl.
  eexists _, _. split; [reflexivity|]. simpl.
  split; [reflexivity|]. split; [reflexivity|]. split; [exact Hlen|].
  intros w''. split; [apply Hc|]. split; [apply Hm|apply Ht].
Qed.

End FaithfulService.

End JournalClosure.

(** ** The idempotency coordinator, further *)

Section CoordinatorOutcomes.
Context `{Externals} `{Oracle}.

Ltac service :=
  unfold ProcessIdempotentRequest, first_attempt, execute_handler, CheckIdempotency,
    StoreIdempotencyRecord, UpdateIdempotencyRecord, DeleteIdempotencyRecord,
    client_GetItem, client_PutItem_if_absent, client_UpdateItem, client_DeleteItem,
    run_handler, lift, remote_call, time_Now, try, discard, wrap, bind, ret, fail.

(** The first call for a key the table does not hold, in full. *)
Lemma first_call userID endpoint requestBody handler s res w1 :
  let key := GenerateIdempotencyKey userID endpoint requestBody in
  let pending :=
    {| ir_Key := key; ir_UserID := userID;
       ir_RequestHash := GenerateRequestHash requestBody;
       ir_Response := ""; ir_Status := "pending";
       ir_CreatedAt := clock (ticks (world s));
       ir_ExpiresAt := time.Add (clock (1 + ticks (world s))) (24 * time.Hour);
       ir_TTL := time.Unix (time.Add (clock (2 + ticks (world s))) (24 * time.Hour)) |} in
  let returned :=
    match res with
    | Err e => Err e
    | Ok v => match json_Marshal v with
              | Ok _ => Ok v
              | Err e => Err ("failed to marshal response: " ++ e)
              end
    end in
  let written :=
    match res with
    | Err e => updated_item ("error: " ++ e) "failed" pending
    | Ok v => match json_Marshal v with
              | Ok responseJSON => updated_item responseJSON "completed" pending
              | Err _ => updated_item "error: failed to marshal response" "failed" pending
              end
    end in
  fault (calls (world s)) = None ->
  fault (S (calls (world s))) = None ->
  idempotency_table s !! key = None ->
  handler (world (advance 3 2 s)) = (res, w1) ->
  ProcessIdempotentRequest userID endpoint requestBody handler s =
    (returned,
     {| idempotency_table :=
          <[key := match fault (calls w1) with
                   | None => written
                   | Some _ => pending
                   end]> (idempotency_table s);
        world := set_ticks (S (ticks w1)) (set_calls (S (calls w1)) w1);
        handler_runs := S (handler_runs s) |}).
Proof.
  intros key pending returned written Hnet0 Hnet1 Hfresh Hrun.
  subst returned written pending key.
  service. simpl. rewrite Hnet0. simpl. rewrite Hfresh. simpl.
  rewrite Hnet1. simpl. rewrite Hfresh. simpl.
  match goal with
  | |- context [handler ?w] => change (handler w) with (handler (world (advance 3 2 s)))
  end.
  rewrite Hrun.
  destruct res as [v|e]; simpl.
  - destruct (json_Marshal v) as [responseJSON|e]; simpl;
      destruct (fault (calls w1)); simpl; unfold set_table; simpl;
      rewrite ?lookup_insert_eq, ?insert_insert_eq; reflexivity.
  - destruct (fault (calls w1)); simpl; unfold set_table; simpl;
      rewrite ?lookup_insert_eq, ?insert_insert_eq; reflexivity.
Qed.

(** A live completed record with the hash of the body is replayed. *)
Lemma replay userID endpoint requestBody handler s record :
  fault (calls (world s)) = None ->
  idempotency_table s !! GenerateIdempotencyKey userID endpoint requestBody = Some record ->
  time.After (clock (ticks (world s))) (ir_ExpiresAt record) = false ->
  ir_RequestHash record = GenerateRequestHash requestBody ->
  ir_Status record = "completed" ->
  ProcessIdempotentRequest userID endpoint requestBody handler s =
    (match json_Unmarshal (ir_Response record) with
     | Ok response => Ok response
     | Err e => Err ("failed to unmarshal cached response: " ++ e)
     end, advance 1 1 s).
Proof.
  intros Hnet Hfound Hlive Hhash Hstatus.
  unfold ProcessIdempotentRequest. unfold bind at 1, wrap at 1.
  rewrite (CheckIdempotency_live _ _ _ Hnet Hfound Hlive).
  rewrite Hhash, String.eqb_refl, Hstatus. simpl.
  unfold wrap. now destruct (json_Unmarshal _).
Qed.

(** X13: the first call for a key the table does not hold runs the closure
    once and hands its outcome to the caller: the closure's value when it
    can be serialised, the closure's own error unchanged when it fails,
    and a marshalling error otherwise.  When the final write succeeds the
    record under the key carries the caller, the hash of the body, an
    expiry 24 hours after the call, and the outcome: the serialised value
    with status "completed", or an error text with status "failed". *)
Theorem first_call_runs_the_closure_and_records_its_outcome
    userID endpoint requestBody handler s res w1 :
  let key := GenerateIdempotencyKey userID endpoint requestBody in
  fault (calls (world s)) = None ->
  fault (S (calls (world s))) = None ->
  fault (calls w1) = None ->
  idempotency_table s !! key = None ->
  handler (world (advance 3 2 s)) = (res, w1) ->
  let out := ProcessIdempotentRequest userID endpoint requestBody handler s in
  fst out = match res with
            | Err e => Err e
            | Ok v => match json_Marshal v with
                      | Ok _ => Ok v
                      | Err e => Err ("failed to marshal response: " ++ e)
                      end
            end
  /\ handler_runs (snd out) = S (handler_runs s)
  /\ (forall k, k <> key -> idempotency_table (snd out) !! k = idempotency_table s !! k)
  /\ exists r, idempotency_table (snd out) !! key = Some r
       /\ ir_Key r = key /\ ir_UserID r = userID
       /\ ir_RequestHash r = GenerateRequestHash requestBody
       /\ ir_ExpiresAt r = time.Add (clock (1 + ticks (world s))) (24 * time.Hour)
       /\ (ir_Response r, ir_Status r) =
            match res with
            | Err e => ("error: " ++ e, "failed")
            | Ok v => match json_Marshal v with
                      | Ok responseJSON => (responseJSON, "completed")
                      | Err _ => ("error: failed to marshal response", "failed")
                      end
            end.
Proof.
  intros key Hnet0 Hnet1 Hnet2 Hfresh Hrun out. unfold out. subst key.
  rewrite (first_call userID endpoint requestBody handler s res w1 Hnet0 Hnet1 Hfresh Hrun).
  rewrite Hnet2. simpl. split; [reflexivity|]. split; [reflexivity|]. split.
  - intros k Hk. now rewrite lookup_insert_ne by congruence.
  - rewrite lookup_insert_eq. eexists. split; [reflexivity|].
    destruct res as [v|e]; [destruct (json_Marshal v)|]; simpl; repeat split; reflexivity.
Qed.

(** X14: a retry after a success is answered from the record: when the
    first call for a fresh key returned the closure's value [v] and wrote
    it back, a second call with the same user, endpoint and body, whose
    lookup reads the clock no later than the record's expiry, returns what
    the stored JSON of [v] deserialises to, whatever closure it is given,
    and does not run that closure: the world of the closures is untouched
    but for one remote read and one clock reading. *)
Theorem retry_after_success_is_replayed
    userID endpoint requestBody handler handler' s v responseJSON w1 :
  let key := GenerateIdempotencyKey userID endpoint requestBody in
  fault (calls (world s)) = None ->
  fault (S (calls (world s))) = None ->
  fault (calls w1) = None ->
  fault (S (calls w1)) = None ->
  idempotency_table s !! key = None ->
  handler (world (advance 3 2 s)) = (Ok v, w1) ->
  json_Marshal v = Ok responseJSON ->
  clock (S (ticks w1)) <= time.Add (clock (1 + ticks (world s))) (24 * time.Hour) ->
  let first := ProcessIdempotentRequest userID endpoint requestBody handler s in
  let second := ProcessIdempotentRequest userID endpoint requestBody handler' (snd first) in
  fst first = Ok v
  /\ fst second = match json_Unmarshal responseJSON with
                  | Ok response => Ok response
                  | Err e => Err ("failed to unmarshal cached response: " ++ e)
                  end
  /\ snd second = advance 1 1 (snd first)
  /\ handler_runs (snd second) = S (handler_runs s).
Proof.
  intros key Hnet0 Hnet1 Hnet2 Hnet3 Hfresh Hrun Hjson Hlive first second.
  unfold second, first.
  rewrite (first_call userID endpoint requestBody handler s (Ok v) w1 Hnet0 Hnet1 Hfresh Hrun).
  rewrite Hnet2, Hjson. simpl. split; [reflexivity|].
  erewrite replay; cycle 1; simpl.
  - exact Hnet3.
  - apply lookup_insert_eq.
  - simpl. unfold time.After. apply Z.ltb_ge. exact Hlive.
  - reflexivity.
  - reflexivity.
  - split; [|split]; reflexivity.
Qed.

(** X15: when the write of the outcome fails, the caller still gets the
    closure's value, but the record stays "pending": a retry within the
    record's 24 hours is rejected as a request in flight, and the closure
    is not run again. *)
Theorem lost_completion_write_leaves_the_key_pending
    userID endpoint requestBody handler handler' s v responseJSON w1 e :
  let key := GenerateIdempotencyKey userID endpoint requestBody in
  fault (calls (world s)) = None ->
  fault (S (calls (world s))) = None ->
  fault (calls w1) = Some e ->
  fault (S (calls w1)) = None ->
  idempotency_table s !! key = None ->
  handler (world (advance 3 2 s)) = (Ok v, w1) ->
  json_Marshal v = Ok responseJSON ->
  clock (S (ticks w1)) <= time.Add (clock (1 + ticks (world s))) (24 * time.Hour) ->
  let first := ProcessIdempotentRequest userID endpoint requestBody handler s in
  let second := ProcessIdempotentRequest userID endpoint requestBody handler' (snd first) in
  fst first = Ok v
  /\ (ir_Status <$> idempotency_table (snd first) !! key) = Some "pending"
  /\ second = (Err "request is already being processed", advance 1 1 (snd first))
  /\ handler_runs (snd second) = S (handler_runs s).
Proof.
  intros key Hnet0 Hnet1 Hnet2 Hnet3 Hfresh Hrun Hjson Hlive first second.
  unfold second, first.
  rewrite (first_call userID endpoint requestBody handler s (Ok v) w1 Hnet0 Hnet1 Hfresh Hrun).
  rewrite Hnet2, Hjson. simpl. split; [reflexivity|].
  split; [unfold key; now rewrite lookup_insert_eq|].
  assert (Hsecond : forall s1 record,
            fault (calls (world s1)) = None ->
            idempotency_table s1 !! GenerateIdempotencyKey userID endpoint requestBody
              = Some record ->
            time.After (clock (ticks (world s1))) (ir_ExpiresAt record) = false ->
            ir_RequestHash record = GenerateRequestHash requestBody ->
            ir_Status record = "pending" ->
            ProcessIdempotentRequest userID endpoint requestBody handler' s1 =
              (Err "request is already being processed", advance 1 1 s1)).
  { intros s1 record Hn Hf Hl Hh Hst.
    unfold ProcessIdempotentRequest. unfold bind at 1, wrap at 1.
    rewrite (CheckIdempotency_live _ _ _ Hn Hf Hl).
    now rewrite Hh, String.eqb_refl, Hst. }
  erewrite Hsecond; cycle 1; simpl.
  - exact Hnet3.
  - apply lookup_insert_eq.
  - simpl. unfold time.After. apply Z.ltb_ge. exact Hlive.
  - reflexivity.
  - reflexivity.
  - split; reflexivity.
Qed.

(** X16: an expired record whose deletion fails keeps the key: the lookup
    drops the error of the delete and reports no record, the conditional
    insert then finds the key taken, and the call fails with what the
    client reports of the refused condition, under the prefix of both
    layers, as for any other failure of the store; the closure is not run
    and the table is as it was. *)
Theorem failed_delete_of_an_expired_record_blocks_the_call
    userID endpoint requestBody handler s record e :
  let key := GenerateIdempotencyKey userID endpoint requestBody in
  fault (calls (world s)) = None ->
  fault (S (calls (world s))) = Some e ->
  fault (S (S (calls (world s)))) = None ->
  idempotency_table s !! key = Some record ->
  time.After (clock (ticks (world s))) (ir_ExpiresAt record) = true ->
  CheckIdempotency key s = (Ok None, advance 1 2 s)
  /\ ProcessIdempotentRequest userID endpoint requestBody handler s =
       (Err ("failed to store idempotency record: failed to store idempotency record: "
             ++ condition_failure (S (S (calls (world s))))),
        advance 4 3 s).
Proof.
  intros key Hnet0 Hnet1 Hnet2 Hfound Hexpired. unfold key in *. split.
  - service. simpl. rewrite Hnet0. simpl. rewrite Hfound. simpl. rewrite Hexpired. simpl.
    now rewrite Hnet1.
  - service. simpl. rewrite Hnet0. simpl. rewrite Hfound. simpl. rewrite Hexpired. simpl.
    rewrite Hnet1. simpl. rewrite Hnet2. simpl. now rewrite Hfound.
Qed.

(** X17: a remote failure before the closure stops the call: when the
    lookup fails, or the lookup finds nothing and the conditional insert
    fails for a reason other than the condition, the call returns the
    error under the prefix of both layers, the closure is not run and the
    table is unchanged. *)
Theorem remote_failure_before_the_closure userID endpoint requestBody handler s e :
  let key := GenerateIdempotencyKey userID endpoint requestBody in
  let out := ProcessIdempotentRequest userID endpoint requestBody handler s in
  (fault (calls (world s)) = Some e \/
   (fault (calls (world s)) = None /\ idempotency_table s !! key = None
    /\ fault (S (calls (world s))) = Some e)) ->
  fst out =
    Err (match fault (calls (world s)) with
         | Some _ => "failed to check idempotency: failed to check idempotency: "
         | None => "failed to store idempotency record: failed to store idempotency record: "
         end ++ e)
  /\ handler_runs (snd out) = handler_runs s
  /\ idempotency_table (snd out) = idempotency_table s
  /\ spend_table (world (snd out)) = spend_table (world s)
  /\ kms_log (world (snd out)) = kms_log (world s).
Proof.
  intros key out [Hnet0|(Hnet0 & Hfresh & Hnet1)]; unfold out, key in *;
    service; simpl; rewrite Hnet0; simpl.
  - repeat split; reflexivity.
  - rewrite Hfresh. simpl. rewrite Hnet1. simpl. repeat split; reflexivity.
Qed.

(** X18: where a success comes from.  A call that returns a value either
    ran the closure, exactly once, and returns the closure's own value
    (which it could serialise), or did not run it and returns the
    deserialised response of a record found under the key with status
    "completed" and the request's hash.  No call runs the closure more
    than once. *)
Theorem success_is_the_closure_s_or_the_record_s
    userID endpoint requestBody handler s v :
  let key := GenerateIdempotencyKey userID endpoint requestBody in
  let out := ProcessIdempotentRequest userID endpoint requestBody handler s in
  (handler_runs (snd out) <= S (handler_runs s))%nat
  /\ (fst out = Ok v ->
      (handler_runs (snd out) = S (handler_runs s)
       /\ is_Ok (json_Marshal v) = true
       /\ exists w0 w1, handler w0 = (Ok v, w1)
            /\ spend_table w0 = spend_table (world s) /\ kms_log w0 = kms_log (world s))
      \/ (handler_runs (snd out) = handler_runs s
          /\ spend_table (world (snd out)) = spend_table (world s)
          /\ kms_log (world (snd out)) = kms_log (world s)
          /\ exists record, idempotency_table s !! key = Some record
               /\ ir_Status record = "completed"
               /\ ir_RequestHash record = GenerateRequestHash requestBody
               /\ json_Unmarshal (ir_Response record) = Ok v)).
Proof.
  intros key out. unfold out, key. clear out key.
  service. simpl.
  destruct (fault (calls (world s))); simpl; [split; [lia|discriminate]|].
  destruct (idempotency_table s !! _) as [record|] eqn:Hfound; simpl.
  - destruct (time.After _ _); simpl.
    + destruct (fault (S (calls (world s)))); simpl.
      * destruct (fault (S (S (calls (world s))))); simpl; [split; [lia|discriminate]|].
        rewrite Hfound. simpl. split; [lia|discriminate].
      * destruct (fault (S (S (calls (world s))))); simpl; [split; [lia|discriminate]|].
        rewrite lookup_delete_eq.
        destruct (handler _) as [[v'|e] w] eqn:Hrun; simpl.
        -- destruct (json_Marshal v') eqn:Hjson; simpl;
             destruct (fault (calls w)); simpl; (split; [lia|]); try discriminate;
             intros [= ->]; left; (split; [reflexivity|]); (split; [now rewrite Hjson|]);
             eexists _, _; (split; [exact Hrun|]); split; reflexivity.
        -- destruct (fault (calls w)); simpl; split; [lia|discriminate|lia|discriminate].
    + destruct (String.eqb (ir_RequestHash record) _) eqn:Hhash; simpl;
        [|split; [lia|discriminate]].
      destruct (String.eqb (ir_Status record) "completed") eqn:Hstatus; simpl.
      * destruct (json_Unmarshal _) eqn:Hjson; simpl; (split; [lia|]); [|discriminate].
        intros [= ->]. right. repeat split.
        exists record. apply String.eqb_eq in Hhash, Hstatus. now repeat split.
      * destruct (String.eqb (ir_Status record) "pending"); simpl; [split; [lia|discriminate]|].
        destruct (fault (S (calls (world s)))); simpl; [split; [lia|discriminate]|].
        rewrite Hfound. simpl. split; [lia|discriminate].
  - destruct (fault (S (calls (world s)))); simpl; [split; [lia|discriminate]|].
    rewrite Hfound.
    destruct (handler _) as [[v'|e] w] eqn:Hrun; simpl.
    + destruct (json_Marshal v') eqn:Hjson; simpl;
        destruct (fault (calls w)); simpl; (split; [lia|]); try discriminate;
        intros [= ->]; left; (split; [reflexivity|]); (split; [now rewrite Hjson|]);
        eexists _, _; (split; [exact Hrun|]); split; reflexivity.
    + destruct (fault (calls w)); simpl; split; [lia|discriminate|lia|discriminate].
Qed.

(** X19: the key does not separate its three fields: the digest is taken of
    the fields joined by colons, so moving a colon-delimited piece from
    one field to the next gives the same key.  With the same body the two
    requests also share the hash, and a call of one user is then answered
    from the completed record of another user's request without running
    its closure. *)
Theorem idempotency_key_ignores_field_boundaries
    userID piece endpoint requestBody handler s record :
  fault (calls (world s)) = None ->
  idempotency_table s !!
    GenerateIdempotencyKey (userID ++ ":" ++ piece) endpoint requestBody = Some record ->
  time.After (clock (ticks (world s))) (ir_ExpiresAt record) = false ->
  ir_RequestHash record = GenerateRequestHash requestBody ->
  ir_Status record = "completed" ->
  GenerateIdempotencyKey userID (piece ++ ":" ++ endpoint) requestBody =
    GenerateIdempotencyKey (userID ++ ":" ++ piece) endpoint requestBody
  /\ GenerateIdempotencyKey userID endpoint (piece ++ ":" ++ requestBody) =
       GenerateIdempotencyKey (userID ++ ":" ++ endpoint) piece requestBody
  /\ ProcessIdempotentRequest userID (piece ++ ":" ++ endpoint) requestBody handler s =
       (match json_Unmarshal (ir_Response record) with
        | Ok response => Ok response
        | Err e => Err ("failed to unmarshal cached response: " ++ e)
        end, advance 1 1 s).
Proof.
  intros Hnet Hfound Hlive Hhash Hstatus.
  assert (Hkey : forall u x e b,
            GenerateIdempotencyKey u (x ++ ":" ++ e) b =
            GenerateIdempotencyKey (u ++ ":" ++ x) e b).
  { intros u x e b. unfold GenerateIdempotencyKey. f_equal.
    now rewrite !append_assoc. }
  split; [apply Hkey|]. split.
  { unfold GenerateIdempotencyKey. f_equal. now rewrite !append_assoc. }
  apply replay; try assumption. now rewrite Hkey.
Qed.

End CoordinatorOutcomes.

(** ** The closure under the coordinator *)

Section ClosureUnderCoordinator.
Context `{EntryValues} `{Oracle}.

(** X20: the degraded answer is persisted in clear.  For a user over the
    daily limit and a key the table does not hold, the coordinator runs
    the closure of the lambda, which answers with an entry that is not
    encrypted and carries the content, mood and tags of the request as
    they came; the coordinator returns it and writes its JSON into the
    record under the key with status "completed", the status retries are
    answered from.  Nothing was sent to the encryption service and no
    cost was recorded. *)
Theorem degraded_entry_is_stored_unencrypted
    userID endpoint requestBody req kmsService s costCheck w1 responseJSON :
  let key := GenerateIdempotencyKey userID endpoint requestBody in
  fault (calls (world s)) = None ->
  fault (S (calls (world s))) = None ->
  idempotency_table s !! key = None ->
  CheckUserSpendLimit userID
    (EstimateLLMCost (Z.of_nat (String.length (req_Content req))) 100
       "anthropic.claude-3-sonnet-20240229-v1:0") (world (advance 3 2 s)) = (Ok costCheck, w1) ->
  Allowed costCheck = false ->
  fault (calls w1) = None ->
  (forall entry, je_Content entry = req_Content req -> je_Mood entry = req_Mood req ->
     je_Tags entry = req_Tags req -> je_Encrypted entry = false ->
     json_Marshal (entry_Value entry) = Ok (responseJSON entry)) ->
  let out := ProcessIdempotentRequest userID endpoint requestBody
               (handler_closure userID req kmsService) s in
  exists entry,
    fst out = Ok (entry_Value entry)
    /\ je_Encrypted entry = false
    /\ je_Content entry = req_Content req
    /\ je_Mood entry = req_Mood req
    /\ je_Tags entry = req_Tags req
    /\ (exists r, idempotency_table (snd out) !! key = Some r
          /\ ir_Status r = "completed" /\ ir_Response r = responseJSON entry)
    /\ kms_log (world (snd out)) = kms_log (world s)
    /\ spend_table (world (snd out)) = spend_table (world s).
Proof.
  intros key Hnet0 Hnet1 Hfresh Hcheck Hdenied Hnet2 Hjson out.
  destruct (degraded_response userID req kmsService _ costCheck w1 Hcheck Hdenied)
    as (entry & w' & Hrun & Henc & Hcontent & Hmood & Htags & _ & Htable & Hlog).
  assert (Hcalls : calls w' = calls w1 /\ handler_closure userID req kmsService
                     (world (advance 3 2 s)) = (Ok (entry_Value entry), w')).
  { split.
    - revert Hrun. unfold processJournalEntry. unfold bind at 1, wrap at 1. cbv beta.
      rewrite Hcheck, Hdenied. cbn [negb]. cbv beta iota.
      unfold handleCostLimitExceeded, generateID, time_Now, bind, ret. simpl.
      now intros [= _ <-].
    - unfold handler_closure, bind. now rewrite Hrun. }
  destruct Hcalls as [Hcalls Hclosure].
  unfold out.
  rewrite (first_call userID endpoint requestBody _ s _ w' Hnet0 Hnet1 Hfresh Hclosure).
  rewrite (Hjson entry Hcontent Hmood Htags Henc), Hcalls, Hnet2. simpl.
  exists entry. split; [reflexivity|]. split; [exact Henc|]. split; [exact Hcontent|].
  split; [exact Hmood|]. split; [exact Htags|]. split.
  - eexists. unfold key. rewrite lookup_insert_eq. split; [reflexivity|]. split; reflexivity.
  - split; [exact Hlog|exact Htable].
Qed.

End ClosureUnderCoordinator.

Lemma degraded_entry_is_stored_unencrypted_witness :
  let s := {| idempotency_table := ∅; world := Toy.world_with_cost Float64.lit_5_0;
              handler_runs := 0 |} in
  let key := @GenerateIdempotencyKey Toy.externals "alice" "POST /journal-entries" "{}" in
  let out := @ProcessIdempotentRequest Toy.externals Toy.frozen
               "alice" "POST /journal-entries" "{}"
               (@handler_closure Toy.externals Toy.entries Toy.frozen
                  "alice" Toy.request Toy.kms) s in
  exists entry,
    fst out = Ok (@entry_Value Toy.externals Toy.entries entry)
    /\ je_Encrypted entry = false
    /\ je_Content entry = req_Content Toy.request
    /\ je_Mood entry = req_Mood Toy.request
    /\ je_Tags entry = req_Tags Toy.request
    /\ (exists r, idempotency_table (snd out) !! key = Some r
          /\ ir_Status r = "completed" /\ ir_Response r = je_Content entry)
    /\ kms_log (world (snd out)) = kms_log (world s)
    /\ spend_table (world (snd out)) = spend_table (world s).
Proof.
  eapply (@degraded_entry_is_stored_unencrypted Toy.externals Toy.entries Toy.frozen
            "alice" "POST /journal-entries" "{}" Toy.request Toy.kms
            {| idempotency_table := ∅; world := Toy.world_with_cost Float64.lit_5_0;
               handler_runs := 0 |} _ _ je_Content).
  - reflexivity.
  - reflexivity.
  - reflexivity.
  - vm_compute. reflexivity.
  - reflexivity.
  - reflexivity.
  - reflexivity.
Defined.

(** ** The closure and the ledger's availability *)

Section LedgerAvailability.
Context `{Externals} `{Oracle}.

Local Abbreviation estimate req :=
  (EstimateLLMCost (Z.of_nat (String.length (req_Content req))) 100
     "anthropic.claude-3-sonnet-20240229-v1:0").

(** X21: the closure fails closed when the ledger cannot be read: the
    request is refused with the error of the read under the prefixes of
    the three layers, nothing is sent to the encryption service and no
    entry is produced. *)
Theorem unreachable_ledger_fails_closed userID req kmsService w e :
  fault (calls w) = Some e ->
  let out := processJournalEntry userID req kmsService w in
  fst out =
    Err ("failed to check cost limits: failed to get user spend record: failed to get item: "
         ++ e)
  /\ kms_log (snd out) = kms_log w
  /\ spend_table (snd out) = spend_table w.
Proof.
  intros Hnet out. unfold out, processJournalEntry, CheckUserSpendLimit, getUserSpendRecord,
    remote_call, time_Now, wrap, bind. simpl. rewrite Hnet. simpl.
  repeat split.
Qed.

(** What an admission that succeeded tells of the world. *)
Lemma CheckUserSpendLimit_state userID cost w res w1 :
  CheckUserSpendLimit userID cost w = (Ok res, w1) ->
  calls w1 = S (calls w) /\ spend_table w1 = spend_table w /\ kms_log w1 = kms_log w.
Proof.
  unfold CheckUserSpendLimit, fresh_spend_record, getUserSpendRecord, remote_call, time_Now,
    wrap, bind, ret. simpl.
  destruct (fault (calls w)); simpl; [discriminate|].
  destruct (spend_table w !! _); simpl; destruct (Float64.gtb _ _);
    intros [= <- <-]; repeat split.
Qed.

(** A recording whose read or write fails leaves the table as it was. *)
Lemma RecordLLMRequest_failure userID cost w e :
  fault (calls w) = Some e \/ (fault (calls w) = None /\ fault (S (calls w)) = Some e) ->
  spend_table (snd (RecordLLMRequest userID cost w)) = spend_table w.
Proof.
  unfold RecordLLMRequest, fresh_spend_record, getUserSpendRecord, saveUserSpendRecord,
    remote_call, time_Now, wrap, bind, ret. simpl.
  intros [Hnet0|[Hnet0 Hnet1]]; rewrite Hnet0; simpl; [reflexivity|].
  destruct (spend_table w !! _); simpl; now rewrite Hnet1.
Qed.

(** X22: the closure fails open when the cost cannot be recorded: an
    admitted request whose fields the service accepts is answered with
    the encrypted entry although the read or the write of the recording
    failed, and the user's accumulated cost is not raised: the spend
    table is as it was. *)
Theorem unrecorded_request_is_served_uncharged userID req kmsService w costCheck w1 e :
  CheckUserSpendLimit userID (estimate req) w = (Ok costCheck, w1) ->
  Allowed costCheck = true ->
  Forall (fun q => q = "" \/ is_Ok (kms_Encrypt (keyID kmsService) q phi_context) = true)
    (req_Content req :: req_Mood req :: req_Tags req) ->
  fault (S (calls w)) = Some e
  \/ (fault (S (calls w)) = None /\ fault (S (S (calls w))) = Some e) ->
  exists entry w',
    processJournalEntry userID req kmsService w = (Ok entry, w')
    /\ je_UserID entry = userID
    /\ je_Encrypted entry = true
    /\ spend_table w' = spend_table w.
Proof.
  intros Hcheck Hallowed Haccepted Hnet.
  destruct (CheckUserSpendLimit_state _ _ _ _ _ Hcheck) as (Hcalls & Htable & _).
  apply Forall_cons in Haccepted as [Hcontent Haccepted].
  apply Forall_cons in Haccepted as [Hmood Htags].
  unfold processJournalEntry. unfold bind at 1, wrap at 1. cbv beta.
  rewrite Hcheck, Hallowed. cbn [negb]. cbv beta iota.
  unfold bind at 1, wrap at 1. cbv beta.
  assert (Hone : forall p w0,
            p = "" \/ is_Ok (kms_Encrypt (keyID kmsService) p phi_context) = true ->
            exists c l, EncryptPHI kmsService p w0 = (Ok c, set_kms_log l w0)).
  { intros p w0 Hp.
    destruct (EncryptPHI_cases kmsService p w0)
      as [[-> Hrun]|[(Hne & blob & Henc & Hrun)|(Hne & e' & Henc & _)]].
    - exists "", (kms_log w0). now rewrite set_kms_log_same.
    - eexists _, _. exact Hrun.
    - destruct Hp as [->|Hp]; [contradiction|]. rewrite Henc in Hp. discriminate. }
  destruct (Hone (req_Content req) w1 Hcontent) as (c & l1 & ->).
  unfold bind at 1, wrap at 1. cbv beta.
  destruct (Hone (req_Mood req) (set_kms_log l1 w1) Hmood) as (m & l2 & ->).
  unfold bind at 1, wrap at 1. cbv beta.
  rewrite EncryptPHIArray_is_the_loop.
  destruct (encrypt_elements_accepts kmsService (req_Tags req) 0
              (set_kms_log l2 (set_kms_log l1 w1)) Htags) as (t & w4 & Hrun).
  rewrite Hrun. apply encrypt_elements_ok in Hrun as (_ & -> & _).
  unfold generateID, time_Now, discard, bind, ret. cbn [fst snd].
  eexists _, _. split; [reflexivity|]. cbn [je_UserID je_Encrypted].
  split; [reflexivity|]. split; [reflexivity|].
  rewrite (RecordLLMRequest_failure userID (estimate req) _ e).
  - simpl. exact Htable.
  - simpl. rewrite Hcalls. exact Hnet.
Qed.

End LedgerAvailability.

Lemma unreachable_ledger_fails_closed_witness :
  let w := Toy.world_with_cost (Float64.of_int 2) in
  let out := @processJournalEntry Toy.externals Toy.offline "alice" Toy.request Toy.kms w in
  fst out =
    Err ("failed to check cost limits: failed to get user spend record: failed to get item: "
         ++ "RequestTimeout")
  /\ kms_log (snd out) = kms_log w
  /\ spend_table (snd out) = spend_table w.
Proof.
  apply (@unreachable_ledger_fails_closed Toy.externals Toy.offline "alice" Toy.request Toy.kms
           (Toy.world_with_cost (Float64.of_int 2)) "RequestTimeout").
  reflexivity.
Defined.

Lemma unrecorded_request_is_served_uncharged_witness :
  exists entry w',
    @processJournalEntry Toy.externals (Toy.flaky 2) "alice" Toy.request Toy.kms
      (Toy.world_with_cost (Float64.of_int 2)) = (Ok entry, w')
    /\ je_UserID entry = "alice"
    /\ je_Encrypted entry = true
    /\ spend_table w' = spend_table (Toy.world_with_cost (Float64.of_int 2)).
Proof.
  eapply (@unrecorded_request_is_served_uncharged Toy.externals (Toy.flaky 2)
            "alice" Toy.request Toy.kms (Toy.world_with_cost (Float64.of_int 2))
            _ _ "RequestTimeout").
  - vm_compute. reflexivity.
  - reflexivity.
  - constructor; [now right|]. constructor; [now right|].
    constructor; [now right|constructor].
  - right. split; reflexivity.
Defined.

(** ** The lifetime of an idempotency record *)

Section RecordLifetime.
Context `{Externals} `{Oracle}.

(** X23: the table's own expiry never precedes the record's: the record a
    first call leaves under its key has a TTL attribute (the second at
    which DynamoDB may sweep it) that is not before its [ExpiresAt], as
    long as the clock does not run backwards between the two readings
    that set them; so the sweep cannot come before the second in which
    the record expires. *)
Theorem record_is_not_swept_before_it_expires
    userID endpoint requestBody handler s res w1 :
  let key := GenerateIdempotencyKey userID endpoint requestBody in
  fault (calls (world s)) = None ->
  fault (S (calls (world s))) = None ->
  idempotency_table s !! key = None ->
  handler (world (advance 3 2 s)) = (res, w1) ->
  clock (1 + ticks (world s)) <= clock (2 + ticks (world s)) ->
  exists r,
    idempotency_table
      (snd (ProcessIdempotentRequest userID endpoint requestBody handler s)) !! key = Some r
    /\ ir_ExpiresAt r = time.Add (clock (1 + ticks (world s))) (24 * time.Hour)
    /\ ir_TTL r = time.Unix (time.Add (clock (2 + ticks (world s))) (24 * time.Hour))
    /\ time.Unix (ir_ExpiresAt r) <= ir_TTL r.
Proof.
  intros key Hnet0 Hnet1 Hfresh Hrun Hclock. subst key.
  rewrite (first_call userID endpoint requestBody handler s res w1 Hnet0 Hnet1 Hfresh Hrun).
  simpl. rewrite lookup_insert_eq. eexists. split; [reflexivity|].
  assert (Hmono : time.Unix (time.Add (clock (1 + ticks (world s))) (24 * time.Hour))
                  <= time.Unix (time.Add (clock (2 + ticks (world s))) (24 * time.Hour))).
  { unfold time.Unix, time.Add. apply Z.div_le_mono; [reflexivity|lia]. }
  destruct (fault (calls w1)); [|destruct res as [v|e]; [destruct (json_Marshal v)|]];
    simpl; repeat split; exact Hmono.
Qed.

End RecordLifetime.

Lemma record_is_not_swept_before_it_expires_witness :
  exists r,
    idempotency_table
      (snd (@ProcessIdempotentRequest Toy.externals Toy.slow
              "alice" "POST /journal-entries" "{}" Toy.work Toy.empty_state))
      !! @GenerateIdempotencyKey Toy.externals "alice" "POST /journal-entries" "{}" = Some r
    /\ ir_ExpiresAt r =
         time.Add (@clock Toy.slow (1 + ticks (world Toy.empty_state))) (24 * time.Hour)
    /\ ir_TTL r =
         time.Unix (time.Add (@clock Toy.slow (2 + ticks (world Toy.empty_state)))
                      (24 * time.Hour))
    /\ time.Unix (ir_ExpiresAt r) <= ir_TTL r.
Proof.
  apply (@record_is_not_swept_before_it_expires Toy.externals Toy.slow
           "alice" "POST /journal-entries" "{}" Toy.work Toy.empty_state
           (Ok ("done" : string)) (world (advance 3 2 Toy.empty_state))); try reflexivity.
  vm_compute. discriminate.
Defined.

(** ** The handler of the journal-entry lambda *)

Section HandlerProperties.
Context `{Gateway} `{Oracle}.

Lemma substring_all (t : string) : substring 0 (String.length t) t = t.
Proof. induction t as [|c t IH]; [reflexivity|]. simpl. now rewrite IH. Qed.

(** X24: how the handler reads the Authorization header.  A header
    "Bearer " followed by a token that is not empty has the token
    validated; a header that does not start with "Bearer ", or is no
    longer than that prefix, is validated as it stands, so the scheme is
    optional and the bare header "Bearer " is validated as a token; a
    missing or empty header is refused without validation.  The user id
    is the one of the validated claims, and a validation error comes back
    under the prefix "invalid token: ". *)
Theorem authorization_header_is_read_with_or_without_scheme token headers body :
  let validated t :=
    match auth_ValidateToken t with
    | Err e => Err ("invalid token: " ++ e)
    | Ok userID => Ok userID
    end in
  let request authorization :=
    {| Headers := <["Authorization" := authorization]> headers; Body := body |} in
  (token <> "" -> extractUserIDFromRequest (request ("Bearer " ++ token)) = validated token)
  /\ (token <> "" ->
      (String.length token <= 7)%nat \/ substring 0 7 token <> "Bearer " ->
      extractUserIDFromRequest (request token) = validated token)
  /\ extractUserIDFromRequest (request "") = Err "missing authorization header"
  /\ (headers !! "Authorization" = None ->
      extractUserIDFromRequest {| Headers := headers; Body := body |}
      = Err "missing authorization header").
Proof.
  intros validated request. unfold extractUserIDFromRequest, request, validated. simpl.
  rewrite !lookup_insert_eq. simpl. split; [|split; [|split]].
  - intros Htoken. destruct token as [|c t]; [contradiction|].
    change ("" ++ String c t) with (String c t).
    replace (String.length (String c t) - 0)%nat with (String.length (String c t)) by lia.
    rewrite substring_all.
    change (substring 0 0 (String c t)) with "".
    replace (7 <? S (S (S (S (S (S (S (String.length (String c t)))))))))%nat with true
      by (symmetry; apply Nat.ltb_lt; simpl; lia).
    reflexivity.
  - intros Htoken Hplain.
    destruct (String.eqb token "") eqn:Hempty; [now apply String.eqb_eq in Hempty|].
    destruct Hplain as [Hshort|Hscheme].
    + replace (7 <? String.length token)%nat with false
        by (symmetry; apply Nat.ltb_ge; lia).
      reflexivity.
    + apply String.eqb_neq in Hscheme. rewrite Hscheme, andb_false_r. reflexivity.
  - reflexivity.
  - intros ->. reflexivity.
Qed.

(** X25: which requests reach the tables.  The handler answers 401 exactly
    when no user id can be extracted from the request, and 400 exactly
    when a user id can be extracted and the body is not JSON or the
    content is empty; in both cases the state is as it was: no
    idempotency record, nothing sent to the encryption service, no cost.
    It answers 201 only when the coordinator returned a value for the
    authenticated user, the endpoint "POST /journal-entries" and the raw
    body, and the body of the answer is the JSON of that value; every
    error of the coordinator, a duplicate in flight and a key conflict
    included, is answered 500.  No other status is ever answered. *)
Theorem handler_status_codes request s :
  let out := handler request s in
  let status := StatusCode (fst out) in
  (status = 401 <-> is_Err (extractUserIDFromRequest request) = true)
  /\ (status = 400 <->
      is_Ok (extractUserIDFromRequest request) = true
      /\ match json_Unmarshal_request (Body request) with
         | Err _ => True
         | Ok req => req_Content req = ""
         end)
  /\ (status = 401 \/ status = 400 -> snd out = s)
  /\ (status = 201 \/ status = 400 \/ status = 401 \/ status = 500)
  /\ (status = 201 ->
      exists userID req kmsService response,
        extractUserIDFromRequest request = Ok userID
        /\ json_Unmarshal_request (Body request) = Ok req
        /\ req_Content req <> ""
        /\ NewKMSClient = Ok kmsService
        /\ ProcessIdempotentRequest userID "POST /journal-entries" (Body request)
             (handler_closure userID req kmsService) s = (Ok response, snd out)
        /\ json_Marshal response = Ok (resp_Body (fst out)))
  /\ (forall userID req kmsService e s',
        extractUserIDFromRequest request = Ok userID ->
        json_Unmarshal_request (Body request) = Ok req ->
        req_Content req <> "" ->
        NewIdempotencyService = Ok tt -> NewKMSClient = Ok kmsService ->
        NewCostControlService = Ok tt ->
        ProcessIdempotentRequest userID "POST /journal-entries" (Body request)
          (handler_closure userID req kmsService) s = (Err e, s') ->
        out = (createErrorResponse 500 "PROCESSING_ERROR" "Failed to process journal entry" e,
               s')).
Proof.
  intros out status. unfold status, out, handler. clear status out.
  destruct (extractUserIDFromRequest request) as [userID|e0]; simpl.
  2:{ intuition (try discriminate). }
  destruct (json_Unmarshal_request (Body request)) as [req|e1]; simpl.
  2:{ intuition (try discriminate). }
  destruct (String.eqb (req_Content req) "") eqn:Hcontent; simpl.
  { apply String.eqb_eq in Hcontent. intuition (try discriminate).
    match goal with Hr : Ok _ = Ok _ |- _ => injection Hr as <- end. contradiction. }
  apply String.eqb_neq in Hcontent.
  destruct NewIdempotencyService as [[]|e2]; simpl.
  2:{ intuition (try discriminate). }
  destruct NewKMSClient as [kmsService|e3]; simpl.
  2:{ intuition (try discriminate). }
  destruct NewCostControlService as [[]|e4]; simpl.
  2:{ intuition (try discriminate). }
  destruct (ProcessIdempotentRequest userID "POST /journal-entries" (Body request)
              (handler_closure userID req kmsService) s) as [[response|e5] s'] eqn:Hrun; simpl.
  - destruct (json_Marshal response) as [responseBody|e6] eqn:Hjson; simpl.
    + intuition (try discriminate).
      * exists userID, req, kmsService, response. repeat split; auto.
      * repeat match goal with Hr : Ok _ = Ok _ |- _ => injection Hr as <- end.
        congruence.
    + intuition (try discriminate).
      repeat match goal with Hr : Ok _ = Ok _ |- _ => injection Hr as <- end.
      congruence.
  - intuition (try discriminate).
    repeat match goal with Hr : Ok _ = Ok _ |- _ => injection Hr as <- end.
    congruence.
Qed.

(** X26: a repeated request is answered from the record.  When a request
    has been answered 201 after running the closure for a key the table
    did not hold, the same request sent again within the record's 24
    hours (no remote call failing) does not run the closure again: the
    state differs only by one remote read and one clock reading, nothing
    is encrypted again and no cost is added.  The second answer is made
    from the body of the first: that JSON text is read back into a value
    and the value is serialised anew, so the answer is 201 with the new
    text, or 500 when the text cannot be read back or the value cannot be
    serialised.  It is the very same answer exactly when the text reads
    back to a value that serialises to the same text. *)
Theorem repeated_request_is_answered_from_the_record request s :
  (forall n, fault n = None) ->
  (forall i j, clock i <= time.Add (clock j) (24 * time.Hour)) ->
  (forall userID,
     idempotency_table s !!
       GenerateIdempotencyKey userID "POST /journal-entries" (Body request) = None) ->
  let first := handler request s in
  let second := handler request (snd first) in
  StatusCode (fst first) = 201 ->
  fst second =
    match json_Unmarshal (resp_Body (fst first)) with
    | Err e =>
        createErrorResponse 500 "PROCESSING_ERROR" "Failed to process journal entry"
          ("failed to unmarshal cached response: " ++ e)
    | Ok cached =>
        match json_Marshal cached with
        | Err e =>
            createErrorResponse 500 "SERIALIZATION_ERROR" "Failed to serialize response" e
        | Ok responseBody =>
            {| StatusCode := 201;
               resp_Headers := <["Content-Type" := "application/json"]> ∅;
               resp_Body := responseBody |}
        end
    end
  /\ (fst second = fst first <->
      exists cached, json_Unmarshal (resp_Body (fst first)) = Ok cached
                     /\ json_Marshal cached = Ok (resp_Body (fst first)))
  /\ snd second = advance 1 1 (snd first)
  /\ handler_runs (snd second) = S (handler_runs s)
  /\ spend_table (world (snd second)) = spend_table (world (snd first))
  /\ kms_log (world (snd second)) = kms_log (world (snd first)).
Proof.
  intros Hnet Hwindow Hfresh first second. unfold second, first. clear second first.
  unfold handler.
  destruct (extractUserIDFromRequest request) as [userID|e0]; [|discriminate].
  destruct (json_Unmarshal_request (Body request)) as [req|e1]; [|discriminate].
  destruct (String.eqb (req_Content req) ""); [discriminate|].
  destruct NewIdempotencyService as [[]|e2]; [|discriminate].
  destruct NewKMSClient as [kmsService|e3]; [|discriminate].
  destruct NewCostControlService as [[]|e4]; [|discriminate].
  destruct (handler_closure userID req kmsService (world (advance 3 2 s)))
    as [res w1] eqn:Hclosure.
  rewrite (first_call userID "POST /journal-entries" (Body request) _ s res w1
             (Hnet _) (Hnet _) (Hfresh userID) Hclosure).
  rewrite (Hnet (calls w1)).
  destruct res as [v|e]; [|discriminate].
  destruct (json_Marshal v) as [responseJSON|e] eqn:Hjson; [|discriminate].
  cbn [fst snd]. rewrite Hjson. cbn [fst snd StatusCode resp_Body]. intros _.
  erewrite replay; cycle 1.
  - apply Hnet.
  - cbn [idempotency_table]. apply lookup_insert_eq.
  - unfold time.After. apply Z.ltb_ge. cbn [ir_ExpiresAt updated_item]. apply Hwindow.
  - reflexivity.
  - reflexivity.
  - cbn [updated_item ir_Response fst].
    destruct (json_Unmarshal responseJSON) as [cached|e] eqn:Hread.
    + destruct (json_Marshal cached) as [responseBody|e] eqn:Hwrite; cbn [fst snd].
      * repeat split.
        -- intros Hsame. exists cached. split; [reflexivity|]. congruence.
        -- intros (cached' & Hread' & Hwrite'). congruence.
      * repeat split.
        -- intros Hsame. discriminate Hsame.
        -- intros (cached' & Hread' & Hwrite'). congruence.
    + cbn [fst snd]. repeat split.
      * intros Hsame. discriminate Hsame.
      * intros (cached' & Hread' & _). discriminate Hread'.
Qed.

End HandlerProperties.

(** Where a text is read back as a map, the second answer is 201 with
    the re-serialised text, not the text of the first answer. *)
Lemma repeated_request_is_answered_from_the_record_witness :
  let request := Toy.http_request "Bearer token-alice" "slept badly" in
  let first := @handler Toy.rereading Toy.rereading_entries Toy.rereading_gateway Toy.frozen
                 request Toy.empty_state in
  let second := @handler Toy.rereading Toy.rereading_entries Toy.rereading_gateway Toy.frozen
                  request (snd first) in
  let ok body :=
    {| StatusCode := 201;
       resp_Headers := <["Content-Type" := "application/json"]> ∅;
       resp_Body := body |} in
  fst first = ok "#slept badly"
  /\ fst second = ok "sorted #slept badly"
  /\ (fst second = fst first <->
      exists cached, @json_Unmarshal Toy.rereading (resp_Body (fst first)) = Ok cached
                     /\ @json_Marshal Toy.rereading cached = Ok (resp_Body (fst first)))
  /\ snd second = advance 1 1 (snd first)
  /\ handler_runs (snd second) = S (handler_runs Toy.empty_state)
  /\ spend_table (world (snd second)) = spend_table (world (snd first))
  /\ kms_log (world (snd second)) = kms_log (world (snd first)).
Proof.
  split; [vm_compute; reflexivity|].
  apply (@repeated_request_is_answered_from_the_record
           Toy.rereading Toy.rereading_entries Toy.rereading_gateway Toy.frozen
           (Toy.http_request "Bearer token-alice" "slept badly") Toy.empty_state).
  - reflexivity.
  - intros i j. vm_compute. discriminate.
  - intros userID. apply lookup_empty.
  - vm_compute. reflexivity.
Defined.

(** ** The match score *)

Lemma wrap_int64_add_l (a b : Z) : wrap_int64 (wrap_int64 a + b) = wrap_int64 (a + b).
Proof.
  unfold wrap_int64. f_equal.
  replace ((a + 2 ^ 63) mod 2 ^ 64 - 2 ^ 63 + b + 2 ^ 63)
    with ((a + 2 ^ 63) mod 2 ^ 64 + b) by lia.
  rewrite Zplus_mod_idemp_l. f_equal. lia.
Qed.

Lemma wrap_int64_small (n : Z) : - 2 ^ 63 <= n < 2 ^ 63 -> wrap_int64 n = n.
Proof. intros Hn. unfold wrap_int64. rewrite Z.mod_small; lia. Qed.

(** What the loops count, up to the wrap-around of the counter. *)
Lemma count_equal_spec (x : string) : forall ys n,
  count_equal x ys (wrap_int64 n) =
  wrap_int64 (n + Z.of_nat (count_occ string_dec ys x)).
Proof.
  induction ys as [|y ys IH]; intros n.
  - simpl. now rewrite Z.add_0_r.
  - cbn [count_equal count_occ].
    destruct (String.eqb x y) eqn:Hxy.
    + apply String.eqb_eq in Hxy. subst y.
      destruct (string_dec x x) as [_|Hne]; [|contradiction].
      rewrite wrap_int64_add_l, IH. f_equal. lia.
    + apply String.eqb_neq in Hxy.
      destruct (string_dec y x) as [Heq|_]; [now subst|]. apply IH.
Qed.

Lemma list_sum_cons (a : nat) (l : list nat) : list_sum (a :: l) = (a + list_sum l)%nat.
Proof. reflexivity. Qed.

Lemma count_common_spec (ys : list string) : forall xs n,
  count_common xs ys (wrap_int64 n) =
  wrap_int64 (n + Z.of_nat (list_sum (map (count_occ string_dec ys) xs))).
Proof.
  induction xs as [|x xs IH]; intros n.
  - simpl. now rewrite Z.add_0_r.
  - cbn [count_common]. rewrite count_equal_spec, IH, map_cons, list_sum_cons. f_equal. lia.
Qed.

Lemma pairs_cons (x : string) (xs : list string) : forall ys,
  list_sum (map (count_occ string_dec (x :: xs)) ys) =
  (count_occ string_dec ys x + list_sum (map (count_occ string_dec xs) ys))%nat.
Proof.
  induction ys as [|y ys IH]; [reflexivity|].
  rewrite !map_cons, !list_sum_cons, IH.
  destruct (string_dec x y) as [->|Hne].
  - rewrite !count_occ_cons_eq by reflexivity. lia.
  - rewrite !count_occ_cons_neq by congruence. lia.
Qed.

Lemma pairs_sym (xs ys : list string) :
  list_sum (map (count_occ string_dec ys) xs) = list_sum (map (count_occ string_dec xs) ys).
Proof.
  induction xs as [|x xs IH].
  - simpl. induction ys as [|y ys IHy]; [reflexivity|exact IHy].
  - now rewrite pairs_cons, map_cons, list_sum_cons, IH.
Qed.

Lemma count_common_sym (xs ys : list string) : count_common xs ys 0 = count_common ys xs 0.
Proof.
  change 0 with (wrap_int64 0). now rewrite !count_common_spec, pairs_sym.
Qed.

Lemma total_len_sym (a b : list string) : total_len a b = total_len b a.
Proof. unfold total_len. f_equal. lia. Qed.

(** The constant of the score is the binary64 value of 50. *)
Lemma literal_50_is_exact : Float64.lit_50_0 = Float64.of_int 50.
Proof. vm_compute. reflexivity. Qed.

(** X27: the score does not depend on which of the two users asks: swapping
    the profiles gives the same binary64 value. *)
Theorem calculateMatchScore_symmetric
    (user1Interests user1Preferences user2Interests user2Preferences : list string) :
  calculateMatchScore user1Interests user1Preferences user2Interests user2Preferences =
  calculateMatchScore user2Interests user2Preferences user1Interests user1Preferences.
Proof.
  unfold calculateMatchScore.
  now rewrite (count_common_sym user1Interests), (count_common_sym user1Preferences),
    (total_len_sym user1Interests), (total_len_sym user1Preferences).
Qed.

Lemma total_len_empty : total_len [] [] = 0.
Proof. reflexivity. Qed.

Lemma total_len_positive (a b : list string) :
  0 < Z.of_nat (length a) + Z.of_nat (length b) < 2 ^ 63 ->
  0 < total_len a b < 2 ^ 63.
Proof. intros Hlen. unfold total_len. rewrite wrap_int64_small; lia. Qed.

(** X28: when neither user lists an interest but at least one lists a
    preference, the interest part of the score is 0/0: the score is NaN
    whatever the preferences are, and NaN is not at or above the
    threshold of 50, so no pair of such users is ever matched.  The same
    holds with the two categories exchanged.  (Lists shorter than 2^63,
    as every Go slice is.) *)
Theorem score_is_NaN_when_one_category_is_empty
    (user1Interests user1Preferences user2Interests user2Preferences : list string) :
  (user1Interests = [] /\ user2Interests = []
   /\ 0 < Z.of_nat (length user1Preferences) + Z.of_nat (length user2Preferences) < 2 ^ 63)
  \/ (user1Preferences = [] /\ user2Preferences = []
      /\ 0 < Z.of_nat (length user1Interests) + Z.of_nat (length user2Interests) < 2 ^ 63) ->
  let score :=
    calculateMatchScore user1Interests user1Preferences user2Interests user2Preferences in
  Float64.is_nan score = true /\ above_threshold score = false.
Proof.
  intros Hempty score.
  assert (Hnan : score = S754_nan).
  { unfold score, calculateMatchScore.
    destruct Hempty as [(-> & -> & Hlen)|(-> & -> & Hlen)];
      apply total_len_positive in Hlen; rewrite total_len_empty.
    - destruct (total_len user1Preferences user2Preferences =? 0) eqn:Hz;
        [apply Z.eqb_eq in Hz; lia|].
      cbn [count_common andb Z.eqb].
      change (Float64.div (Float64.of_int (wrap_int64 (0 * 2))) (Float64.of_int 0))
        with S754_nan.
      reflexivity.
    - destruct (total_len user1Interests user2Interests =? 0) eqn:Hz;
        [apply Z.eqb_eq in Hz; lia|].
      cbn [count_common andb Z.eqb].
      change (Float64.div (Float64.of_int (wrap_int64 (0 * 2))) (Float64.of_int 0))
        with S754_nan.
      change (Float64.mul S754_nan Float64.lit_50_0) with S754_nan.
      unfold Float64.add, SFadd.
      now destruct (Float64.mul _ _). }
  rewrite Hnan. split; reflexivity.
Qed.

Lemma score_is_NaN_when_one_category_is_empty_witness :
  let score := calculateMatchScore [] ["hiking"; "tea"] [] ["hiking"; "tea"] in
  Float64.is_nan score = true /\ above_threshold score = false.
Proof.
  apply (score_is_NaN_when_one_category_is_empty [] ["hiking"; "tea"] [] ["hiking"; "tea"]).
  left. split; [reflexivity|]. split; [reflexivity|]. simpl. lia.
Defined.

(** The conversion of a positive integer is a number above zero. *)
Lemma of_int_positive (n : Z) :
  0 < n -> exists x, Float64.of_int n = x
    /\ match x with
       | S754_finite false _ _ | S754_infinity false => True
       | _ => False
       end.
Proof.
  intros Hn. eexists. split; [reflexivity|].
  unfold Float64.of_int, binary_normalize, Float64.prec, Float64.emax.
  destruct n as [|p|p]; try lia.
  destruct (binary_round_core false p 0 ltac:(lia))
    as (m1 & m2 & _ & _ & _ & _ & _ & [[_ ->]|[_ ->]]);
    destruct (_ <=? 971); exact I.
Qed.

(** X29: two profiles with nothing in common, each category listed by at
    least one of the users, score exactly 0.0, which is below the
    threshold. *)
Theorem disjoint_profiles_score_zero
    (user1Interests user1Preferences user2Interests user2Preferences : list string) :
  Forall (fun x => ~ In x user2Interests) user1Interests ->
  Forall (fun x => ~ In x user2Preferences) user1Preferences ->
  0 < Z.of_nat (length user1Interests) + Z.of_nat (length user2Interests) < 2 ^ 63 ->
  0 < Z.of_nat (length user1Preferences) + Z.of_nat (length user2Preferences) < 2 ^ 63 ->
  let score :=
    calculateMatchScore user1Interests user1Preferences user2Interests user2Preferences in
  score = Float64.zero /\ above_threshold score = false.
Proof.
  intros Hi Hp Hleni Hlenp score.
  assert (Hnone : forall xs ys, Forall (fun x => ~ In x ys) xs -> count_common xs ys 0 = 0).
  { intros xs ys Hall. change 0 with (wrap_int64 0) at 1. rewrite count_common_spec.
    replace (list_sum (map (count_occ string_dec ys) xs)) with 0%nat; [reflexivity|].
    induction Hall as [|x xs Hx Hall IH]; [reflexivity|].
    rewrite map_cons, list_sum_cons, <- IH.
    now rewrite (proj1 (count_occ_not_In string_dec ys x) Hx). }
  assert (Hpart : forall t, 0 < t ->
            Float64.mul (Float64.div (Float64.of_int (wrap_int64 (0 * 2))) (Float64.of_int t))
              Float64.lit_50_0 = Float64.zero).
  { intros t Ht. destruct (of_int_positive t Ht) as (x & -> & Hx).
    change (Float64.of_int (wrap_int64 (0 * 2))) with (S754_zero false).
    destruct x as [[]|[]| |[] m e]; try contradiction; reflexivity. }
  assert (Hzero : score = Float64.zero).
  { unfold score, calculateMatchScore.
    apply total_len_positive in Hleni, Hlenp.
    rewrite (Hnone _ _ Hi), (Hnone _ _ Hp).
    destruct (total_len user1Interests user2Interests =? 0) eqn:Hz;
      [apply Z.eqb_eq in Hz; lia|]. cbn [andb].
    rewrite !Hpart by lia. reflexivity. }
  rewrite Hzero. split; reflexivity.
Qed.

Lemma disjoint_profiles_score_zero_witness :
  let score := calculateMatchScore ["chess"] ["tea"] ["golf"] ["coffee"] in
  score = Float64.zero /\ above_threshold score = false.
Proof.
  apply (disjoint_profiles_score_zero ["chess"] ["tea"] ["golf"] ["coffee"]).
  - constructor; [|constructor]. intros [Hin|[]]. discriminate.
  - constructor; [|constructor]. intros [Hin|[]]. discriminate.
  - simpl. lia.
  - simpl. lia.
Defined.

(** ** The further properties on concrete inputs *)

Lemma well_kept_empty : well_kept ∅.
Proof. intros k r. rewrite lookup_empty. discriminate. Qed.

Lemma well_kept_world_with_cost (cost : float64) :
  Float64.valid cost = true -> well_kept (spend_table (Toy.world_with_cost cost)).
Proof.
  intros Hv k r. unfold Toy.world_with_cost. simpl.
  destruct (decide (k = ("alice", Toy.today))) as [->|Hne].
  - rewrite lookup_insert_eq. intros [= <-]. split; [reflexivity|exact Hv].
  - rewrite lookup_insert_ne by congruence. rewrite lookup_empty. discriminate.
Qed.

Lemma recorded_request_is_read_back_witness :
  let w := Toy.world_with_cost (Float64.of_int 2) in
  let today := @format_date Toy.externals (@clock Toy.frozen (ticks w)) in
  let before := spend_table w !! ("alice", today) in
  exists w1 r w2,
    @RecordLLMRequest Toy.externals Toy.frozen "alice" (Float64.of_int 1) w = (Ok tt, w1)
    /\ @GetUserSpendSummary Toy.externals Toy.frozen "alice" w1 = (Ok (Some r), w2)
    /\ sr_UserID r = "alice" /\ sr_Date r = today
    /\ sr_LLMRequests r =
         wrap_int64 (match before with Some r0 => sr_LLMRequests r0 | None => 0 end + 1)
    /\ sr_LLMCost r =
         Float64.add (match before with Some r0 => sr_LLMCost r0 | None => Float64.zero end)
           (Float64.of_int 1)
    /\ sr_DailyLimit r =
         match before with Some r0 => sr_DailyLimit r0 | None => Float64.lit_5_0 end.
Proof.
  apply (@recorded_request_is_read_back Toy.externals Toy.frozen "alice" (Float64.of_int 1)
           (Toy.world_with_cost (Float64.of_int 2))); try reflexivity.
  apply well_kept_world_with_cost. vm_compute. reflexivity.
Defined.

Lemma RecordLLMRequest_frame_witness :
  let w := Toy.world_with_cost (Float64.of_int 2) in
  let today := @format_date Toy.externals (@clock Toy.offline (ticks w)) in
  let out := @RecordLLMRequest Toy.externals Toy.offline "alice" (Float64.of_int 1) w in
  (forall k, k <> ("alice", today) -> spend_table (snd out) !! k = spend_table w !! k)
  /\ kms_log (snd out) = kms_log w
  /\ (forall e, @fault Toy.offline (calls w) = Some e ->
        fst out = Err ("failed to get user spend record: failed to get item: " ++ e)
        /\ spend_table (snd out) = spend_table w)
  /\ (forall e, @fault Toy.offline (calls w) = None -> @fault Toy.offline (S (calls w)) = Some e ->
        fst out = Err ("failed to save user spend record: failed to put item: " ++ e)
        /\ spend_table (snd out) = spend_table w)
  /\ (is_Err (fst out) = true -> spend_table (snd out) = spend_table w).
Proof.
  apply (@RecordLLMRequest_frame Toy.externals Toy.offline "alice" (Float64.of_int 1)
           (Toy.world_with_cost (Float64.of_int 2))).
  apply well_kept_world_with_cost. vm_compute. reflexivity.
Defined.

Lemma admitted_request_stays_within_the_limit_witness :
  exists res w1,
    @CheckUserSpendLimit Toy.externals Toy.frozen "alice" (Float64.of_int 1)
      (Toy.world_with_cost (Float64.of_int 2)) = (Ok res, w1)
    /\ Allowed res = true
    /\ exists r w2,
         @RecordLLMRequest Toy.externals Toy.frozen "alice" (Float64.of_int 1) w1 = (Ok tt, w2)
         /\ spend_table w2 !! ("alice", Toy.today) = Some r
         /\ sr_LLMCost r = Float64.add (CurrentCost res) (Float64.of_int 1)
         /\ sr_DailyLimit r = DailyLimit res
         /\ Float64.gtb (sr_LLMCost r) (sr_DailyLimit r) = false.
Proof.
  eexists _, _. split; [vm_compute; reflexivity|]. split; [reflexivity|].
  apply (@admitted_request_stays_within_the_limit Toy.externals Toy.frozen "alice"
           (Float64.of_int 1) (Toy.world_with_cost (Float64.of_int 2))); try reflexivity.
  apply well_kept_world_with_cost. vm_compute. reflexivity.
Defined.

Lemma interleaved_recordings_lose_an_update_witness :
  let w := Toy.world_with_cost (Float64.of_int 2) in
  let today := @format_date Toy.externals (@clock Toy.frozen (ticks w)) in
  let before := spend_table w !! ("alice", today) in
  let requests := match before with Some r0 => sr_LLMRequests r0 | None => 0 end in
  let spent := match before with Some r0 => sr_LLMCost r0 | None => Float64.zero end in
  (forall cost w0, @RecordLLMRequest Toy.externals Toy.frozen "alice" cost w0 =
     (record <- @RecordLLMRequest_read Toy.externals Toy.frozen "alice" ;;
      @RecordLLMRequest_write Toy.externals Toy.frozen record cost) w0)
  /\ exists r w',
       (recordA <- @RecordLLMRequest_read Toy.externals Toy.frozen "alice" ;;
        recordB <- @RecordLLMRequest_read Toy.externals Toy.frozen "alice" ;;
        @RecordLLMRequest_write Toy.externals Toy.frozen recordA (Float64.of_int 1) ;;;
        @RecordLLMRequest_write Toy.externals Toy.frozen recordB (Float64.of_int 2)) w
         = (Ok tt, w')
       /\ spend_table w' !! ("alice", today) = Some r
       /\ sr_LLMRequests r = wrap_int64 (requests + 1)
       /\ sr_LLMCost r = Float64.add spent (Float64.of_int 2).
Proof.
  apply (@interleaved_recordings_lose_an_update Toy.externals Toy.frozen "alice"
           (Float64.of_int 1) (Float64.of_int 2) (Toy.world_with_cost (Float64.of_int 2)));
    try reflexivity.
  apply well_kept_world_with_cost. vm_compute. reflexivity.
Defined.

Lemma EncryptPHIArray_first_rejection_witness :
  @EncryptPHIArray Toy.picky Toy.kms (["sleep"; ""] ++ "refused" :: ["later"]) Toy.empty_world =
    (Err ("failed to encrypt array element " ++ sprintf_d (Z.of_nat (length ["sleep"; ""]))
          ++ ": failed to encrypt PHI: " ++ "AccessDeniedException"),
     set_kms_log (KmsEncryptCall (keyID Toy.kms) "refused" (@phi_context)
                    :: rev (map (fun p => KmsEncryptCall (keyID Toy.kms) p phi_context)
                              (filter (fun p => p <> "") ["sleep"; ""]))
                    ++ kms_log Toy.empty_world) Toy.empty_world).
Proof.
  apply (@EncryptPHIArray_first_rejection Toy.picky Toy.kms ["sleep"; ""] "refused" ["later"]
           "AccessDeniedException" Toy.empty_world).
  - constructor; [now right|]. constructor; [now left|constructor].
  - discriminate.
  - reflexivity.
Defined.

Lemma encrypted_array_decrypts_back_witness :
  exists encrypted w',
    @EncryptPHIArray Toy.externals Toy.kms ["sleep"; ""; "work"] Toy.empty_world
      = (Ok encrypted, w')
    /\ length encrypted = length ["sleep"; ""; "work"]
    /\ forall w'', fst (@DecryptPHIArray Toy.externals Toy.kms encrypted w'')
                   = Ok ["sleep"; ""; "work"].
Proof.
  apply (@encrypted_array_decrypts_back Toy.externals).
  - intros keyId p ctx blob Henc. simpl in Henc. injection Henc as <-.
    split; [reflexivity|discriminate].
  - reflexivity.
  - intros b Hb. exact Hb.
  - constructor; [now right|]. constructor; [now left|].
    constructor; [now right|constructor].
Defined.

Lemma DecryptPHIArray_undecodable_element_witness :
  @DecryptPHI Toy.picky Toy.kms "%" Toy.empty_world =
    (Err ("failed to decode ciphertext: " ++ "illegal base64 data at input byte 0"),
     Toy.empty_world)
  /\ exists w',
       @DecryptPHIArray Toy.picky Toy.kms (["#sleep"; ""] ++ "%" :: ["#later"]) Toy.empty_world =
         (Err ("failed to decrypt array element " ++ sprintf_d (Z.of_nat (length ["#sleep"; ""]))
               ++ ": failed to decode ciphertext: " ++ "illegal base64 data at input byte 0"), w')
       /\ exists blobs,
            kms_log w' = (rev (map (fun b => KmsDecryptCall b phi_context) blobs)
                          ++ kms_log Toy.empty_world)%list
            /\ Forall2 (fun q blob => @base64_DecodeString Toy.picky q = Ok blob)
                 (filter (fun q => q <> "") ["#sleep"; ""]) blobs.
Proof.
  apply (@DecryptPHIArray_undecodable_element Toy.picky Toy.kms ["#sleep"; ""] "%" ["#later"]
           "illegal base64 data at input byte 0" Toy.empty_world).
  - constructor; [right; exists "#sleep"; split; reflexivity|].
    constructor; [now left|constructor].
  - discriminate.
  - reflexivity.
Defined.

Lemma failed_closure_records_no_cost_witness :
  spend_table (snd (@processJournalEntry Toy.externals Toy.offline "alice" Toy.request Toy.kms
                      (Toy.world_with_cost (Float64.of_int 2))))
  = spend_table (Toy.world_with_cost (Float64.of_int 2)).
Proof.
  apply (@failed_closure_records_no_cost Toy.externals Toy.offline "alice" Toy.request Toy.kms
           (Toy.world_with_cost (Float64.of_int 2))).
  reflexivity.
Defined.

Lemma closure_never_lowers_an_accumulated_cost_witness :
  let w := Toy.world_with_cost (Float64.of_int 2) in
  let w' := snd (@processJournalEntry Toy.externals Toy.frozen "alice" Toy.request Toy.kms w) in
  well_kept (spend_table w')
  /\ forall k r', spend_table w' !! k = Some r' ->
       Float64.ltb (sr_LLMCost r')
         (match spend_table w !! k with
          | Some r => sr_LLMCost r
          | None => Float64.zero
          end) = false.
Proof.
  apply (@closure_never_lowers_an_accumulated_cost Toy.externals Toy.frozen "alice" Toy.request
           Toy.kms (Toy.world_with_cost (Float64.of_int 2))).
  apply well_kept_world_with_cost. vm_compute. reflexivity.
Defined.

Lemma admitted_request_is_encrypted_witness :
  exists entry w',
    @processJournalEntry Toy.externals Toy.frozen "alice" Toy.request Toy.kms Toy.empty_world
      = (Ok entry, w')
    /\ je_UserID entry = "alice"
    /\ je_Encrypted entry = true
    /\ length (je_Tags entry) = length (req_Tags Toy.request)
    /\ forall w'',
         fst (@DecryptPHI Toy.externals Toy.kms (je_Content entry) w'')
           = Ok (req_Content Toy.request)
         /\ fst (@DecryptPHI Toy.externals Toy.kms (je_Mood entry) w'') = Ok (req_Mood Toy.request)
         /\ fst (@DecryptPHIArray Toy.externals Toy.kms (je_Tags entry) w'')
            = Ok (req_Tags Toy.request).
Proof.
  eapply (@admitted_request_is_encrypted Toy.externals Toy.frozen).
  - intros keyId p ctx blob Henc. simpl in Henc. injection Henc as <-.
    split; [reflexivity|discriminate].
  - reflexivity.
  - intros b Hb. exact Hb.
  - vm_compute. reflexivity.
  - reflexivity.
  - constructor; [now right|]. constructor; [now right|].
    constructor; [now right|constructor].
Defined.

Lemma first_call_runs_the_closure_and_records_its_outcome_witness :
  let key := @GenerateIdempotencyKey Toy.externals "alice" "POST /journal-entries" "{}" in
  let out := @ProcessIdempotentRequest Toy.externals Toy.frozen
               "alice" "POST /journal-entries" "{}" Toy.broken_work Toy.empty_state in
  fst out = Err "boom"
  /\ handler_runs (snd out) = S (handler_runs Toy.empty_state)
  /\ (forall k, k <> key ->
        idempotency_table (snd out) !! k = idempotency_table Toy.empty_state !! k)
  /\ exists r, idempotency_table (snd out) !! key = Some r
       /\ ir_Key r = key /\ ir_UserID r = "alice"
       /\ ir_RequestHash r = @GenerateRequestHash Toy.externals "{}"
       /\ ir_ExpiresAt r =
            time.Add (@clock Toy.frozen (1 + ticks (world Toy.empty_state))) (24 * time.Hour)
       /\ (ir_Response r, ir_Status r) = ("error: " ++ "boom", "failed").
Proof.
  apply (@first_call_runs_the_closure_and_records_its_outcome Toy.externals Toy.frozen
           "alice" "POST /journal-entries" "{}" Toy.broken_work Toy.empty_state
           (Err "boom") (world (advance 3 2 Toy.empty_state))); reflexivity.
Defined.

Lemma retry_after_success_is_replayed_witness :
  let first := @ProcessIdempotentRequest Toy.externals Toy.frozen
                 "alice" "POST /journal-entries" "{}" Toy.work Toy.empty_state in
  let second := @ProcessIdempotentRequest Toy.externals Toy.frozen
                  "alice" "POST /journal-entries" "{}" Toy.broken_work (snd first) in
  fst first = Ok ("done" : string)
  /\ fst second = Ok ("done" : string)
  /\ snd second = advance 1 1 (snd first)
  /\ handler_runs (snd second) = S (handler_runs Toy.empty_state).
Proof.
  apply (@retry_after_success_is_replayed Toy.externals Toy.frozen
           "alice" "POST /journal-entries" "{}" Toy.work Toy.broken_work Toy.empty_state
           ("done" : string) "done" (world (advance 3 2 Toy.empty_state)));
    try reflexivity.
  vm_compute. discriminate.
Defined.

Lemma lost_completion_write_leaves_the_key_pending_witness :
  let key := @GenerateIdempotencyKey Toy.externals "alice" "POST /journal-entries" "{}" in
  let first := @ProcessIdempotentRequest Toy.externals (Toy.flaky 2)
                 "alice" "POST /journal-entries" "{}" Toy.work Toy.empty_state in
  let second := @ProcessIdempotentRequest Toy.externals (Toy.flaky 2)
                  "alice" "POST /journal-entries" "{}" Toy.work (snd first) in
  fst first = Ok ("done" : string)
  /\ (ir_Status <$> idempotency_table (snd first) !! key) = Some "pending"
  /\ second = (Err "request is already being processed", advance 1 1 (snd first))
  /\ handler_runs (snd second) = S (handler_runs Toy.empty_state).
Proof.
  apply (@lost_completion_write_leaves_the_key_pending Toy.externals (Toy.flaky 2)
           "alice" "POST /journal-entries" "{}" Toy.work Toy.work Toy.empty_state
           ("done" : string) "done" (world (advance 3 2 Toy.empty_state)) "RequestTimeout");
    try reflexivity.
  vm_compute. discriminate.
Defined.

Lemma failed_delete_of_an_expired_record_blocks_the_call_witness :
  @CheckIdempotency (Toy.flaky 1) Toy.key Toy.stale_state = (Ok None, advance 1 2 Toy.stale_state)
  /\ @ProcessIdempotentRequest Toy.externals (Toy.flaky 1)
       "alice" "POST /journal-entries" "{}" Toy.work Toy.stale_state =
       (Err ("failed to store idempotency record: failed to store idempotency record: "
          ++ Toy.refused),
        advance 4 3 Toy.stale_state).
Proof.
  apply (@failed_delete_of_an_expired_record_blocks_the_call Toy.externals (Toy.flaky 1)
           "alice" "POST /journal-entries" "{}" Toy.work Toy.stale_state
           (Toy.record_with "completed" "old" (Toy.t0 - 1)) "RequestTimeout"); reflexivity.
Defined.

Lemma remote_failure_before_the_closure_witness :
  let out := @ProcessIdempotentRequest Toy.externals (Toy.flaky 1)
               "alice" "POST /journal-entries" "{}" Toy.work Toy.empty_state in
  fst out =
    Err ("failed to store idempotency record: failed to store idempotency record: "
         ++ "RequestTimeout")
  /\ handler_runs (snd out) = handler_runs Toy.empty_state
  /\ idempotency_table (snd out) = idempotency_table Toy.empty_state
  /\ spend_table (world (snd out)) = spend_table (world Toy.empty_state)
  /\ kms_log (world (snd out)) = kms_log (world Toy.empty_state).
Proof.
  apply (@remote_failure_before_the_closure Toy.externals (Toy.flaky 1)
           "alice" "POST /journal-entries" "{}" Toy.work Toy.empty_state "RequestTimeout").
  right. repeat split; reflexivity.
Defined.

Lemma idempotency_key_ignores_field_boundaries_witness :
  let record :=
    {| ir_Key := "alice:admin:notes:{}"; ir_UserID := "alice:admin"; ir_RequestHash := "{}";
       ir_Response := "private"; ir_Status := "completed";
       ir_CreatedAt := Toy.t0; ir_ExpiresAt := Toy.t0 + time.Hour; ir_TTL := 0 |} in
  let s := Toy.with_record record in
  @GenerateIdempotencyKey Toy.externals "alice" ("admin" ++ ":" ++ "notes") "{}" =
    @GenerateIdempotencyKey Toy.externals ("alice" ++ ":" ++ "admin") "notes" "{}"
  /\ @GenerateIdempotencyKey Toy.externals "alice" "notes" ("admin" ++ ":" ++ "{}") =
       @GenerateIdempotencyKey Toy.externals ("alice" ++ ":" ++ "notes") "admin" "{}"
  /\ @ProcessIdempotentRequest Toy.externals Toy.frozen
       "alice" ("admin" ++ ":" ++ "notes") "{}" Toy.work s =
       (Ok ("private" : string), advance 1 1 s).
Proof.
  apply (@idempotency_key_ignores_field_boundaries Toy.externals Toy.frozen
           "alice" "admin" "notes" "{}" Toy.work
           (Toy.with_record
              {| ir_Key := "alice:admin:notes:{}"; ir_UserID := "alice:admin";
                 ir_RequestHash := "{}"; ir_Response := "private"; ir_Status := "completed";
                 ir_CreatedAt := Toy.t0; ir_ExpiresAt := Toy.t0 + time.Hour; ir_TTL := 0 |})
           {| ir_Key := "alice:admin:notes:{}"; ir_UserID := "alice:admin";
              ir_RequestHash := "{}"; ir_Response := "private"; ir_Status := "completed";
              ir_CreatedAt := Toy.t0; ir_ExpiresAt := Toy.t0 + time.Hour; ir_TTL := 0 |});
    reflexivity.
Defined.
